(** * mobi-menu: persistence engine, settings normalisation and availability

    A shallow embedding of the server ([server.js], release 2.0.0 with the
    lock/retry write path) and of the public renderer of the restaurant menu
    manager, together with the properties its specification states about
    them.

    Layout:
    - [JS]        the JavaScript values the program manipulates and the
                  runtime operations it calls on them;
    - [Render]    the visibility computation of the public menu renderer;
    - [Routes]    the routing table of the Express application;
    - [Schedule]  the schedule evaluator of the specification;
    - [JSON]      the JSON codec interface and a reference codec;
    - [Store]     cache, lock, disk, [readMenuData], [getMaxId],
                  [writeMenuData] and the menu handlers;
    - [Settings]  [PUT /api/settings];
    - [Numbers]   canonical literals of integers;
    - [Durability] what the write path and the menu handlers guarantee
                  along runs: files, locks and ids;
    - [Strings]   trimming, on lists of code units;
    - [Validate]  [sanitizeString], [validateMenuItem] and
                  [POST /api/menu] from the request body on;
    - [Auth]      the login route with its rate limiter, [requireAuth] and
                  [csrfProtection];
    - [SettingsRead] [getDefaultSettings], [readSettings] and
                  [GET /api/settings];
    - [Truncation] the integer [parseInt] reads off a number;
    - [MenuImport] [POST /api/menu/import];
    - [DataHash]  [generateDataHash] of the public page. *)

From Stdlib Require Import ZArith NArith QArith Qminmax List Sorted String Ascii Bool Lia.
From Stdlib Require Import Decimal DecimalString DecimalN DecimalPos DecimalFacts.
Import ListNotations.

#[local] Set Warnings "-register-all".

#[local] Open Scope string_scope.
#[local] Open Scope list_scope.
#[local] Open Scope Z_scope.

(* ===================================================================== *)
(** * JavaScript values and runtime operations *)
(* ===================================================================== *)

Module JS.

(** ** Completions: a call either returns or throws *)

Inductive error : Type :=
| TypeError
| SyntaxError
| FsError (code : string)      (* a Node.js system error, with its [code] *)
| PlainError (msg : string).   (* [new Error(msg)] *)

Inductive completion (A : Type) : Type :=
| Normal (a : A)
| Throw (e : error).
Arguments Normal {A} a.
Arguments Throw {A} e.

Definition bind {A B} (c : completion A) (k : A -> completion B) : completion B :=
  match c with
  | Normal a => k a
  | Throw e => Throw e
  end.

Notation "x <- c ;; k" := (bind c (fun x => k))
  (at level 61, c at next level, right associativity).

(** [error.code]: only system errors carry one. *)
Definition error_code (e : error) : option string :=
  match e with
  | FsError c => Some c
  | _ => None
  end.

(** ** Numbers

    A number is kept as a decimal literal in plain notation: a sign, an
    integer part and the digits after the point.  These are the numbers that
    JavaScript prints without an exponent; ids, prices and the display knobs
    of the program are of this kind.  A literal stands for the double
    nearest to it: the two tell the same numbers apart on the integers up
    to 2^53 and on the literals of at most 15 significant digits, and the
    properties that count ids are stated for such integers (see
    [MAX_SAFE_INTEGER] and [number_add] below). *)

Record number : Type := mkNumber {
  nneg : bool;
  nint : N;
  nfrac : Decimal.uint
}.

Definition num_of_Z (z : Z) : number := mkNumber (z <? 0) (Z.abs_N z) Nil.

(** Digits after the point without the trailing zeros: 1.50 is 1.5. *)
Definition frac_norm (f : Decimal.uint) : Decimal.uint := DecimalFacts.nztail f.

Definition num_is_zero (n : number) : bool :=
  (nint n =? 0)%N && match frac_norm (nfrac n) with Nil => true | _ => false end.

(** The canonical literal of a number: no trailing zero after the point and
    no sign on zero. *)
Definition num_norm (n : number) : number :=
  mkNumber (nneg n && negb (num_is_zero n)) (nint n) (frac_norm (nfrac n)).

Definition num_wf (n : number) : Prop := num_norm n = n.

(** The rational a literal denotes. *)
Definition num_Q (n : number) : Q :=
  let k := Pos.pow 10 (Pos.of_succ_nat (nb_digits (nfrac n))) in
  let m := (Z.of_N (nint n) * Z.pos k + 10 * Z.of_N (N.of_uint (nfrac n)))%Z in
  (if nneg n then Z.opp m else m) # k.

Definition num_eqb (a b : number) : bool := Qeq_bool (num_Q a) (num_Q b).

Definition frac_to_string (f : Decimal.uint) : string :=
  match f with
  | Nil => ""
  | _ => "." ++ NilEmpty.string_of_uint f
  end.

(** [String(n)] for a number in plain notation. *)
Definition number_to_string (n : number) : string :=
  (if nneg n then "-" else "") ++
  NilEmpty.string_of_uint (N.to_uint (nint n)) ++
  frac_to_string (nfrac n).

(** ** Values

    The values of the JSON data model: what [JSON.parse] builds and what the
    handlers store.  [undefined] is not among them; an expression that may be
    [undefined] has type [option value], with [None] for [undefined].  An
    object is the list of its own properties in enumeration order. *)

Inductive value : Type :=
| VNull
| VBool (b : bool)
| VNum (n : number)
| VStr (s : string)
| VArr (l : list value)
| VObj (fields : list (string * value)).

Definition VInt (z : Z) : value := VNum (num_of_Z z).

Section ValueInd.
Variable P : value -> Prop.
Hypothesis Hnull : P VNull.
Hypothesis Hbool : forall b, P (VBool b).
Hypothesis Hnum : forall n, P (VNum n).
Hypothesis Hstr : forall s, P (VStr s).
Hypothesis Harr : forall l, Forall P l -> P (VArr l).
Hypothesis Hobj : forall fs, Forall (fun kv => P (snd kv)) fs -> P (VObj fs).

Fixpoint value_ind' (v : value) : P v :=
  match v with
  | VNull => Hnull
  | VBool b => Hbool b
  | VNum n => Hnum n
  | VStr s => Hstr s
  | VArr l =>
      Harr l ((fix go (l : list value) : Forall P l :=
                 match l with
                 | [] => Forall_nil _
                 | x :: r => Forall_cons x (value_ind' x) (go r)
                 end) l)
  | VObj fs =>
      Hobj fs ((fix go (fs : list (string * value))
                  : Forall (fun kv => P (snd kv)) fs :=
                  match fs with
                  | [] => Forall_nil _
                  | kv :: r => Forall_cons kv (value_ind' (snd kv)) (go r)
                  end) fs)
  end.
End ValueInd.

(** A value is well formed when its numbers are canonical literals and no
    object has two properties of the same name. *)
Fixpoint wf_value (v : value) : Prop :=
  match v with
  | VNull | VBool _ | VStr _ => True
  | VNum n => num_wf n
  | VArr l => (fix go (l : list value) : Prop :=
                 match l with
                 | [] => True
                 | x :: r => wf_value x /\ go r
                 end) l
  | VObj fs => NoDup (map fst fs) /\
               (fix go (fs : list (string * value)) : Prop :=
                  match fs with
                  | [] => True
                  | kv :: r => wf_value (snd kv) /\ go r
                  end) fs
  end.

Definition isArray (v : value) : bool :=
  match v with VArr _ => true | _ => false end.

(** ** Property reads *)

Fixpoint lookup (k : string) (fs : list (string * value)) : option value :=
  match fs with
  | [] => None
  | (k', v) :: r => if (k' =? k)%string then Some v else lookup k r
  end.

(** [v.k] for a property name [k] that is not inherited from a prototype
    (the names the program reads: [id], [available], [category], ...).
    Reading a property of [null] or [undefined] throws; primitives and arrays
    have no such own property. *)
Definition get_prop (v : option value) (k : string) : completion (option value) :=
  match v with
  | None | Some VNull => Throw TypeError
  | Some (VObj fs) => Normal (lookup k fs)
  | Some _ => Normal None
  end.

(** ** Truthiness, [Boolean(v)] *)

Definition truthy (v : option value) : bool :=
  match v with
  | None | Some VNull => false
  | Some (VBool b) => b
  | Some (VNum n) => negb (Qeq_bool (num_Q n) 0)
  | Some (VStr s) => negb (s =? "")%string
  | Some (VArr _) | Some (VObj _) => true
  end.

(** [a || b] on possibly undefined values. *)
Definition or_else (a b : option value) : option value :=
  if truthy a then a else b.

(** [v === false]. *)
Definition is_false (v : option value) : bool :=
  match v with
  | Some (VBool false) => true
  | _ => false
  end.

(** [v === n] for a number [n]. *)
Definition is_number (v : option value) (n : number) : bool :=
  match v with
  | Some (VNum m) => num_eqb m n
  | _ => false
  end.

(** ** Strings *)

(** White space of [String.prototype.trim] among the code units below 256. *)
Definition is_space (c : ascii) : bool :=
  let n := nat_of_ascii c in
  ((9 <=? n) && (n <=? 13) || (n =? 32) || (n =? 160))%nat.

Fixpoint trim_start (s : string) : string :=
  match s with
  | String c r => if is_space c then trim_start r else s
  | EmptyString => EmptyString
  end.

Fixpoint string_rev_acc (s acc : string) : string :=
  match s with
  | EmptyString => acc
  | String c r => string_rev_acc r (String c acc)
  end.

Definition string_rev (s : string) : string := string_rev_acc s "".

Definition trim (s : string) : string :=
  string_rev (trim_start (string_rev (trim_start s))).

(** [toLowerCase] on the code units below 256: the letters A-Z, and the
    upper-case letters of Latin-1 (all of 192..222 but the sign 215). *)
Definition lower_char (c : ascii) : ascii :=
  let n := nat_of_ascii c in
  if ((65 <=? n) && (n <=? 90) ||
      (192 <=? n) && (n <=? 222) && negb (n =? 215))%nat
  then ascii_of_nat (n + 32) else c.

Fixpoint toLowerCase (s : string) : string :=
  match s with
  | EmptyString => EmptyString
  | String c r => String (lower_char c) (toLowerCase r)
  end.

Fixpoint join (sep : string) (l : list string) : string :=
  match l with
  | [] => ""
  | [x] => x
  | x :: r => (x ++ sep ++ join sep r)%string
  end.

(** [String(v)]. *)
Fixpoint ToString (v : value) : string :=
  match v with
  | VNull => "null"
  | VBool true => "true"
  | VBool false => "false"
  | VNum n => number_to_string n
  | VStr s => s
  | VArr l =>
      join "," ((fix go (l : list value) : list string :=
                   match l with
                   | [] => []
                   | x :: r =>
                       match x with
                       | VNull => ""
                       | _ => ToString x
                       end :: go r
                   end) l)
  | VObj _ => "[object Object]"
  end.

Definition String_ (v : option value) : string :=
  match v with
  | None => "undefined"
  | Some v => ToString v
  end.

(** ** [parseInt(v)], without a radix argument

    Leading white space is skipped, a sign is read, a [0x] prefix selects
    radix 16, and the longest run of digits is converted; no digit gives
    [NaN], which is [None] here. *)

Definition digit_val (radix : N) (c : ascii) : option N :=
  let n := N_of_ascii c in
  let d := if ((48 <=? n) && (n <=? 57))%N then Some (n - 48)%N
           else if ((97 <=? n) && (n <=? 122))%N then Some (n - 87)%N
           else if ((65 <=? n) && (n <=? 90))%N then Some (n - 55)%N
           else None in
  match d with
  | Some d => if (d <? radix)%N then Some d else None
  | None => None
  end.

Fixpoint digits_acc (radix : N) (s : string) (acc : option N) : option N :=
  match s with
  | EmptyString => acc
  | String c r =>
      match digit_val radix c with
      | Some d =>
          digits_acc radix r
            (Some (match acc with Some a => a * radix + d | None => d end)%N)
      | None => acc
      end
  end.

Definition strip_sign (s : string) : bool * string :=
  match s with
  | String "-" r => (true, r)
  | String "+" r => (false, r)
  | _ => (false, s)
  end.

Definition strip_radix (s : string) : N * string :=
  match s with
  | String "0" (String "x" r) => (16%N, r)
  | String "0" (String "X" r) => (16%N, r)
  | _ => (10%N, s)
  end.

Definition parseInt_string (s : string) : option Z :=
  let '(neg, s1) := strip_sign (trim_start s) in
  let '(radix, s2) := strip_radix s1 in
  match digits_acc radix s2 None with
  | Some n => Some (if neg then Z.opp (Z.of_N n) else Z.of_N n)
  | None => None
  end.

Definition parseInt (v : option value) : option Z := parseInt_string (String_ v).

(** [parseInt(v) || 0]: [NaN] and zero both give 0. *)
Definition parseInt_or_0 (v : option value) : Z :=
  match parseInt v with
  | Some z => z
  | None => 0
  end.

(** ** [parseInt] reads back the integers the server prints *)

Definition acc_val (acc : option N) : N :=
  match acc with Some a => a | None => 0%N end.

Lemma of_uint_cons (k : N) (f : uint -> uint) (d : uint) :
  (forall d', DecimalPos.Unsigned.of_lu (f d')
              = (k + 10 * DecimalPos.Unsigned.of_lu d')%N) ->
  (forall d1 d2, revapp (f d1) d2 = revapp d1 (f d2)) ->
  N.of_uint (f d)
  = (k * 10 ^ DecimalPos.Unsigned.usize d + N.of_uint d)%N.
Proof.
  intros Hf Hr. unfold N.of_uint.
  rewrite !DecimalPos.Unsigned.of_uint_alt. unfold rev. rewrite Hr.
  rewrite DecimalPos.Unsigned.of_lu_revapp. rewrite Hf. cbn [DecimalPos.Unsigned.of_lu].
  unfold rev. lia.
Qed.

Lemma digits_acc_some (radix : N) (s : string) (a : N) :
  digits_acc radix s (Some a) = None -> False.
Proof.
  revert a. induction s as [|c r IH]; intros a H; [discriminate|].
  cbn [digits_acc] in H. destruct (digit_val radix c); [|discriminate].
  apply (IH _ H).
Qed.

Lemma digits_acc_uint (d : uint) :
  d <> Nil ->
  forall (acc : option N) (rest : string),
    digits_acc 10 rest None = None ->
    digits_acc 10 (NilEmpty.string_of_uint d ++ rest) acc
    = Some (acc_val acc * 10 ^ DecimalPos.Unsigned.usize d + N.of_uint d)%N.
Proof.
  assert (Hrest : forall rest acc,
             digits_acc 10 rest None = None -> digits_acc 10 rest acc = acc).
  { intros rest acc H. destruct rest as [|c r]; [reflexivity|].
    cbn [digits_acc] in *. destruct (digit_val 10 c); [|reflexivity].
    destruct (digits_acc_some 10 r _ H). }
  induction d; intros Hne acc rest Hr; try contradiction;
    cbn [NilEmpty.string_of_uint String.append digits_acc];
    match goal with
    | |- context [digit_val 10 ?c] =>
        let v := eval vm_compute in (digit_val 10 c) in
        change (digit_val 10 c) with v
    end; cbv beta iota;
    (destruct (uint_eq_dec d Nil) as [->|Hd];
     [ cbn [NilEmpty.string_of_uint String.append];
       rewrite (Hrest rest _ Hr); f_equal;
       destruct acc; cbn [acc_val DecimalPos.Unsigned.usize]; vm_compute N.of_uint; lia
     | rewrite (IHd Hd _ _ Hr); f_equal;
       match goal with
       | |- context [N.of_uint (?f d)] =>
           rewrite (of_uint_cons (DecimalPos.Unsigned.hd (f Nil)) f d)
             by (intros; reflexivity)
       end;
       cbn [DecimalPos.Unsigned.usize DecimalPos.Unsigned.hd];
       rewrite N.pow_succ_r';
       destruct acc; cbn [acc_val]; lia ]).
Qed.

Lemma normal_D0 (d : uint) : unorm (D0 d) = D0 d -> d = Nil.
Proof.
  intros H. destruct (uint_eq_dec d Nil) as [E|E]; [exact E|].
  exfalso. rewrite unorm_D0 in H.
  pose proof (nb_digits_unorm d E) as Hle. rewrite H in Hle.
  cbn [nb_digits] in Hle. lia.
Qed.

Lemma digits_plain (d : uint) :
  unorm d = d ->
  let s := (NilEmpty.string_of_uint d ++ "")%string in
  trim_start s = s /\ strip_sign s = (false, s) /\ strip_radix s = (10%N, s).
Proof.
  intros H. destruct d; try (repeat split; reflexivity).
  apply normal_D0 in H. subst. repeat split; reflexivity.
Qed.

Lemma parseInt_digits (n : N) :
  parseInt_string (NilEmpty.string_of_uint (N.to_uint n) ++ "") = Some (Z.of_N n).
Proof.
  assert (Hn : unorm (N.to_uint n) = N.to_uint n).
  { rewrite <- (DecimalN.Unsigned.of_to n) at 2.
    rewrite DecimalN.Unsigned.to_of. reflexivity. }
  assert (Hne : N.to_uint n <> Nil).
  { rewrite <- Hn. apply unorm_nonnil. }
  destruct (digits_plain _ Hn) as (H1 & H2 & H3).
  unfold parseInt_string. rewrite H1, H2, H3.
  rewrite (digits_acc_uint _ Hne None "" eq_refl).
  rewrite DecimalN.Unsigned.of_to. cbn [acc_val]. f_equal; lia.
Qed.

Lemma parseInt_VInt (z : Z) : parseInt (Some (VInt z)) = Some z.
Proof.
  unfold parseInt, String_, VInt, ToString, number_to_string, num_of_Z.
  cbn [nneg nint nfrac frac_to_string].
  destruct (Z.ltb_spec z 0) as [Hz|Hz].
  - pose proof (parseInt_digits (Z.abs_N z)) as H.
    unfold parseInt_string in *.
    change (trim_start ("-" ++ ?s)) with ("-" ++ s)%string.
    cbn [String.append strip_sign].
    assert (Hn : unorm (N.to_uint (Z.abs_N z)) = N.to_uint (Z.abs_N z)).
    { rewrite <- (DecimalN.Unsigned.of_to (Z.abs_N z)) at 2.
      rewrite DecimalN.Unsigned.to_of. reflexivity. }
    destruct (digits_plain _ Hn) as (H1 & H2 & H3).
    rewrite H1, H2 in H. rewrite H3 in *.
    destruct (digits_acc 10 _ None) as [m|]; [|discriminate H].
    injection H as H. f_equal. lia.
  - cbn [String.append].
    rewrite parseInt_digits. f_equal. lia.
Qed.

Lemma num_of_Z_wf (z : Z) : num_wf (num_of_Z z).
Proof.
  unfold num_wf, num_norm, num_of_Z, num_is_zero. cbn [nneg nint nfrac frac_norm].
  f_equal. cbn [DecimalFacts.nztail].
  destruct (Z.ltb_spec z 0) as [Hz|Hz]; [|reflexivity].
  destruct (N.eqb_spec (Z.abs_N z) 0) as [E|E]; [lia | reflexivity].
Qed.

(** ** Sums of integers

    The numbers of JavaScript are doubles.  Every integer up to 2^53 in
    magnitude is one.  Beyond, a double is a multiple of a power of two (of
    2 up to 2^54, of 4 up to 2^55, and so on), and a sum of integers is the
    double nearest to it, the one with the even multiple when two are
    equally near: [2^53 + 1] is [2^53].  The sums are those below the
    largest double. *)

Definition MAX_SAFE_INTEGER : Z := 9007199254740991.        (* 2^53 - 1 *)

Definition round_to_double (z : Z) : Z :=
  let a := Z.abs z in
  if a <=? MAX_SAFE_INTEGER + 1 then z
  else
    let ulp := 2 ^ (Z.log2 a - 52) in
    let q := a / ulp in
    let r := a mod ulp in
    let q' := if 2 * r <? ulp then q
              else if ulp <? 2 * r then q + 1
              else if Z.even q then q else q + 1 in
    Z.sgn z * (q' * ulp).

(** [a + b] for two integers. *)
Definition number_add (a b : Z) : Z := round_to_double (a + b).

Lemma round_to_double_safe (z : Z) :
  Z.abs z <= MAX_SAFE_INTEGER + 1 -> round_to_double z = z.
Proof.
  intros H. unfold round_to_double. cbv zeta.
  destruct (Z.leb_spec (Z.abs z) (MAX_SAFE_INTEGER + 1)) as [_|Hgt]; [reflexivity|].
  exfalso. apply (Z.lt_irrefl (Z.abs z)). eapply Z.le_lt_trans; eassumption.
Qed.

(** Up to [MAX_SAFE_INTEGER] counting is exact. *)
Lemma number_add_safe (a : Z) :
  0 <= a <= MAX_SAFE_INTEGER -> number_add a 1 = a + 1.
Proof.
  intros H. unfold number_add. apply round_to_double_safe.
  unfold MAX_SAFE_INTEGER in *. lia.
Qed.

(** From 2^53 on it is not: the sum is the number itself. *)
Lemma number_add_stalls :
  number_add (MAX_SAFE_INTEGER + 1) 1 = MAX_SAFE_INTEGER + 1.
Proof. vm_compute. reflexivity. Qed.

End JS.

(* ===================================================================== *)
(** * The public renderer: final visibility of a menu item *)
(* ===================================================================== *)

Module Render.
Import JS.

(** The item loop of the public renderer computes, for each item:
<<
   const isAvailable = item.available !== false;
   const scheduleInfo = item.scheduleAvailability || {};
   const isScheduledAvailable = scheduleInfo.isAvailable !== false;
   const finalAvailable = isAvailable && isScheduledAvailable;
>> *)

Definition isAvailable (item : value) : completion bool :=
  a <- get_prop (Some item) "available" ;;
  Normal (negb (is_false a)).

Definition scheduleInfo (item : value) : completion (option value) :=
  sa <- get_prop (Some item) "scheduleAvailability" ;;
  Normal (or_else sa (Some (VObj []))).

Definition isScheduledAvailable (item : value) : completion bool :=
  info <- scheduleInfo item ;;
  ia <- get_prop info "isAvailable" ;;
  Normal (negb (is_false ia)).

Definition finalAvailable (item : value) : completion bool :=
  a <- isAvailable item ;;
  s <- isScheduledAvailable item ;;
  Normal (a && s).

(** [scheduleInfo] is never [null] or [undefined], so reading its
    [isAvailable] cannot throw. *)
Lemma scheduleInfo_readable (fs : list (string * value)) :
  exists b, isScheduledAvailable (VObj fs) = Normal b.
Proof.
  unfold isScheduledAvailable, scheduleInfo; simpl.
  unfold or_else.
  destruct (lookup "scheduleAvailability" fs) as [v|] eqn:E; simpl.
  - destruct v as [ | b | n | s | l | gs]; simpl; try (eexists; reflexivity).
    + destruct b; simpl; eexists; reflexivity.
    + destruct (negb (Qeq_bool (num_Q n) 0)); simpl; eexists; reflexivity.
    + destruct (negb (s =? "")%string); simpl; eexists; reflexivity.
  - eexists; reflexivity.
Qed.

(** C2. For every item object, whatever its [schedule] and
    [scheduleAvailability] properties hold, the final visibility is the
    conjunction of the manual flag, [available !== false], and of the
    schedule result, [isAvailable !== false] read off the item's
    [scheduleAvailability] when that is an object, and [true] when the item
    has none (or one that is no object, which has no such property).  So an
    item whose [available] is [false] is never visible, nor is one whose
    [scheduleAvailability.isAvailable] is [false]; every other item is
    visible. *)
Theorem final_visibility_is_conjunction (fs : list (string * value)) :
  finalAvailable (VObj fs)
  = Normal (negb (is_false (lookup "available" fs)) &&
            match lookup "scheduleAvailability" fs with
            | Some (VObj info) => negb (is_false (lookup "isAvailable" info))
            | _ => true
            end) /\
  (lookup "available" fs = Some (VBool false) ->
   finalAvailable (VObj fs) = Normal false) /\
  (forall info,
      lookup "scheduleAvailability" fs = Some (VObj info) ->
      lookup "isAvailable" info = Some (VBool false) ->
      finalAvailable (VObj fs) = Normal false) /\
  (lookup "available" fs <> Some (VBool false) ->
   (forall info,
       lookup "scheduleAvailability" fs = Some (VObj info) ->
       lookup "isAvailable" info <> Some (VBool false)) ->
   finalAvailable (VObj fs) = Normal true).
Proof.
  assert (Hf : finalAvailable (VObj fs)
               = Normal (negb (is_false (lookup "available" fs)) &&
                         match lookup "scheduleAvailability" fs with
                         | Some (VObj info) =>
                             negb (is_false (lookup "isAvailable" info))
                         | _ => true
                         end)).
  { unfold finalAvailable, isAvailable, isScheduledAvailable, scheduleInfo.
    cbn [get_prop bind]. unfold or_else.
    destruct (lookup "scheduleAvailability" fs) as [[ | b | n | s | l | info]|];
      cbn [truthy get_prop bind is_false negb]; try reflexivity.
    - destruct b; reflexivity.
    - destruct (negb (Qeq_bool (num_Q n) 0)); reflexivity.
    - destruct (negb (s =? "")%string); reflexivity. }
  assert (Hfalse : forall v : option value,
             is_false v = true <-> v = Some (VBool false)).
  { intros [[ | [|] | n | s | l | gs]|]; cbn [is_false]; split;
      intros H; try reflexivity; discriminate H. }
  split; [exact Hf|]. split; [|split].
  - intros Ha. rewrite Hf, Ha. reflexivity.
  - intros info Hs Hi. rewrite Hf, Hs, Hi. cbn [is_false negb].
    rewrite andb_false_r. reflexivity.
  - intros Ha Hs. rewrite Hf.
    destruct (is_false (lookup "available" fs)) eqn:Ea.
    { exfalso. apply Ha, Hfalse, Ea. }
    destruct (lookup "scheduleAvailability" fs) as [[ | b | n | s | l | info]|];
      try reflexivity.
    destruct (is_false (lookup "isAvailable" info)) eqn:Ei; [|reflexivity].
    exfalso. apply (Hs info eq_refl), Hfalse, Ei.
Qed.

(** Three burgers: one switched off by hand while its schedule says "in
    window", one left on while its schedule says "out of window", and one
    that is on and in window. *)
Definition switched_off : list (string * value) :=
  [("id", VInt 1); ("name", VStr "Burger"); ("available", VBool false);
   ("schedule", VObj [("days", VArr [VInt 1; VInt 2])]);
   ("scheduleAvailability", VObj [("isAvailable", VBool true)])].

Definition out_of_window : list (string * value) :=
  [("id", VInt 2); ("name", VStr "Burger"); ("available", VBool true);
   ("schedule", VObj [("days", VArr [VInt 1; VInt 2])]);
   ("scheduleAvailability", VObj [("isAvailable", VBool false)])].

Definition in_window : list (string * value) :=
  [("id", VInt 3); ("name", VStr "Burger"); ("available", VBool true);
   ("schedule", VObj [("days", VArr [VInt 1; VInt 2])]);
   ("scheduleAvailability", VObj [("isAvailable", VBool true)])].

Lemma final_visibility_witness :
  lookup "available" switched_off = Some (VBool false) /\
  finalAvailable (VObj switched_off) = Normal false /\
  lookup "scheduleAvailability" out_of_window
    = Some (VObj [("isAvailable", VBool false)]) /\
  finalAvailable (VObj out_of_window) = Normal false /\
  finalAvailable (VObj in_window) = Normal true.
Proof.
  split; [reflexivity|].
  split; [exact (proj1 (proj2 (final_visibility_is_conjunction switched_off))
                   eq_refl)|].
  split; [reflexivity|].
  split; [exact (proj1 (proj2 (proj2 (final_visibility_is_conjunction out_of_window)))
                   [("isAvailable", VBool false)] eq_refl eq_refl)|].
  rewrite (proj1 (final_visibility_is_conjunction in_window)). reflexivity.
Defined.

End Render.

(* ===================================================================== *)
(** * The routing table of the Express application *)
(* ===================================================================== *)

Module Routes.
Import JS.

Inductive method : Type := GET | HEAD | POST | PUT | DELETE | PATCH.

Inductive segment : Type :=
| Lit (s : string)        (* a fixed path segment *)
| Param (name : string).  (* [:name] *)

Inductive handler : Type :=
| AuthLogin | AuthLogout | AuthStatus
| MenuList | MenuCreate | MenuUpdate | MenuDelete | MenuExport | MenuImport
| PublicData | SettingsGet | SettingsPut | Health.

(** The routes, in the order [server.js] registers them. *)
Definition routes : list (method * list segment * handler) :=
  [ (POST,   [Lit "api"; Lit "auth"; Lit "login"],  AuthLogin);
    (POST,   [Lit "api"; Lit "auth"; Lit "logout"], AuthLogout);
    (GET,    [Lit "api"; Lit "auth"; Lit "status"], AuthStatus);
    (GET,    [Lit "api"; Lit "menu"],               MenuList);
    (POST,   [Lit "api"; Lit "menu"],               MenuCreate);
    (PUT,    [Lit "api"; Lit "menu"; Param "id"],   MenuUpdate);
    (DELETE, [Lit "api"; Lit "menu"; Param "id"],   MenuDelete);
    (GET,    [Lit "api"; Lit "menu"; Lit "export"], MenuExport);
    (POST,   [Lit "api"; Lit "menu"; Lit "import"], MenuImport);
    (GET,    [Lit "data.json"],                     PublicData);
    (GET,    [Lit "api"; Lit "settings"],           SettingsGet);
    (PUT,    [Lit "api"; Lit "settings"],           SettingsPut);
    (GET,    [Lit "health"],                        Health) ].

Definition method_eqb (a b : method) : bool :=
  match a, b with
  | GET, GET | HEAD, HEAD | POST, POST | PUT, PUT
  | DELETE, DELETE | PATCH, PATCH => true
  | _, _ => false
  end.

(** A route registered with [app.get] also answers [HEAD]. *)
Definition method_matches (route req : method) : bool :=
  method_eqb route req ||
  match route, req with GET, HEAD => true | _, _ => false end.

Fixpoint path_matches (pat : list segment) (path : list string) : bool :=
  match pat, path with
  | [], [] => true
  | Lit s :: pat', x :: path' => (s =? x)%string && path_matches pat' path'
  | Param _ :: pat', x :: path' => negb (x =? "")%string && path_matches pat' path'
  | _, _ => false
  end.

Fixpoint dispatch_in (rs : list (method * list segment * handler))
         (m : method) (path : list string) : option handler :=
  match rs with
  | [] => None
  | (rm, pat, h) :: rs' =>
      if method_matches rm m && path_matches pat path then Some h
      else dispatch_in rs' m path
  end.

(** The handler a request reaches; [None] when no route matches and the
    request falls through to the last middleware. *)
Definition dispatch (m : method) (path : list string) : option handler :=
  dispatch_in routes m path.

Record response : Type := mkResponse { status : Z; body : value }.

(** The last middleware:
    [res.status(404).json({ success: false, error: "Route not found" })].
    It reads and writes nothing. *)
Definition notFound {St : Type} (s : St) : response * St :=
  (mkResponse 404 (VObj [("success", VBool false);
                         ("error", VStr "Route not found")]), s).

(** What the application does with a request that no route matches. *)
Definition unrouted {St : Type} (m : method) (path : list string) (s : St)
  : option (response * St) :=
  match dispatch m path with
  | None => Some (notFound s)
  | Some _ => None
  end.

(** No route is registered for [PATCH]. *)
Lemma dispatch_patch (path : list string) : dispatch PATCH path = None.
Proof.
  unfold dispatch, routes.
  repeat (cbn [dispatch_in method_matches method_eqb orb andb]).
  reflexivity.
Qed.

(** C7. The request of the admin toggle,
    [PATCH /api/menu/:id/availability], reaches no handler: for every id and
    every server state the answer is 404 "Route not found" and the state is
    left as it was, so no [available] flag is ever updated. *)
Theorem patch_availability_not_found {St : Type} (id : string) (s : St) :
  dispatch PATCH ["api"; "menu"; id; "availability"] = None /\
  unrouted PATCH ["api"; "menu"; id; "availability"] s
    = Some (mkResponse 404 (VObj [("success", VBool false);
                                  ("error", VStr "Route not found")]), s).
Proof.
  split.
  - apply dispatch_patch.
  - unfold unrouted. rewrite dispatch_patch. reflexivity.
Qed.

End Routes.

(* ===================================================================== *)
(** * The schedule evaluator *)
(* ===================================================================== *)

Module Schedule.

(** An instant is a calendar day, counted from 1 January 1970, and a time of
    day in minutes since midnight. *)
Record instant : Type := mkInstant { day : Z; minute : Z }.

(** Day 0 was a Thursday; weekdays run from 0 (Sunday) to 6. *)
Definition weekday (d : Z) : Z := (d + 4) mod 7.

Record timeRange : Type := mkTimeRange {
  tr_start : option string;   (* "HH:MM" *)
  tr_end : option string
}.

(** The bounds of a date range, as day numbers. *)
Record dateRange : Type := mkDateRange {
  dr_start : option Z;
  dr_end : option Z
}.

Record schedule : Type := mkSchedule {
  days : option (list Z);
  sch_time : option timeRange;
  sch_date : option dateRange
}.

Record availability : Type := mkAvailability {
  isAvailable : bool;
  reason : option string;
  nextAvailable : option instant
}.

Definition digit_of (c : ascii) : option Z :=
  let n := Z.of_nat (nat_of_ascii c) in
  if (48 <=? n) && (n <=? 57) then Some (n - 48) else None.

(** Minutes since midnight of an ["HH:MM"] string; [None] if malformed. *)
Definition parseHHMM (s : string) : option Z :=
  match s with
  | String h1 (String h2 (String ":" (String m1 (String m2 EmptyString)))) =>
      match digit_of h1, digit_of h2, digit_of m1, digit_of m2 with
      | Some a, Some b, Some c, Some d =>
          let hh := 10 * a + b in
          let mm := 10 * c + d in
          if (hh <? 24) && (mm <? 60) then Some (60 * hh + mm) else None
      | _, _, _, _ => None
      end
  | _ => None
  end.

(** The window of a time range; a missing or malformed bound leaves the
    axis unconstrained. *)
Definition window (s : schedule) : option (Z * Z) :=
  match sch_time s with
  | Some tr =>
      match tr_start tr, tr_end tr with
      | Some a, Some b =>
          match parseHHMM a, parseHHMM b with
          | Some lo, Some hi => Some (lo, hi)
          | _, _ => None
          end
      | _, _ => None
      end
  | None => None
  end.

(** The time of day at which an available day starts: [timeRange.start] if
    present, else midnight. *)
Definition start_minute (s : schedule) : Z :=
  match sch_time s with
  | Some tr =>
      match tr_start tr with
      | Some a => match parseHHMM a with Some lo => lo | None => 0 end
      | None => 0
      end
  | None => 0
  end.

Definition mem (x : Z) (l : list Z) : bool := existsb (Z.eqb x) l.

Definition day_ok (s : schedule) (d : Z) : bool :=
  match days s with
  | Some ((_ :: _) as l) => mem (weekday d) l
  | _ => true
  end.

Definition not_before_start (s : schedule) (d : Z) : bool :=
  match sch_date s with
  | Some dr => match dr_start dr with Some a => a <=? d | None => true end
  | None => true
  end.

Definition not_after_end (s : schedule) (d : Z) : bool :=
  match sch_date s with
  | Some dr => match dr_end dr with Some b => d <=? b | None => true end
  | None => true
  end.

(** The first day among [from], [from + 1], ... (a week at most) that the
    day list and the date range both allow. *)
Fixpoint next_valid_day (s : schedule) (from : Z) (fuel : nat) : option Z :=
  match fuel with
  | O => None
  | S fuel' =>
      if negb (not_after_end s from) then None
      else if day_ok s from && not_before_start s from then Some from
      else next_valid_day s (from + 1) fuel'
  end.

Definition next_start (s : schedule) (from : Z) : option instant :=
  match next_valid_day s from 7 with
  | Some d => Some (mkInstant d (start_minute s))
  | None => None
  end.

Definition available : availability := mkAvailability true None None.

(** Modelled from the spec: the schedule evaluator
    [evaluate(schedule, now) -> { isAvailable, reason, nextAvailable }] of
    section 4.1 is not in the sources under study (the server stores items
    without evaluating them and the renderer only reads the precomputed
    [scheduleAvailability]).  The checks run in the order day, date range,
    time of day; the first failing one gives the reason and the next
    available instant; a missing schedule or axis is unconstrained; both
    bounds of a range are inclusive and a window with [end < start] is a
    same-day window. *)
Definition evaluate (sch : option schedule) (now : instant) : availability :=
  match sch with
  | None => available
  | Some s =>
      if negb (day_ok s (day now)) then
        mkAvailability false (Some "not available today")
                       (next_start s (day now + 1))
      else if negb (not_before_start s (day now)) then
        mkAvailability false (Some "not yet available")
                       (match sch_date s with
                        | Some dr =>
                            match dr_start dr with
                            | Some a => next_start s a
                            | None => None
                            end
                        | None => None
                        end)
      else if negb (not_after_end s (day now)) then
        mkAvailability false (Some "expired") None
      else
        match window s with
        | Some (lo, hi) =>
            if (lo <=? minute now) && (minute now <=? hi) then available
            else
              mkAvailability false (Some "outside hours")
                (if minute now <? lo
                 then Some (mkInstant (day now) lo)
                 else next_start s (day now + 1))
        | None => available
        end
  end.

Definition at_time (d hh mm : Z) : instant := mkInstant d (60 * hh + mm).

(** The schedule of the boundary cases: open from 09:00 to 17:00, every day. *)
Definition nine_to_five : schedule :=
  mkSchedule None (Some (mkTimeRange (Some "09:00") (Some "17:00"))) None.

(** C6. With [timeRange = {start: "09:00", end: "17:00"}] and nothing else,
    on any day: at 09:00 the item is available; at 08:59 it is not and is
    next available the same day at 09:00; at 17:00 it is available (the end
    is inclusive); at 17:01 it is not and is next available the following
    day at 09:00. *)
Theorem evaluate_nine_to_five_boundaries (d : Z) :
  evaluate (Some nine_to_five) (at_time d 9 0) = mkAvailability true None None /\
  evaluate (Some nine_to_five) (at_time d 8 59)
    = mkAvailability false (Some "outside hours") (Some (at_time d 9 0)) /\
  evaluate (Some nine_to_five) (at_time d 17 0) = mkAvailability true None None /\
  evaluate (Some nine_to_five) (at_time d 17 1)
    = mkAvailability false (Some "outside hours") (Some (at_time (d + 1) 9 0)).
Proof.
  repeat split; reflexivity.
Qed.

End Schedule.

(* ===================================================================== *)
(** * JSON: the codec interface and a reference codec *)
(* ===================================================================== *)

Module JSON.
Import JS.

(** The server persists a collection with [JSON.stringify(data, null, 2)]
    and loads it with [JSON.parse].  The store only relies on the fact
    that parsing what was printed gives the value back; the interface
    records it. *)
Class Codec : Type := {
  stringify : value -> string;
  parse : string -> option value;   (* [None]: a [SyntaxError] is thrown *)
  parse_stringify : forall v, wf_value v -> parse (stringify v) = Some v
}.

(** ** The reference codec *)

Definition text := list ascii.

#[local] Open Scope char_scope.

(** *** Printing *)

Definition hex_char (n : nat) : ascii :=
  if (n <? 10)%nat then ascii_of_nat (48 + n) else ascii_of_nat (87 + n).

(** [QuoteJSONString], one code unit at a time. *)
Definition escape_char (c : ascii) : text :=
  let n := nat_of_ascii c in
  if (n =? 34)%nat then ["\"; "034"]
  else if (n =? 92)%nat then ["\"; "\"]
  else if (n =? 8)%nat then ["\"; "b"]
  else if (n =? 9)%nat then ["\"; "t"]
  else if (n =? 10)%nat then ["\"; "n"]
  else if (n =? 12)%nat then ["\"; "f"]
  else if (n =? 13)%nat then ["\"; "r"]
  else if (n <? 32)%nat then
    ["\"; "u"; "0"; "0"; hex_char (n / 16); hex_char (n mod 16)]
  else [c].

Fixpoint escape (s : string) : text :=
  match s with
  | EmptyString => []
  | String c r => escape_char c ++ escape r
  end.

Definition quote (s : string) : text := "034" :: escape s ++ ["034"].

Definition print_number (n : number) : text :=
  list_ascii_of_string (number_to_string n).

Definition indent (k : nat) : text := repeat " " (2 * k).

(** A line break followed by the indentation of depth [k]. *)
Definition newline (k : nat) : text := "010" :: indent k.

(** The items of a non-empty array or object, one per line. *)
Fixpoint lines (k : nat) (items : list text) : text :=
  match items with
  | [] => []
  | [x] => x
  | x :: r => x ++ "," :: newline k ++ lines k r
  end.

(** [JSON.stringify(v, null, 2)] at nesting depth [k]. *)
Fixpoint print (k : nat) (v : value) : text :=
  match v with
  | VNull => ["n"; "u"; "l"; "l"]
  | VBool true => ["t"; "r"; "u"; "e"]
  | VBool false => ["f"; "a"; "l"; "s"; "e"]
  | VNum n => print_number n
  | VStr s => quote s
  | VArr [] => ["["; "]"]
  | VArr l =>
      "[" :: newline (S k) ++ lines (S k) (map (print (S k)) l)
          ++ newline k ++ ["]"]
  | VObj [] => ["{"; "}"]
  | VObj fs =>
      "{" :: newline (S k)
          ++ lines (S k)
               (map (fun kv => quote (fst kv) ++ ":" :: " " :: print (S k) (snd kv)) fs)
          ++ newline k ++ ["}"]
  end.

(** *** Parsing *)

Definition is_ws (c : ascii) : bool :=
  let n := nat_of_ascii c in
  ((n =? 32) || (n =? 9) || (n =? 10) || (n =? 13))%nat.

Fixpoint skip_ws (s : text) : text :=
  match s with
  | c :: r => if is_ws c then skip_ws r else s
  | [] => []
  end.

Definition hex_val (c : ascii) : option nat :=
  match digit_val 16 c with
  | Some d => Some (N.to_nat d)
  | None => None
  end.

(** The rest of a string literal, after its opening quote.  An escape
    [\uXXXX] above 255 denotes a code unit outside the strings of the model
    and is refused. *)
Fixpoint parse_string (s : text) : option (string * text) :=
  match s with
  | [] => None
  | "034" :: r => Some (EmptyString, r)
  | "\" :: c :: r =>
      let simple (x : ascii) :=
        match parse_string r with
        | Some (t, r') => Some (String x t, r')
        | None => None
        end in
      match c with
      | "034" => simple "034"
      | "\" => simple "\"
      | "/" => simple "/"
      | "b" => simple "008"
      | "f" => simple "012"
      | "n" => simple "010"
      | "r" => simple "013"
      | "t" => simple "009"
      | "u" =>
          match r with
          | h1 :: h2 :: h3 :: h4 :: r4 =>
              match hex_val h1, hex_val h2, hex_val h3, hex_val h4 with
              | Some 0%nat, Some 0%nat, Some c, Some d =>
                  match parse_string r4 with
                  | Some (t, r') => Some (String (ascii_of_nat (16 * c + d)) t, r')
                  | None => None
                  end
              | _, _, _, _ => None
              end
          | _ => None
          end
      | _ => None
      end
  | c :: r =>
      if (nat_of_ascii c <? 32)%nat then None
      else match parse_string r with
           | Some (t, r') => Some (String c t, r')
           | None => None
           end
  end.

(** The longest run of decimal digits at the head of a text. *)
Fixpoint scan_digits (s : text) : Decimal.uint * text :=
  match s with
  | c :: r =>
      let next (d : Decimal.uint -> Decimal.uint) :=
        let '(u, r') := scan_digits r in (d u, r') in
      match c with
      | "0" => next D0 | "1" => next D1 | "2" => next D2 | "3" => next D3
      | "4" => next D4 | "5" => next D5 | "6" => next D6 | "7" => next D7
      | "8" => next D8 | "9" => next D9
      | _ => (Nil, s)
      end
  | [] => (Nil, [])
  end.

(** The digits after the point, if any; a point without a digit is a
    syntax error. *)
Definition parse_frac (s : text) : option (Decimal.uint * text) :=
  match s with
  | "." :: r =>
      let '(f, r') := scan_digits r in
      match f with
      | Nil => None
      | _ => Some (f, r')
      end
  | _ => Some (Nil, s)
  end.

Definition has_exponent (s : text) : bool :=
  match s with
  | "e" :: _ | "E" :: _ => true
  | _ => false
  end.

(** A number literal after its sign: int frac?, the integer part without a
    leading zero.  A literal with an exponent denotes a number outside the
    plain notation of the model and is refused. *)
Definition parse_unsigned (neg : bool) (s : text) : option (number * text) :=
  let '(d, r) := scan_digits s in
  if negb (Decimal.uint_beq (unorm d) d) then None
  else
    match parse_frac r with
    | Some (f, r') =>
        if has_exponent r' then None
        else Some (num_norm (mkNumber neg (N.of_uint d) f), r')
    | None => None
    end.

Definition parse_number (s : text) : option (number * text) :=
  match s with
  | "-" :: r => parse_unsigned true r
  | _ => parse_unsigned false s
  end.

Fixpoint expect (lit : text) (s : text) : option text :=
  match lit, s with
  | [], _ => Some s
  | a :: lit', b :: s' => if Ascii.eqb a b then expect lit' s' else None
  | _ :: _, [] => None
  end.

(** A later property of the same name replaces the value of the earlier
    one, in place. *)
Fixpoint set_field (k : string) (v : value) (fs : list (string * value))
  : list (string * value) :=
  match fs with
  | [] => [(k, v)]
  | (k', v') :: r =>
      if (k' =? k)%string then (k', v) :: r else (k', v') :: set_field k v r
  end.

Definition dedup (fs : list (string * value)) : list (string * value) :=
  fold_left (fun acc kv => set_field (fst kv) (snd kv) acc) fs [].

(** Whether a text starts with a given character. *)
Definition peek (c : ascii) (s : text) : bool :=
  match s with
  | x :: _ => Ascii.eqb x c
  | [] => false
  end.

Fixpoint parse_value (fuel : nat) (s : text) : option (value * text) :=
  match fuel with
  | O => None
  | S fuel' =>
      match skip_ws s with
      | [] => None
      | ("n" :: _) as s' =>
          match expect ["n"; "u"; "l"; "l"] s' with
          | Some r => Some (VNull, r) | None => None end
      | ("t" :: _) as s' =>
          match expect ["t"; "r"; "u"; "e"] s' with
          | Some r => Some (VBool true, r) | None => None end
      | ("f" :: _) as s' =>
          match expect ["f"; "a"; "l"; "s"; "e"] s' with
          | Some r => Some (VBool false, r) | None => None end
      | "034" :: r =>
          match parse_string r with
          | Some (t, r') => Some (VStr t, r') | None => None end
      | "[" :: r =>
          if peek "]" (skip_ws r) then Some (VArr [], tl (skip_ws r))
          else
            match parse_elements fuel' r with
            | Some (l, r') => Some (VArr l, r') | None => None end
      | "{" :: r =>
          if peek "}" (skip_ws r) then Some (VObj [], tl (skip_ws r))
          else
            match parse_members fuel' r with
            | Some (fs, r') => Some (VObj (dedup fs), r') | None => None end
      | s' =>
          match parse_number s' with
          | Some (n, r) => Some (VNum n, r) | None => None end
      end
  end

with parse_elements (fuel : nat) (s : text) : option (list value * text) :=
  match fuel with
  | O => None
  | S fuel' =>
      match parse_value fuel' s with
      | Some (v, r) =>
          match skip_ws r with
          | "," :: r1 =>
              match parse_elements fuel' r1 with
              | Some (l, r') => Some (v :: l, r') | None => None end
          | "]" :: r1 => Some ([v], r1)
          | _ => None
          end
      | None => None
      end
  end

with parse_members (fuel : nat) (s : text)
  : option (list (string * value) * text) :=
  match fuel with
  | O => None
  | S fuel' =>
      match skip_ws s with
      | "034" :: r0 =>
          match parse_string r0 with
          | Some (k, r) =>
              match skip_ws r with
              | ":" :: r1 =>
                  match parse_value fuel' r1 with
                  | Some (v, r2) =>
                      match skip_ws r2 with
                      | "," :: r3 =>
                          match parse_members fuel' r3 with
                          | Some (fs, r') => Some ((k, v) :: fs, r')
                          | None => None
                          end
                      | "}" :: r3 => Some ([(k, v)], r3)
                      | _ => None
                      end
                  | None => None
                  end
              | _ => None
              end
          | None => None
          end
      | _ => None
      end
  end.

(** [JSON.parse]: one value, with white space around it and nothing else. *)
Definition parse_text (s : text) : option value :=
  match parse_value (S (List.length s)) s with
  | Some (v, r) => match skip_ws r with [] => Some v | _ => None end
  | None => None
  end.

Definition ref_stringify (v : value) : string :=
  string_of_list_ascii (print 0 v).

Definition ref_parse (s : string) : option value :=
  parse_text (list_ascii_of_string s).

(** ** Parsing what was printed gives the value back *)

#[local] Open Scope nat_scope.

Lemma skip_ws_spaces n s : skip_ws (repeat " " n ++ s) = skip_ws s.
Proof. induction n; simpl; auto. Qed.

Lemma skip_ws_newline k s : skip_ws (newline k ++ s) = skip_ws s.
Proof. unfold newline, indent. simpl. apply skip_ws_spaces. Qed.

Lemma skip_ws_idem s : skip_ws (skip_ws s) = skip_ws s.
Proof.
  induction s as [|c r IH]; simpl; auto.
  destruct (is_ws c) eqn:E; auto. simpl. rewrite E. reflexivity.
Qed.

Lemma list_ascii_of_string_app (a b : string) :
  list_ascii_of_string (a ++ b) = list_ascii_of_string a ++ list_ascii_of_string b.
Proof. induction a; simpl; congruence. Qed.

(** *** Strings *)
Lemma parse_string_char (c : ascii) (s : text) :
  parse_string (escape_char c ++ s)
  = match parse_string s with
    | Some (t, r) => Some (String c t, r)
    | None => None
    end.
Proof.
  destruct c as [[] [] [] [] [] [] [] []];
    match goal with
    | |- context [escape_char ?c] =>
        let e := eval vm_compute in (escape_char c) in
        change (escape_char c) with e
    end;
    cbn [List.app]; simpl; reflexivity.
Qed.

Lemma parse_string_escape (s : string) (rest : text) :
  parse_string (escape s ++ "034" :: rest) = Some (s, rest).
Proof.
  induction s as [|c r IH]; [reflexivity|].
  cbn [escape]. rewrite <- List.app_assoc, parse_string_char, IH. reflexivity.
Qed.

(** *** Numbers *)
Definition chars (d : Decimal.uint) : text :=
  list_ascii_of_string (NilEmpty.string_of_uint d).

Definition number_end (rest : text) : bool :=
  match rest with
  | [] => true
  | c :: _ =>
      match c with
      | "0" | "1" | "2" | "3" | "4" | "5" | "6" | "7" | "8" | "9"
      | "." | "e" | "E" => false
      | _ => true
      end
  end.

Lemma scan_digits_end (rest : text) :
  number_end rest = true -> scan_digits rest = (Nil, rest).
Proof.
  destruct rest as [|c r]; [reflexivity|].
  destruct c as [[] [] [] [] [] [] [] []]; simpl; intros H;
    try discriminate H; reflexivity.
Qed.

Lemma scan_digits_chars (d : Decimal.uint) (rest : text) :
  scan_digits rest = (Nil, rest) ->
  scan_digits (chars d ++ rest) = (d, rest).
Proof.
  intros H. unfold chars.
  induction d; simpl; rewrite ?IHd; auto.
Qed.

Lemma strip_sign_digits (d : Decimal.uint) (x : text) :
  d <> Nil ->
  match chars d ++ x with
  | "-" :: r => (true, r)
  | _ => (false, chars d ++ x)
  end = (false, chars d ++ x).
Proof. destruct d; intros H; try reflexivity. contradiction. Qed.

Lemma to_uint_normal (i : N) : unorm (N.to_uint i) = N.to_uint i.
Proof.
  rewrite <- (DecimalN.Unsigned.of_to i) at 2.
  rewrite DecimalN.Unsigned.to_of. reflexivity.
Qed.

Lemma to_uint_nonnil (i : N) : N.to_uint i <> Nil.
Proof. rewrite <- to_uint_normal. apply unorm_nonnil. Qed.

Lemma frac_text (f : Decimal.uint) (rest : text) :
  f <> Nil ->
  list_ascii_of_string
    (frac_to_string f)
    ++ rest
  = "." :: chars f ++ rest.
Proof. destruct f; intros H; try reflexivity. contradiction. Qed.

Lemma number_end_cases (rest : text) :
  number_end rest = true ->
  has_exponent rest = false /\ parse_frac rest = Some (Nil, rest).
Proof.
  destruct rest as [|c r]; [split; reflexivity|].
  destruct c as [[] [] [] [] [] [] [] []]; simpl; intros H;
    try discriminate H; split; reflexivity.
Qed.

Lemma parse_frac_print (f : Decimal.uint) (rest : text) :
  number_end rest = true ->
  parse_frac
    (list_ascii_of_string
       (frac_to_string f)
     ++ rest)
  = Some (f, rest).
Proof.
  intros Hend.
  destruct (uint_eq_dec f Nil) as [->|Hf].
  - apply (number_end_cases rest Hend).
  - rewrite (frac_text f rest Hf). cbn [parse_frac].
    rewrite (scan_digits_chars _ rest (scan_digits_end _ Hend)).
    destruct f; try reflexivity. contradiction.
Qed.

Lemma parse_unsigned_print (neg : bool) (i : N) (f : Decimal.uint) (rest : text) :
  number_end rest = true ->
  parse_unsigned neg
    (chars (N.to_uint i) ++
     list_ascii_of_string
       (frac_to_string f)
     ++ rest)
  = Some (num_norm (mkNumber neg i f), rest).
Proof.
  intros Hend. unfold parse_unsigned.
  rewrite scan_digits_chars.
  - rewrite to_uint_normal, (internal_uint_dec_lb _ _ eq_refl). cbn [negb].
    rewrite (parse_frac_print f rest Hend).
    rewrite (proj1 (number_end_cases rest Hend)).
    rewrite DecimalN.Unsigned.of_to. reflexivity.
  - destruct f; try reflexivity. apply scan_digits_end, Hend.
Qed.

Lemma parse_number_print (n : number) (rest : text) :
  num_wf n -> number_end rest = true ->
  parse_number (print_number n ++ rest) = Some (n, rest).
Proof.
  intros Hwf Hend.
  destruct n as [neg i f]. unfold num_wf in Hwf.
  unfold print_number, number_to_string. cbn [nneg nint nfrac].
  rewrite !list_ascii_of_string_app.
  fold (chars (N.to_uint i)).
  rewrite <- !List.app_assoc.
  destruct neg.
  - change (list_ascii_of_string "-") with ["-"]. cbn [List.app].
    change (parse_number ("-" :: ?x)) with (parse_unsigned true x).

    rewrite (parse_unsigned_print true i f rest Hend), Hwf. reflexivity.
  - change (list_ascii_of_string "") with (@nil ascii). cbn [List.app].
    pose proof (parse_unsigned_print false i f rest Hend) as H.
    pose proof (to_uint_nonnil i) as Hn.
    unfold parse_number.
    destruct (N.to_uint i); try contradiction;
      cbn [chars NilEmpty.string_of_uint list_ascii_of_string List.app] in *;
      rewrite H, Hwf; reflexivity.
Qed.

(** *** Values *)

Fixpoint size (v : value) : nat :=
  match v with
  | VArr l => S (list_sum (map (fun x => S (size x)) l))
  | VObj fs => S (list_sum (map (fun kv => S (size (snd kv))) fs))
  | _ => 1
  end.

Lemma wf_arr (l : list value) : wf_value (VArr l) <-> Forall wf_value l.
Proof.
  induction l as [|x r IH]; simpl.
  - split; auto.
  - split.
    + intros [Hx Hr]. constructor; [exact Hx | apply IH, Hr].
    + intros H. inversion H; subst. split; [assumption | apply IH; assumption].
Qed.

Lemma wf_obj (fs : list (string * value)) :
  wf_value (VObj fs) <->
  NoDup (map fst fs) /\ Forall (fun kv => wf_value (snd kv)) fs.
Proof.
  simpl. apply and_iff_compat_l.
  induction fs as [|kv r IH]; simpl.
  - split; auto.
  - split.
    + intros [Hx Hr]. constructor; [exact Hx | apply IH, Hr].
    + intros H. inversion H; subst. split; [assumption | apply IH; assumption].
Qed.

Definition value_start (c : ascii) : bool :=
  match c with
  | "n" | "t" | "f" | "034" | "[" | "{" | "-"
  | "0" | "1" | "2" | "3" | "4" | "5" | "6" | "7" | "8" | "9" => true
  | _ => false
  end.

Definition num_start (c : ascii) : bool :=
  match c with
  | "-" | "0" | "1" | "2" | "3" | "4" | "5" | "6" | "7" | "8" | "9" => true
  | _ => false
  end.

Lemma print_number_head (n : number) :
  exists c r, print_number n = c :: r /\ num_start c = true.
Proof.
  destruct n as [neg i f]. unfold print_number, number_to_string.
  cbn [nneg nint nfrac]. rewrite !list_ascii_of_string_app.
  destruct neg.
  - eexists _, _. split; reflexivity.
  - pose proof (to_uint_nonnil i) as Hn.
    change (list_ascii_of_string "") with (@nil ascii). cbn [List.app].
    destruct (N.to_uint i); try contradiction;
      eexists _, _; split; reflexivity.
Qed.

Lemma num_start_value_start c : num_start c = true -> value_start c = true.
Proof.
  destruct c as [[] [] [] [] [] [] [] []]; simpl; intros H;
    try discriminate H; reflexivity.
Qed.

Lemma print_head (k : nat) (v : value) :
  exists c r, print k v = c :: r /\ value_start c = true.
Proof.
  destruct v as [ | [] | n | s | [|x l] | [|kv fs]];
    try (eexists _, _; split; reflexivity).
  destruct (print_number_head n) as (c & r & E & H).
  exists c, r. split; [exact E | apply num_start_value_start, H].
Qed.

Lemma value_start_facts (c : ascii) :
  value_start c = true ->
  is_ws c = false /\ Ascii.eqb c "]" = false /\ Ascii.eqb c "}" = false.
Proof.
  destruct c as [[] [] [] [] [] [] [] []]; simpl; intros H;
    try discriminate H; repeat split; reflexivity.
Qed.

Lemma skip_ws_print (k : nat) (v : value) (rest : text) :
  skip_ws (print k v ++ rest) = print k v ++ rest.
Proof.
  destruct (print_head k v) as (c & r & E & H). rewrite E.
  destruct (value_start_facts c H) as (Hw & _ & _).
  simpl. rewrite Hw. reflexivity.
Qed.

Lemma peek_print (k : nat) (v : value) (rest : text) :
  peek "]" (print k v ++ rest) = false /\ peek "}" (print k v ++ rest) = false.
Proof.
  destruct (print_head k v) as (c & r & E & H). rewrite E.
  destruct (value_start_facts c H) as (_ & H1 & H2).
  simpl. auto.
Qed.

Lemma parse_value_ws (fuel : nat) (s : text) :
  parse_value fuel (skip_ws s) = parse_value fuel s.
Proof. destruct fuel; [reflexivity|]. cbn [parse_value]. rewrite skip_ws_idem. reflexivity. Qed.

Lemma parse_elements_ws (fuel : nat) (s : text) :
  parse_elements fuel (skip_ws s) = parse_elements fuel s.
Proof. destruct fuel; [reflexivity|]. cbn [parse_elements]. rewrite parse_value_ws. reflexivity. Qed.

Lemma parse_members_ws (fuel : nat) (s : text) :
  parse_members fuel (skip_ws s) = parse_members fuel s.
Proof. destruct fuel; [reflexivity|]. cbn [parse_members]. rewrite skip_ws_idem. reflexivity. Qed.

Lemma parse_value_newline k fuel s : parse_value fuel (newline k ++ s) = parse_value fuel s.
Proof. rewrite <- parse_value_ws, skip_ws_newline, parse_value_ws. reflexivity. Qed.

Lemma parse_elements_newline k fuel s :
  parse_elements fuel (newline k ++ s) = parse_elements fuel s.
Proof. rewrite <- parse_elements_ws, skip_ws_newline, parse_elements_ws. reflexivity. Qed.

Lemma parse_members_newline k fuel s :
  parse_members fuel (newline k ++ s) = parse_members fuel s.
Proof. rewrite <- parse_members_ws, skip_ws_newline, parse_members_ws. reflexivity. Qed.

Lemma parse_value_number (fuel : nat) (c : ascii) (r : text) :
  num_start c = true ->
  parse_value (S fuel) (c :: r)
  = match parse_number (c :: r) with
    | Some (n, r') => Some (VNum n, r')
    | None => None
    end.
Proof.
  destruct c as [[] [] [] [] [] [] [] []]; simpl num_start; intros H;
    try discriminate H; reflexivity.
Qed.

Lemma set_field_fresh (k : string) (v : value) (fs : list (string * value)) :
  ~ In k (map fst fs) -> set_field k v fs = fs ++ [(k, v)].
Proof.
  induction fs as [|[k' v'] r IH]; simpl; intros H; [reflexivity|].
  destruct (String.eqb_spec k' k) as [->|Hne].
  - exfalso. apply H. left. reflexivity.
  - rewrite IH; [reflexivity|]. intros Hin. apply H. right. exact Hin.
Qed.

Lemma dedup_acc (fs acc : list (string * value)) :
  NoDup (map fst (acc ++ fs)) ->
  fold_left (fun a kv => set_field (fst kv) (snd kv) a) fs acc = acc ++ fs.
Proof.
  revert acc. induction fs as [|[k v] r IH]; intros acc H; simpl.
  - rewrite List.app_nil_r. reflexivity.
  - rewrite set_field_fresh.
    + rewrite IH; rewrite <- List.app_assoc; [reflexivity | exact H].
    + rewrite map_app in H. simpl in H.
      apply NoDup_remove_2 in H. intros Hin. apply H.
      apply in_or_app. left. exact Hin.
Qed.

Lemma dedup_nodup (fs : list (string * value)) :
  NoDup (map fst fs) -> dedup fs = fs.
Proof. intros H. unfold dedup. rewrite dedup_acc; [reflexivity | exact H]. Qed.

Definition member (k : nat) (kv : string * value) : text :=
  quote (fst kv) ++ ":" :: " " :: print k (snd kv).

Definition roundtrips (v : value) : Prop :=
  wf_value v ->
  forall (k fuel : nat) (rest : text),
    (size v <= fuel)%nat -> number_end rest = true ->
    parse_value fuel (print k v ++ rest) = Some (v, rest).

Lemma skip_ws_nonws (c : ascii) (s : text) :
  is_ws c = false -> skip_ws (c :: s) = c :: s.
Proof. intros H. simpl. rewrite H. reflexivity. Qed.

Lemma parse_elements_lines (l : list value) :
  Forall roundtrips l -> Forall wf_value l -> l <> [] ->
  forall (k k' fuel : nat) (rest : text),
    (list_sum (map (fun x => S (size x)) l) <= fuel)%nat ->
    parse_elements fuel
      (lines k (map (print k) l) ++ newline k' ++ "]" :: rest)
    = Some (l, rest).
Proof.
  induction l as [|x l IH]; intros HP Hwf Hne k k' fuel rest Hfuel;
    [contradiction|].
  inversion HP as [|? ? HPx HPl]; subst.
  inversion Hwf as [|? ? Hwx Hwl]; subst.
  destruct fuel as [|fuel]; [simpl in Hfuel; lia|].
  cbn [map list_sum fold_right] in Hfuel.
  destruct l as [|y l].
  - cbn [map lines parse_elements]. cbn [map list_sum fold_right] in Hfuel.
    rewrite (HPx Hwx); [|lia|reflexivity].
    rewrite skip_ws_newline. reflexivity.
  - change (lines k (map (print k) (x :: y :: l)))
      with (print k x ++ "," :: newline k ++ lines k (map (print k) (y :: l))).
    rewrite <- List.app_assoc. cbn [parse_elements].
    rewrite (HPx Hwx); [|lia|reflexivity].
    cbn [List.app]. rewrite (skip_ws_nonws "," _ eq_refl). cbv beta iota.
    rewrite <- List.app_assoc, parse_elements_newline.
    rewrite (IH HPl Hwl); [reflexivity|discriminate|].
    cbn [map list_sum fold_right] in *. lia.
Qed.

Lemma parse_value_space (fuel : nat) (s : text) :
  parse_value fuel (" " :: s) = parse_value fuel s.
Proof.
  rewrite <- parse_value_ws. change (skip_ws (" " :: s)) with (skip_ws s).
  apply parse_value_ws.
Qed.

Lemma parse_members_member (key : string) (x : value) (k fuel : nat) (tail : text) :
  roundtrips x -> wf_value x -> (size x <= fuel)%nat ->
  number_end tail = true ->
  parse_members (S fuel) (member k (key, x) ++ tail)
  = match skip_ws tail with
    | "," :: r3 =>
        match parse_members fuel r3 with
        | Some (fs, r') => Some ((key, x) :: fs, r')
        | None => None
        end
    | "}" :: r3 => Some ([(key, x)], r3)
    | _ => None
    end.
Proof.
  intros HPx Hwx Hfuel Htail. unfold member, quote. cbn [fst snd].
  cbn [List.app]. rewrite <- !List.app_assoc. cbn [List.app].
  cbn [parse_members]. rewrite (skip_ws_nonws "034" _ eq_refl). cbv beta iota.
  rewrite parse_string_escape.
  rewrite (skip_ws_nonws ":" _ eq_refl). cbv beta iota.
  rewrite parse_value_space, (HPx Hwx); [reflexivity|exact Hfuel|exact Htail].
Qed.

Lemma parse_members_lines (fs : list (string * value)) :
  Forall (fun kv => roundtrips (snd kv)) fs ->
  Forall (fun kv => wf_value (snd kv)) fs -> fs <> [] ->
  forall (k k' fuel : nat) (rest : text),
    (list_sum (map (fun kv => S (size (snd kv))) fs) <= fuel)%nat ->
    parse_members fuel
      (lines k (map (member k) fs) ++ newline k' ++ "}" :: rest)
    = Some (fs, rest).
Proof.
  induction fs as [|[key x] fs IH]; intros HP Hwf Hne k k' fuel rest Hfuel;
    [contradiction|].
  inversion HP as [|? ? HPx HPl]; subst.
  inversion Hwf as [|? ? Hwx Hwl]; subst.
  cbn [snd] in HPx, Hwx.
  destruct fuel as [|fuel]; [simpl in Hfuel; lia|].
  cbn [map list_sum fold_right snd] in Hfuel.
  destruct fs as [|kv fs].
  - cbn [map lines]. cbn [map list_sum fold_right] in Hfuel.
    rewrite (parse_members_member key x k fuel _ HPx Hwx); [|lia|reflexivity].
    rewrite skip_ws_newline. reflexivity.
  - change (lines k (map (member k) ((key, x) :: kv :: fs)))
      with (member k (key, x) ++ "," :: newline k ++ lines k (map (member k) (kv :: fs))).
    rewrite <- List.app_assoc.
    rewrite (parse_members_member key x k fuel _ HPx Hwx); [|lia|reflexivity].
    cbn [List.app]. rewrite (skip_ws_nonws "," _ eq_refl). cbv beta iota.
    rewrite <- List.app_assoc, parse_members_newline.
    rewrite (IH HPl Hwl); [reflexivity|discriminate|].
    cbn [map list_sum fold_right] in *. lia.
Qed.

Lemma peek_lines (l : list value) (k : nat) (tail : text) :
  l <> [] ->
  peek "]" (skip_ws (lines k (map (print k) l) ++ tail)) = false.
Proof.
  destruct l as [|x [|y l]]; intros H; [contradiction| |].
  - cbn [map lines]. rewrite skip_ws_print. apply peek_print.
  - change (lines k (map (print k) (x :: y :: l)))
      with (print k x ++ "," :: newline k ++ lines k (map (print k) (y :: l))).
    rewrite <- List.app_assoc, skip_ws_print. apply peek_print.
Qed.

Theorem parse_print (v : value) : roundtrips v.
Proof.
  induction v as [ | b | n | s | l IHl | fs IHfs] using value_ind';
    intros Hwf k fuel rest Hfuel Hend;
    (destruct fuel as [|fuel]; [simpl in Hfuel; lia|]).
  - reflexivity.
  - destruct b; reflexivity.
  - cbn [print].
    destruct (print_number_head n) as (c & r & E & Hc).
    pose proof (parse_number_print n rest Hwf Hend) as Hn.
    rewrite E in *. cbn [List.app] in *.
    rewrite (parse_value_number fuel c _ Hc), Hn. reflexivity.
  - cbn [print]. unfold quote. cbn [List.app]. rewrite <- List.app_assoc.
    cbn [List.app parse_value]. rewrite (skip_ws_nonws "034" _ eq_refl). cbv beta iota.
    rewrite parse_string_escape. reflexivity.
  - destruct l as [|x l]; [reflexivity|].
    apply wf_arr in Hwf.
    change (print k (VArr (x :: l)))
      with ("[" :: newline (S k) ++ lines (S k) (map (print (S k)) (x :: l))
                ++ newline k ++ ["]"]).
    cbn [List.app parse_value]. rewrite (skip_ws_nonws "[" _ eq_refl). cbv beta iota.
    rewrite <- !List.app_assoc. rewrite skip_ws_newline.
    rewrite (peek_lines (x :: l)); [|discriminate].
    rewrite parse_elements_newline.
    cbn [List.app].
    rewrite (parse_elements_lines (x :: l) IHl Hwf); [reflexivity|discriminate|].
    cbn [size] in Hfuel. lia.
  - destruct fs as [|kv fs]; [reflexivity|].
    apply wf_obj in Hwf. destruct Hwf as [Hnd Hwf].
    change (print k (VObj (kv :: fs)))
      with ("{" :: newline (S k) ++ lines (S k) (map (member (S k)) (kv :: fs))
                ++ newline k ++ ["}"]).
    cbn [List.app parse_value]. rewrite (skip_ws_nonws "{" _ eq_refl). cbv beta iota.
    rewrite <- !List.app_assoc. rewrite skip_ws_newline.
    assert (Hpk : peek "}" (skip_ws (lines (S k) (map (member (S k)) (kv :: fs))
                                     ++ newline k ++ ["}"] ++ rest)) = false).
    { destruct fs; reflexivity. }
    rewrite Hpk.
    rewrite parse_members_newline.
    cbn [List.app].
    rewrite (parse_members_lines (kv :: fs) IHfs Hwf); [|discriminate|].
    + rewrite (dedup_nodup _ Hnd). reflexivity.
    + cbn [size] in Hfuel. lia.
Qed.

Lemma list_sum_le {A} (f g : A -> nat) (l : list A) :
  Forall (fun x => f x <= g x)%nat l ->
  (list_sum (map f l) <= list_sum (map g l))%nat.
Proof.
  induction 1 as [|x l Hx Hl IH]; unfold list_sum in *;
    cbn [map fold_right] in *; cbv beta in *; lia.
Qed.

Lemma lines_length (k : nat) (items : list text) :
  (list_sum (map (fun t => S (List.length t)) items)
   <= S (List.length (lines k items)))%nat.
Proof.
  induction items as [|x r IH]; [simpl; lia|].
  destruct r as [|y r].
  - simpl. lia.
  - change (lines k (x :: y :: r)) with (x ++ "," :: newline k ++ lines k (y :: r)).
    rewrite List.length_app. cbn [List.length]. rewrite List.length_app.
    cbn [map list_sum fold_right] in *. lia.
Qed.

Lemma size_le_print (v : value) : forall k, (size v <= List.length (print k v))%nat.
Proof.
  induction v as [ | b | n | s | l IHl | fs IHfs] using value_ind'; intros k.
  - simpl. lia.
  - destruct b; simpl; lia.
  - cbn [print size]. destruct (print_number_head n) as (c & r & E & _).
    rewrite E. simpl. lia.
  - cbn [print size]. unfold quote. simpl. lia.
  - destruct l as [|x l]; [simpl; lia|].
    change (print k (VArr (x :: l)))
      with ("[" :: newline (S k) ++ lines (S k) (map (print (S k)) (x :: l))
                ++ newline k ++ ["]"]).
    cbn [size List.length]. rewrite !List.length_app.
    pose proof (lines_length (S k) (map (print (S k)) (x :: l))) as H1.
    rewrite map_map in H1.
    assert (H2 : (list_sum (map (fun y => S (size y)) (x :: l))
                  <= list_sum (map (fun y => S (List.length (print (S k) y))) (x :: l)))%nat).
    { apply list_sum_le. eapply Forall_impl; [|exact IHl].
      intros a Ha. cbv beta. specialize (Ha (S k)). lia. }
    cbn [List.length]. lia.
  - destruct fs as [|kv fs]; [simpl; lia|].
    change (print k (VObj (kv :: fs)))
      with ("{" :: newline (S k) ++ lines (S k) (map (member (S k)) (kv :: fs))
                ++ newline k ++ ["}"]).
    cbn [size List.length]. rewrite !List.length_app.
    pose proof (lines_length (S k) (map (member (S k)) (kv :: fs))) as H1.
    rewrite map_map in H1.
    assert (H2 : (list_sum (map (fun y => S (size (snd y))) (kv :: fs))
                  <= list_sum (map (fun y => S (List.length (member (S k) y))) (kv :: fs)))%nat).
    { apply list_sum_le. eapply Forall_impl; [|exact IHfs].
      intros a Ha. cbv beta in *. specialize (Ha (S k)).
      unfold member. rewrite List.length_app. cbn [List.length]. lia. }
    cbn [List.length]. lia.
Qed.

Theorem ref_parse_stringify (v : value) :
  wf_value v -> ref_parse (ref_stringify v) = Some v.
Proof.
  intros Hwf. unfold ref_parse, ref_stringify, parse_text.
  rewrite list_ascii_of_string_of_list_ascii.
  rewrite <- (List.app_nil_r (print 0 v)) at 2.
  rewrite (parse_print v Hwf); [reflexivity| |reflexivity].
  pose proof (size_le_print v 0). lia.
Qed.

#[export] Instance reference_codec : Codec := {|
  stringify := ref_stringify;
  parse := ref_parse;
  parse_stringify := ref_parse_stringify
|}.

End JSON.

(* ===================================================================== *)
(** * The record store of the menu collection *)
(* ===================================================================== *)

Module Store.
Import JS JSON.

(** ** Process state: cache, locks and the files *)

(** The object [cache] of [server.js]. *)
Record cache_t : Type := mkCache {
  menuData : value;            (* [null] or the array last loaded *)
  settings : value;
  menuDataTimestamp : Z;
  settingsTimestamp : Z;
  CACHE_TTL : Z;
  maxId : option Z;            (* [None] is [null] *)
  maxIdTimestamp : Z
}.

(** The object [fileLocks]. *)
Record locks_t : Type := mkLocks {
  lock_menuData : bool;
  lock_settings : bool
}.

(** The four files the server touches; [None] when a file does not exist. *)
Record disk_t : Type := mkDisk {
  DATA_FILE : option string;
  DATA_TMP : option string;          (* [DATA_FILE + ".tmp"] *)
  SETTINGS_FILE : option string;
  SETTINGS_TMP : option string
}.

Record state : Type := mkState {
  cache : cache_t;
  fileLocks : locks_t;
  disk : disk_t
}.

Definition with_cache (f : cache_t -> cache_t) (s : state) : state :=
  mkState (f (cache s)) (fileLocks s) (disk s).
Definition with_locks (f : locks_t -> locks_t) (s : state) : state :=
  mkState (cache s) (f (fileLocks s)) (disk s).
Definition with_disk (f : disk_t -> disk_t) (s : state) : state :=
  mkState (cache s) (fileLocks s) (f (disk s)).

Definition set_menuData (v : value) (t : Z) (c : cache_t) : cache_t :=
  mkCache v (settings c) t (settingsTimestamp c) (CACHE_TTL c)
          (maxId c) (maxIdTimestamp c).
Definition set_maxId (m : Z) (t : Z) (c : cache_t) : cache_t :=
  mkCache (menuData c) (settings c) (menuDataTimestamp c) (settingsTimestamp c)
          (CACHE_TTL c) (Some m) t.
Definition set_settings (v : value) (t : Z) (c : cache_t) : cache_t :=
  mkCache (menuData c) v (menuDataTimestamp c) t (CACHE_TTL c)
          (maxId c) (maxIdTimestamp c).

(** The keys of [fileLocks]. *)
Inductive file_type : Type := F_menuData | F_settings.

(** [fileLocks[fileType]]. *)
Definition locked (fileType : file_type) (l : locks_t) : bool :=
  match fileType with
  | F_menuData => lock_menuData l
  | F_settings => lock_settings l
  end.

(** [fileLocks[fileType] = b]. *)
Definition set_lock (fileType : file_type) (b : bool) (l : locks_t) : locks_t :=
  match fileType with
  | F_menuData => mkLocks b (lock_settings l)
  | F_settings => mkLocks (lock_menuData l) b
  end.

Definition set_DATA_TMP (f : option string) (d : disk_t) : disk_t :=
  mkDisk (DATA_FILE d) f (SETTINGS_FILE d) (SETTINGS_TMP d).
(** [fs.rename(DATA_FILE + ".tmp", DATA_FILE)]. *)
Definition rename_data (d : disk_t) : disk_t :=
  mkDisk (DATA_TMP d) None (SETTINGS_FILE d) (SETTINGS_TMP d).
Definition set_SETTINGS_TMP (f : option string) (d : disk_t) : disk_t :=
  mkDisk (DATA_FILE d) (DATA_TMP d) (SETTINGS_FILE d) f.
Definition rename_settings (d : disk_t) : disk_t :=
  mkDisk (DATA_FILE d) (DATA_TMP d) (SETTINGS_TMP d) None.

(** ** The environment of a call

    What one attempt of a write meets: whether another write in flight holds
    the lock when the attempt polls it, whether [fs.writeFile], [fs.rename]
    and [fs.unlink] succeed, what a failed [fs.writeFile] leaves in the
    temporary file, and the clock read after a successful write. *)
Record attempt : Type := mkAttempt {
  lock_busy : bool;
  writeFile_ok : bool;
  torn : option string;
  rename_ok : bool;
  unlink_ok : bool;
  clock : Z
}.

(** The attempts of one write, by attempt number. *)
Definition write_env : Type := nat -> attempt.

(** What a read meets: the clock, the error code of [fs.readFile] when it
    fails on an existing file, and the environment of the write that creates
    a missing file. *)
Record read_env : Type := mkReadEnv {
  now : Z;
  readFile_error : option string;
  heal : write_env
}.

Section WithCodec.
Context {codec : Codec}.

(** ** [getMaxId] *)

(** One turn of the loop:
    [const id = parseInt(data[i].id) || 0; if (id > maxId) maxId = id]. *)
Definition getMaxId_step (acc : completion Z) (x : value) : completion Z :=
  m <- acc ;;
  idv <- get_prop (Some x) "id" ;;
  let id := parseInt_or_0 idv in
  Normal (if id >? m then id else m).

Definition getMaxId (data : value) : completion Z :=
  match data with
  | VArr l => fold_left getMaxId_step l (Normal 0)
  | _ => Normal 0
  end.

(** ** Locks *)

(** [acquireLock(fileType)]: the flag is taken unless it is set, in this
    process state or by a write in flight ([busy]). *)
Definition acquireLock (fileType : file_type) (busy : bool) (s : state)
  : bool * state :=
  if locked fileType (fileLocks s) || busy then (false, s)
  else (true, with_locks (set_lock fileType true) s).

(** [releaseLock(fileType)]. *)
Definition releaseLock (fileType : file_type) (s : state) : state :=
  with_locks (set_lock fileType false) s.

(** ** [writeMenuData] *)

(** The body of the [try] block, up to the cache update. *)
Definition write_body (data : value) (a : attempt) (s : state)
  : completion unit * state :=
  if negb (isArray data) then
    (Throw (PlainError "Menu data must be an array"), s)
  else if negb (writeFile_ok a) then
    (Throw (FsError "EIO"), with_disk (set_DATA_TMP (torn a)) s)
  else
    let s1 := with_disk (set_DATA_TMP (Some (stringify data))) s in
    if negb (rename_ok a) then (Throw (FsError "EIO"), s1)
    else
      let s2 := with_disk rename_data s1 in
      let s3 := with_cache (set_menuData VNull 0) s2 in
      match getMaxId data with
      | Throw e => (Throw e, s3)
      | Normal m => (Normal tt, with_cache (set_maxId m (clock a)) s3)
      end.

(** The [catch] block: best-effort removal of the temporary file, then the
    lock is released. *)
Definition write_cleanup (a : attempt) (s : state) : state :=
  let s1 := if unlink_ok a then with_disk (set_DATA_TMP None) s else s in
  releaseLock F_menuData s1.

(** The retry loop, with [left] attempts left and [i] the attempt number. *)
Fixpoint write_loop (left : nat) (i : nat) (data : value) (env : write_env)
         (s : state) : completion bool * state :=
  match left with
  | O => (Normal false, s)
  | S left' =>
      let a := env i in
      match acquireLock F_menuData (lock_busy a) s with
      | (false, s0) => write_loop left' (S i) data env s0
      | (true, s0) =>
          match write_body data a s0 with
          | (Normal _, s1) => (Normal true, releaseLock F_menuData s1)
          | (Throw _, s1) =>
              write_loop left' (S i) data env (write_cleanup a s1)
          end
      end
  end.

Definition maxRetries : nat := 5.

Definition writeMenuData (data : value) (env : write_env) (s : state)
  : completion bool * state :=
  write_loop maxRetries 0 data env s.

(** ** [readMenuData] *)

(** [fs.readFile(DATA_FILE, "utf8")]. *)
Definition readFile_data (e : read_env) (s : state) : completion string :=
  match DATA_FILE (disk s) with
  | None => Throw (FsError "ENOENT")
  | Some txt =>
      match readFile_error e with
      | Some code => Throw (FsError code)
      | None => Normal txt
      end
  end.

(** [JSON.parse(data)]. *)
Definition JSON_parse (txt : string) : completion value :=
  match parse txt with
  | Some v => Normal v
  | None => Throw SyntaxError
  end.

(** [error.code === "ENOENT"]. *)
Definition is_ENOENT (err : error) : bool :=
  match error_code err with
  | Some code => (code =? "ENOENT")%string
  | None => false
  end.

(** The result of a read: the value returned and whether that value is the
    very array object held in [cache.menuData] (a handler that mutates it
    then mutates the cache). *)
Record read_result : Type := mkRead {
  returned : completion value;
  aliased : bool
}.

(** The [catch] block of [readMenuData]. *)
Definition read_catch (err : error) (e : read_env) (s : state)
  : read_result * state :=
  if is_ENOENT err then
    let '(_, s1) := writeMenuData (VArr []) (heal e) s in
    (mkRead (Normal (VArr [])) false, s1)
  else if truthy (Some (menuData (cache s)))
  then (mkRead (Normal (menuData (cache s))) true, s)
  else (mkRead (Normal (VArr [])) false, s).

Definition cache_fresh (t : Z) (s : state) : bool :=
  truthy (Some (menuData (cache s))) &&
  (t - menuDataTimestamp (cache s) <? CACHE_TTL (cache s)).

Definition readMenuData (e : read_env) (s : state) : read_result * state :=
  if cache_fresh (now e) s then
    (mkRead (Normal (menuData (cache s))) true, s)
  else
    match readFile_data e s with
    | Throw err => read_catch err e s
    | Normal txt =>
        match JSON_parse txt with
        | Throw err => read_catch err e s
        | Normal parsed =>
            if negb (isArray parsed) then (mkRead (Normal (VArr [])) false, s)
            else
              let s1 := with_cache (set_menuData parsed (now e)) s in
              match getMaxId parsed with
              | Throw err => read_catch err e s1
              | Normal m =>
                  (mkRead (Normal parsed) true,
                   with_cache (set_maxId m (now e)) s1)
              end
        end
    end.

(** ** The menu handlers

    A handler answers with [res.status(..).json(..)] or hands an exception to
    the error middleware with [next(error)]. *)
Inductive reply : Type :=
| Json (status : Z) (body : value)
| Next (e : error).

(** What a handler meets: the environment of its read, the clock it reads
    itself, and the environment of its write. *)
Record handler_env : Type := mkHandlerEnv {
  h_read : read_env;
  h_now : Z;
  h_write : write_env
}.

(** The properties a handler copies from a request that [validateMenuItem]
    accepts, after [sanitizeString], [parseFloat] and the tag splitting. *)
Record item_fields : Type := mkFields {
  f_name : string;
  f_category : string;
  f_price : number;
  f_description : string;
  f_tags : list string
}.

(** The object literal [newItem] / [updatedItem]. *)
Definition item_literal (f : item_fields) (image : value) : list (string * value) :=
  [ ("name", VStr (f_name f));
    ("category", VStr (f_category f));
    ("price", VNum (f_price f));
    ("description", VStr (f_description f));
    ("tags", VArr (map VStr (f_tags f)));
    ("image", image) ].

(** The literal after the assignment of its [id] property. *)
Definition item_with_id (f : item_fields) (image : value) (id : Z) : value :=
  VObj (item_literal f image ++ [("id", VInt id)]).

(** [image ? String(image).trim() : null] of the create handler, for an
    image given as a string or not at all. *)
Definition create_image (image : option string) : value :=
  match image with
  | Some i => if truthy (Some (VStr i)) then VStr (trim i) else VNull
  | None => VNull
  end.

(** A mutation of the array a read returned ([push], [menuData[i] = ..])
    reaches [cache.menuData] when the two are the same object. *)
Definition mutate_read (r : read_result) (v : value) (s : state) : state :=
  if aliased r
  then with_cache (fun c => set_menuData v (menuDataTimestamp c) c) s
  else s.

(** The id computation of the create handler:
<<
   let maxId = cache.maxId;
   if (maxId === null || now - cache.maxIdTimestamp > cache.CACHE_TTL) {
     maxId = getMaxId(menuData);
     cache.maxId = maxId;  cache.maxIdTimestamp = now;
   }
>> *)
Definition current_maxId (menu : value) (t : Z) (s : state) : completion Z * state :=
  match maxId (cache s) with
  | Some m =>
      if t - maxIdTimestamp (cache s) >? CACHE_TTL (cache s) then
        match getMaxId menu with
        | Normal m' => (Normal m', with_cache (set_maxId m' t) s)
        | Throw err => (Throw err, s)
        end
      else (Normal m, s)
  | None =>
      match getMaxId menu with
      | Normal m' => (Normal m', with_cache (set_maxId m' t) s)
      | Throw err => (Throw err, s)
      end
  end.

(** [POST /api/menu], from [readMenuData] on: a request that
    [validateMenuItem] rejects is answered 400 before the store is read. *)
Definition create (f : item_fields) (image : option string)
           (e : handler_env) (s : state) : reply * state :=
  let '(r, s1) := readMenuData (h_read e) s in
  match returned r with
  | Throw err => (Next err, s1)
  | Normal menu =>
      match current_maxId menu (h_now e) s1 with
      | (Throw err, s2) => (Next err, s2)
      | (Normal m, s2) =>
          let newId := number_add m 1 in
          let newItem := item_with_id f (create_image image) newId in
          match menu with
          | VArr l =>
              let data := VArr (l ++ [newItem]) in
              let s3 := mutate_read r data s2 in
              match writeMenuData data (h_write e) s3 with
              | (Normal true, s4) =>
                  (Json 200 (VObj [("success", VBool true);
                                   ("item", newItem);
                                   ("message", VStr "Item added successfully")]),
                   s4)
              | (Normal false, s4) =>
                  (Json 500 (VObj [("success", VBool false);
                                   ("message", VStr "Failed to save item")]),
                   s4)
              | (Throw err, s4) => (Next err, s4)
              end
          | _ => (Next TypeError, s2)      (* [menuData.push] is not a function *)
          end
      end
  end.

(** [item.id === itemId] for each item in turn, as [find], [findIndex] and
    [filter] evaluate it; reading [id] of a [null] item throws. *)
Definition has_id (itemId : Z) (x : value) : completion bool :=
  idv <- get_prop (Some x) "id" ;;
  Normal (is_number idv (num_of_Z itemId)).

Fixpoint findIndex (itemId : Z) (l : list value) : completion (option nat) :=
  match l with
  | [] => Normal None
  | x :: r =>
      b <- has_id itemId x ;;
      if b then Normal (Some O)
      else
        i <- findIndex itemId r ;;
        Normal (match i with Some n => Some (S n) | None => None end)
  end.

(** [menuData.filter((item) => item.id !== itemId)]. *)
Fixpoint remove_id (itemId : Z) (l : list value) : completion (list value) :=
  match l with
  | [] => Normal []
  | x :: r =>
      b <- has_id itemId x ;;
      r' <- remove_id itemId r ;;
      Normal (if b then r' else x :: r')
  end.

Fixpoint replace_at (i : nat) (y : value) (l : list value) : list value :=
  match l, i with
  | [], _ => []
  | _ :: r, O => y :: r
  | x :: r, S i' => x :: replace_at i' y r
  end.

(** The image of an update: given in the request (a string or [null]), or
    left out. *)
Inductive image_arg : Type :=
| ImageGiven (image : option string)
| ImageOmitted.

(** [image !== undefined ? (image ? String(image).trim() : null)
                         : existingItem?.image || null]. *)
Definition update_image (a : image_arg) (existing : option value) : value :=
  match a with
  | ImageGiven image => create_image image
  | ImageOmitted =>
      match existing with
      | Some (VObj fs) =>
          match or_else (lookup "image" fs) (Some VNull) with
          | Some v => v
          | None => VNull
          end
      | _ => VNull
      end
  end.

(** [PUT /api/menu/:id], for a request whose item [validateMenuItem]
    accepts; a rejected one is answered 400 after the read. *)
Definition update (itemId : Z) (f : item_fields) (image : image_arg)
           (e : handler_env) (s : state) : reply * state :=
  if itemId <=? 0 then
    (Json 400 (VObj [("success", VBool false);
                     ("message", VStr "Invalid item ID")]), s)
  else
    let '(r, s1) := readMenuData (h_read e) s in
    match returned r with
    | Throw err => (Next err, s1)
    | Normal (VArr l) =>
        match findIndex itemId l with
        | Throw err => (Next err, s1)
        | Normal None =>
            (Json 404 (VObj [("success", VBool false);
                             ("message", VStr "Item not found")]), s1)
        | Normal (Some i) =>
            let updatedItem :=
              item_with_id f (update_image image (nth_error l i)) itemId in
            let data := VArr (replace_at i updatedItem l) in
            let s2 := mutate_read r data s1 in
            match writeMenuData data (h_write e) s2 with
            | (Normal true, s3) =>
                (Json 200 (VObj [("success", VBool true);
                                 ("item", updatedItem);
                                 ("message", VStr "Item updated successfully")]),
                 s3)
            | (Normal false, s3) =>
                (Json 500 (VObj [("success", VBool false);
                                 ("message", VStr "Failed to update item")]),
                 s3)
            | (Throw err, s3) => (Next err, s3)
            end
        end
    | Normal _ => (Next TypeError, s1)     (* [menuData.find] is not a function *)
    end.

(** [DELETE /api/menu/:id]. *)
Definition delete (itemId : Z) (e : handler_env) (s : state) : reply * state :=
  if itemId <=? 0 then
    (Json 400 (VObj [("success", VBool false);
                     ("message", VStr "Invalid item ID")]), s)
  else
    let '(r, s1) := readMenuData (h_read e) s in
    match returned r with
    | Throw err => (Next err, s1)
    | Normal (VArr l) =>
        match remove_id itemId l with
        | Throw err => (Next err, s1)
        | Normal filteredData =>
            if (List.length filteredData =? List.length l)%nat then
              (Json 404 (VObj [("success", VBool false);
                               ("message", VStr "Item not found")]), s1)
            else
              match writeMenuData (VArr filteredData) (h_write e) s1 with
              | (Normal true, s2) =>
                  (Json 200 (VObj [("success", VBool true);
                                   ("message", VStr "Item deleted successfully")]),
                   s2)
              | (Normal false, s2) =>
                  (Json 500 (VObj [("success", VBool false);
                                   ("message", VStr "Failed to delete item")]),
                   s2)
              | (Throw err, s2) => (Next err, s2)
              end
        end
    | Normal _ => (Next TypeError, s1)     (* [menuData.filter] is not a function *)
    end.

(** [GET /api/menu] and [GET /data.json]. *)
Definition listMenu (e : handler_env) (s : state) : reply * state :=
  let '(r, s1) := readMenuData (h_read e) s in
  match returned r with
  | Throw err => (Next err, s1)
  | Normal menu => (Json 200 menu, s1)
  end.

(** ** Runs of the menu service *)

Inductive op : Type :=
| Create (f : item_fields) (image : option string)
| Update (itemId : Z) (f : item_fields) (image : image_arg)
| Delete (itemId : Z)
| ListMenu.

Definition step (o : op) (e : handler_env) (s : state) : reply * state :=
  match o with
  | Create f image => create f image e s
  | Update itemId f image => update itemId f image e s
  | Delete itemId => delete itemId e s
  | ListMenu => listMenu e s
  end.

Fixpoint run (ops : list (op * handler_env)%type) (s : state)
  : list reply * state :=
  match ops with
  | [] => ([], s)
  | (o, e) :: rest =>
      let '(r, s1) := step o e s in
      let '(rs, s2) := run rest s1 in
      (r :: rs, s2)
  end.

(** The id in the answer of a create that was saved. *)
Definition created_id (r : reply) : option Z :=
  match r with
  | Json 200 body =>
      match get_prop (Some body) "item" with
      | Normal (Some item) =>
          match get_prop (Some item) "id" with
          | Normal idv => parseInt idv
          | Throw _ => None
          end
      | _ => None
      end
  | _ => None
  end.

(** The state of a process that has just started, over given files. *)
Definition initial (ttl : Z) (d : disk_t) : state :=
  mkState (mkCache VNull VNull 0 0 ttl None 0) (mkLocks false false) d.

Definition no_files : disk_t := mkDisk None None None None.

(** ** Vocabulary of the properties *)


(** [cache.menuData] is [null] or an array. *)
Definition cache_ok (s : state) : Prop :=
  menuData (cache s) = VNull \/ exists l, menuData (cache s) = VArr l.

(** [cache.menuData || []]. *)
Definition cached_or_empty (s : state) : value :=
  if truthy (Some (menuData (cache s))) then menuData (cache s) else VArr [].

(** The id [getMaxId] reads off an item. *)
Definition id_of (x : value) : Z :=
  match get_prop (Some x) "id" with
  | Normal idv => parseInt_or_0 idv
  | Throw _ => 0
  end.

(** The highest id of a collection, 0 if there is none. *)
Definition maxid (l : list value) : Z :=
  fold_left (fun m x => if id_of x >? m then id_of x else m) l 0.

(** An item whose [id] is missing or an integer that a number holds
    exactly: the ids that [create] assigns are of this kind. *)
Definition safe_id (x : value) : Prop :=
  exists idv,
    get_prop (Some x) "id" = Normal idv /\
    (idv = None \/
     exists z, idv = Some (VInt z) /\ Z.abs z <= MAX_SAFE_INTEGER).

(** A write during which no other write holds the lock and neither
    [fs.writeFile] nor [fs.rename] throws. *)
Definition steady_write (w : write_env) : Prop :=
  forall i, lock_busy (w i) = false /\ writeFile_ok (w i) = true /\
            rename_ok (w i) = true.

(** A read during which [fs.readFile] throws at most [ENOENT], and the write
    of the empty collection that follows a missing file is steady. *)
Definition steady_read (r : read_env) : Prop :=
  readFile_error r = None /\ steady_write (heal r).

(** A request handled without a file-system fault or a competing write. *)
Definition steady (e : handler_env) : Prop :=
  steady_read (h_read e) /\ steady_write (h_write e).

(** The collection the data file holds; a missing file is the empty
    collection. *)
Definition stored (s : state) : option value :=
  match DATA_FILE (disk s) with
  | Some txt => parse txt
  | None => Some (VArr [])
  end.

(** The cache, when filled, and the cached maximal id, when set, agree with
    the collection [l] the data file holds. *)
Record consistent (s : state) (l : list value) : Prop := {
  con_wf : Forall wf_value l;
  con_items : Forall (fun x => x <> VNull) l;
  con_file : DATA_FILE (disk s) = Some (stringify (VArr l)) \/
             (DATA_FILE (disk s) = None /\ l = []);
  con_cache : menuData (cache s) = VNull \/ menuData (cache s) = VArr l;
  con_maxId : maxId (cache s) = None \/ maxId (cache s) = Some (maxid l);
  con_lock : lock_menuData (fileLocks s) = false
}.

Definition wf_op (o : op) : Prop :=
  match o with
  | Create f _ | Update _ f _ => num_wf (f_price f)
  | Delete _ | ListMenu => True
  end.

(** The data file a process may start over: none, or the print of a
    well-formed array without [null] items. *)
Definition clean_disk (d : disk_t) : Prop :=
  DATA_FILE d = None \/
  exists l, Forall wf_value l /\ Forall (fun x => x <> VNull) l /\
            DATA_FILE d = Some (stringify (VArr l)).

(** The states of a process in which no file operation has failed. *)
Inductive reachable : state -> Prop :=
| reach_start (ttl : Z) (d : disk_t) :
    clean_disk d -> reachable (initial ttl d)
| reach_step (s : state) (o : op) (e : handler_env) :
    reachable s -> steady e -> wf_op o -> reachable (snd (step o e s)).

(** ** Properties *)

(** *** Failing writes *)


Lemma write_cleanup_frame (a : attempt) (s : state) :
  cache (write_cleanup a s) = cache s /\
  DATA_FILE (disk (write_cleanup a s)) = DATA_FILE (disk s).
Proof. unfold write_cleanup. destruct (unlink_ok a); split; reflexivity. Qed.


(** [getMaxId] throws only on an array that has a [null] element. *)
Lemma getMaxId_step_thrown (l : list value) (err : error) :
  fold_left getMaxId_step l (Throw err) = Throw err.
Proof. induction l as [|x l IH]; [reflexivity | exact IH]. Qed.








(** *** Successful writes *)

Lemma write_body_success (data : value) (a : attempt) (s s' : state) (u : unit) :
  write_body data a s = (Normal u, s') ->
  exists m,
    isArray data = true /\
    getMaxId data = Normal m /\
    s' = with_cache (set_maxId m (clock a))
           (with_cache (set_menuData VNull 0)
              (with_disk rename_data
                 (with_disk (set_DATA_TMP (Some (stringify data))) s))).
Proof.
  unfold write_body.
  destruct (isArray data); cbn [negb]; [|discriminate].
  destruct (writeFile_ok a); cbn [negb]; [|discriminate].
  destruct (rename_ok a); cbn [negb]; [|discriminate].
  destruct (getMaxId data) as [m|err]; [|discriminate].
  intros H. inversion H; subst. exists m. repeat split.
Qed.

Lemma write_loop_success (left : nat) :
  forall (i : nat) (data : value) (env : write_env) (s s' : state),
    write_loop left i data env s = (Normal true, s') ->
    exists m,
      isArray data = true /\
      getMaxId data = Normal m /\
      DATA_FILE (disk s') = Some (stringify data) /\
      menuData (cache s') = VNull /\
      maxId (cache s') = Some m /\
      lock_menuData (fileLocks s') = false.
Proof.
  induction left as [|left IH]; intros i data env s s' H.
  - discriminate H.
  - cbn [write_loop] in H. unfold acquireLock in H; cbn [locked] in H.
    destruct (lock_menuData (fileLocks s) || lock_busy (env i)).
    + apply (IH _ _ _ _ _ H).
    + destruct (write_body data (env i) (with_locks (set_lock F_menuData true) s))
        as [[u|err] s1] eqn:E.
      * injection H as <-.
        apply write_body_success in E. destruct E as (m & Ha & Hm & ->).
        exists m. repeat split; assumption.
      * apply (IH _ _ _ _ _ H).
Qed.

Lemma writeMenuData_total (data : value) (env : write_env) (s : state) :
  exists b, fst (writeMenuData data env s) = Normal b.
Proof.
  unfold writeMenuData. generalize 0%nat as i. revert s.
  induction maxRetries as [|left IH]; intros s i.
  - exists false. reflexivity.
  - cbn [write_loop]. unfold acquireLock; cbn [locked].
    destruct (lock_menuData (fileLocks s) || lock_busy (env i)).
    + apply IH.
    + destruct (write_body data (env i) _) as [[u|err] s1].
      * exists true. reflexivity.
      * apply IH.
Qed.

(** *** Reads *)

Lemma write_body_menuData (data : value) (a : attempt) (s : state) :
  menuData (cache (snd (write_body data a s))) = menuData (cache s) \/
  menuData (cache (snd (write_body data a s))) = VNull.
Proof.
  unfold write_body.
  destruct (isArray data); cbn [negb]; [|left; reflexivity].
  destruct (writeFile_ok a); cbn [negb]; [|left; reflexivity].
  destruct (rename_ok a); cbn [negb]; [|left; reflexivity].
  destruct (getMaxId data); right; reflexivity.
Qed.

Lemma write_loop_menuData (left : nat) :
  forall (i : nat) (data : value) (env : write_env) (s : state),
    menuData (cache (snd (write_loop left i data env s))) = menuData (cache s) \/
    menuData (cache (snd (write_loop left i data env s))) = VNull.
Proof.
  induction left as [|left IH]; intros i data env s; [left; reflexivity|].
  cbn [write_loop]. unfold acquireLock; cbn [locked].
  destruct (lock_menuData (fileLocks s) || lock_busy (env i)); [apply IH|].
  pose proof (write_body_menuData data (env i)
                (with_locks (set_lock F_menuData true) s)) as Hb.
  destruct (write_body data (env i) _) as [[u|err] s1]; cbn [snd] in *.
  - exact Hb.
  - destruct (IH (S i) data env (write_cleanup (env i) s1)) as [H|H].
    + rewrite H, (proj1 (write_cleanup_frame (env i) s1)). exact Hb.
    + right. exact H.
Qed.

Lemma writeMenuData_cache_ok (data : value) (env : write_env) (s : state) :
  cache_ok s -> cache_ok (snd (writeMenuData data env s)).
Proof.
  intros H. unfold cache_ok.
  destruct (write_loop_menuData maxRetries 0 data env s) as [E|E];
    unfold writeMenuData; rewrite E; [exact H | left; reflexivity].
Qed.

Lemma cache_ok_truthy (s : state) :
  cache_ok s -> truthy (Some (menuData (cache s))) = true ->
  exists l, menuData (cache s) = VArr l.
Proof.
  intros [H|H] Ht; [rewrite H in Ht; discriminate Ht | exact H].
Qed.

Lemma read_catch_array (err : error) (e : read_env) (s : state) :
  cache_ok s ->
  exists l,
    returned (fst (read_catch err e s)) = Normal (VArr l) /\
    cache_ok (snd (read_catch err e s)).
Proof.
  intros Hok. unfold read_catch.
  destruct (is_ENOENT err).
  - pose proof (writeMenuData_cache_ok (VArr []) (heal e) s Hok) as Hw.
    destruct (writeMenuData (VArr []) (heal e) s) as [b s1].
    exists []. split; [reflexivity | exact Hw].
  - destruct (truthy (Some (menuData (cache s)))) eqn:Ht.
    + destruct (cache_ok_truthy s Hok Ht) as [l Hl].
      exists l. cbn [fst snd returned]. rewrite Hl. split; [reflexivity|].
      right. exists l. exact Hl.
    + exists []. split; [reflexivity | exact Hok].
Qed.

Lemma readMenuData_array (e : read_env) (s : state) :
  cache_ok s ->
  exists l,
    returned (fst (readMenuData e s)) = Normal (VArr l) /\
    cache_ok (snd (readMenuData e s)).
Proof.
  intros Hok. unfold readMenuData.
  destruct (cache_fresh (now e) s) eqn:Hf.
  { unfold cache_fresh in Hf. apply andb_prop in Hf. destruct Hf as [Ht _].
    destruct (cache_ok_truthy s Hok Ht) as [l Hl].
    exists l. cbn [fst snd returned]. rewrite Hl. split; [reflexivity | exact Hok]. }
  destruct (readFile_data e s) as [txt|err]; [|apply read_catch_array, Hok].
  destruct (JSON_parse txt) as [parsed|err]; [|apply read_catch_array, Hok].
  destruct parsed as [ | b | n | str | l | fs]; cbn [isArray negb];
    try (exists []; split; [reflexivity | exact Hok]).
  assert (Hok1 : cache_ok (with_cache (set_menuData (VArr l) (now e)) s))
    by (right; exists l; reflexivity).
  destruct (getMaxId (VArr l)) as [m|err]; [|apply read_catch_array, Hok1].
  exists l. split; [reflexivity|]. right. exists l. reflexivity.
Qed.

(** C9. From a state whose [cache.menuData] is [null] or an array (every
    state of every run is one, see [run_cache_ok]), on every path and
    whatever the files hold and whatever fails, [readMenuData] returns an
    array: never [null], another value or an exception; and it leaves the
    cache in that shape. *)
Theorem readMenuData_returns_array (e : read_env) (s : state) :
  cache_ok s ->
  exists l,
    returned (fst (readMenuData e s)) = Normal (VArr l) /\
    cache_ok (snd (readMenuData e s)).
Proof. apply readMenuData_array. Qed.

(** C5, as amended. When the data file exists and is read without error:
    if its content does not parse, [readMenuData] returns the cached menu
    when there is one and an empty array otherwise; if it parses to a value
    that is not an array, [readMenuData] returns the cached menu only while
    the cache is fresh, and an empty array otherwise, whether or not an
    older cache exists.  Neither case throws or changes the state. *)
Theorem readMenuData_unusable_file (e : read_env) (s : state) (txt : string) :
  DATA_FILE (disk s) = Some txt -> readFile_error e = None ->
  (parse txt = None ->
   returned (fst (readMenuData e s)) = Normal (cached_or_empty s) /\
   snd (readMenuData e s) = s) /\
  (forall v, parse txt = Some v -> isArray v = false ->
   returned (fst (readMenuData e s))
     = Normal (if cache_fresh (now e) s then menuData (cache s) else VArr []) /\
   snd (readMenuData e s) = s).
Proof.
  intros Hfile Herr. unfold readMenuData, readFile_data, JSON_parse, cached_or_empty.
  rewrite Hfile, Herr.
  split.
  - intros Hp. rewrite Hp.
    destruct (cache_fresh (now e) s) eqn:Hf.
    + unfold cache_fresh in Hf. apply andb_prop in Hf. destruct Hf as [Ht _].
      rewrite Ht. split; reflexivity.
    + unfold read_catch. cbn [is_ENOENT error_code].
      destruct (truthy (Some (menuData (cache s)))); split; reflexivity.
  - intros v Hp Ha. rewrite Hp, Ha. cbn [negb].
    destruct (cache_fresh (now e) s); split; reflexivity.
Qed.

(** C4. If [writeMenuData(X)] returns [true] for a well-formed array [X],
    then a [readMenuData] that follows it, its [fs.readFile] not failing,
    returns exactly [X]: the write has emptied the cache, so the read loads
    the file, whose content is the print of [X]. *)
Theorem read_after_write (l : list value) (env : write_env) (s s' : state)
        (e : read_env) :
  wf_value (VArr l) ->
  writeMenuData (VArr l) env s = (Normal true, s') ->
  readFile_error e = None ->
  returned (fst (readMenuData e s')) = Normal (VArr l).
Proof.
  intros Hwf Hw Herr.
  apply write_loop_success in Hw.
  destruct Hw as (m & _ & Hm & Hfile & Hcache & _ & _).
  unfold readMenuData, cache_fresh, readFile_data, JSON_parse.
  rewrite Hcache, Hfile, Herr. cbn [truthy andb].
  rewrite (parse_stringify _ Hwf). cbn [isArray negb].
  rewrite Hm. reflexivity.
Qed.

(** *** Ids *)

Lemma getMaxId_fold (l : list value) :
  Forall (fun x => x <> VNull) l ->
  forall m,
    fold_left getMaxId_step l (Normal m)
    = Normal (fold_left (fun m x => if id_of x >? m then id_of x else m) l m).
Proof.
  induction 1 as [|x l Hx Hl IH]; intros m; [reflexivity|].
  cbn [fold_left]. rewrite <- IH. f_equal.
  unfold getMaxId_step, id_of. cbn [bind].
  destruct x; try reflexivity. contradiction.
Qed.

Lemma getMaxId_maxid (l : list value) :
  Forall (fun x => x <> VNull) l -> getMaxId (VArr l) = Normal (maxid l).
Proof. intros H. apply (getMaxId_fold l H 0). Qed.

Lemma fold_max_ge (l : list value) :
  forall m,
    m <= fold_left (fun m x => if id_of x >? m then id_of x else m) l m /\
    Forall (fun x => id_of x
                     <= fold_left (fun m x => if id_of x >? m then id_of x else m) l m) l.
Proof.
  induction l as [|x l IH]; intros m; cbn [fold_left].
  - split; [lia | constructor].
  - destruct (IH (if id_of x >? m then id_of x else m)) as [H1 H2].
    destruct (Z.gtb_spec (id_of x) m); split; try lia;
      constructor; try lia; exact H2.
Qed.

Lemma maxid_bounds (l : list value) :
  0 <= maxid l /\ Forall (fun x => id_of x < maxid l + 1) l.
Proof.
  destruct (fold_max_ge l 0) as [H1 H2]. split; [exact H1|].
  eapply Forall_impl; [|exact H2]. cbv beta. intros a Ha. unfold maxid. lia.
Qed.

(** An item appended with an id above every stored one carries the new
    highest id: without a deletion in between, consecutive creates count up. *)
Lemma maxid_snoc (l : list value) (x : value) :
  maxid l < id_of x -> maxid (l ++ [x]) = id_of x.
Proof.
  unfold maxid. rewrite fold_left_app. cbn [fold_left]. intros H.
  destruct (Z.gtb_spec (id_of x)
              (fold_left (fun m y => if id_of y >? m then id_of y else m) l 0));
    [reflexivity | lia].
Qed.


(** *** Runs in which no file operation fails *)

Lemma consistent_stored (s : state) (l : list value) :
  consistent s l -> stored s = Some (VArr l).
Proof.
  intros [Hwf _ Hfile _ _ _]. unfold stored.
  destruct Hfile as [E|[E ->]]; rewrite E; [|reflexivity].
  apply parse_stringify, wf_arr, Hwf.
Qed.

Lemma writeMenuData_steady (l : list value) (w : write_env) (s : state) :
  steady_write w -> lock_menuData (fileLocks s) = false ->
  Forall wf_value l -> Forall (fun x => x <> VNull) l ->
  exists s',
    writeMenuData (VArr l) w s = (Normal true, s') /\ consistent s' l.
Proof.
  intros Hw Hlock Hwf Hnn.
  destruct (Hw 0%nat) as (Hb & Hwr & Hrn).
  unfold writeMenuData, maxRetries. cbn [write_loop].
  unfold acquireLock; cbn [locked]. rewrite Hlock, Hb. cbn [orb].
  unfold write_body. cbn [isArray negb]. rewrite Hwr, Hrn. cbn [negb].
  rewrite (getMaxId_maxid l Hnn).
  eexists. split; [reflexivity|].
  constructor; try assumption; cbn; auto.
Qed.

Lemma readMenuData_steady (r : read_env) (s : state) (l : list value) :
  steady_read r -> consistent s l ->
  exists al s1,
    readMenuData r s = (mkRead (Normal (VArr l)) al, s1) /\
    consistent s1 l /\
    (al = true -> menuData (cache s1) = VArr l).
Proof.
  intros [Herr Hheal] Hc. pose proof Hc as [Hwf Hnn Hfile Hcache Hmax Hlock].
  unfold readMenuData.
  destruct (cache_fresh (now r) s) eqn:Hf.
  { unfold cache_fresh in Hf. apply andb_prop in Hf. destruct Hf as [Ht _].
    destruct Hcache as [E|E]; [rewrite E in Ht; discriminate Ht|].
    exists true, s. rewrite E. split; [reflexivity|]. split; [exact Hc|]. intros _; reflexivity. }
  unfold readFile_data.
  destruct Hfile as [E|[E ->]]; rewrite E.
  - rewrite Herr. unfold JSON_parse.
    rewrite (parse_stringify (VArr l)) by (apply wf_arr, Hwf).
    cbn [isArray negb]. rewrite (getMaxId_maxid l Hnn).
    eexists true, _. split; [reflexivity|]. split; [|reflexivity].
    constructor; try assumption; cbn; auto.
  - unfold read_catch. cbn [is_ENOENT error_code String.eqb Ascii.eqb Bool.eqb].
    destruct (writeMenuData_steady [] (heal r) s Hheal Hlock Hwf Hnn)
      as (s1 & Ew & Hc1).
    rewrite Ew. exists false, s1. repeat split; try apply Hc1. discriminate.
Qed.

Lemma current_maxId_steady (t : Z) (s : state) (l : list value) :
  consistent s l ->
  exists s1,
    current_maxId (VArr l) t s = (Normal (maxid l), s1) /\
    consistent s1 l /\
    menuData (cache s1) = menuData (cache s).
Proof.
  intros Hc. pose proof Hc as [Hwf Hnn Hfile Hcache Hmax Hlock].
  unfold current_maxId.
  assert (Hre : exists s1,
    match getMaxId (VArr l) with
    | Normal m' => (Normal m', with_cache (set_maxId m' t) s)
    | Throw err => (Throw err, s)
    end = (Normal (maxid l), s1) /\
    consistent s1 l /\ menuData (cache s1) = menuData (cache s)).
  { rewrite (getMaxId_maxid l Hnn). eexists. split; [reflexivity|].
    split; [|reflexivity]. constructor; try assumption; cbn; auto. }
  destruct Hmax as [E|E]; rewrite E; [exact Hre|].
  destruct (t - maxIdTimestamp (cache s) >? CACHE_TTL (cache s)); [exact Hre|].
  exists s. split; [reflexivity|]. split; [exact Hc|reflexivity].
Qed.

(** *** Items *)

Lemma lookup_wf (k : string) (fs : list (string * value)) (v : value) :
  Forall (fun kv => wf_value (snd kv)) fs -> lookup k fs = Some v -> wf_value v.
Proof.
  induction 1 as [|[k' v'] fs Hx Hfs IH]; cbn [lookup]; [discriminate|].
  destruct (k' =? k)%string; [intros [= <-]; exact Hx | exact IH].
Qed.

Lemma create_image_wf (image : option string) : wf_value (create_image image).
Proof.
  unfold create_image. destruct image as [i|]; [|exact I].
  destruct (truthy (Some (VStr i))); exact I.
Qed.

Lemma update_image_wf (a : image_arg) (existing : option value) :
  (forall x, existing = Some x -> wf_value x) ->
  wf_value (update_image a existing).
Proof.
  intros H. unfold update_image. destruct a as [image|]; [apply create_image_wf|].
  destruct existing as [[ | b | n | str | l | fs]|]; try exact I.
  specialize (H _ eq_refl). apply wf_obj in H. destruct H as [_ H].
  unfold or_else.
  destruct (lookup "image" fs) as [v|] eqn:E; [|exact I].
  destruct (truthy (Some v)); [|exact I]. apply (lookup_wf _ _ _ H E).
Qed.

Lemma item_with_id_wf (f : item_fields) (image : value) (id : Z) :
  num_wf (f_price f) -> wf_value image -> wf_value (item_with_id f image id).
Proof.
  intros Hp Hi. unfold item_with_id, item_literal. apply wf_obj. split.
  - cbn [map fst List.app].
    repeat (constructor; [cbn [In]; intuition discriminate|]). constructor.
  - cbn [List.app]. repeat constructor; cbn [snd]; try exact I; try assumption.
    + apply wf_arr. induction (f_tags f); constructor; [exact I | assumption].
    + apply num_of_Z_wf.
Qed.

Lemma id_of_item_with_id (f : item_fields) (image : value) (id : Z) :
  id_of (item_with_id f image id) = id.
Proof.
  unfold id_of, item_with_id, item_literal. cbn [get_prop List.app lookup String.eqb Ascii.eqb Bool.eqb].
  unfold parseInt_or_0. change (VNum (num_of_Z id)) with (VInt id).
  rewrite parseInt_VInt. reflexivity.
Qed.

Lemma has_id_nonnull (itemId : Z) (x : value) :
  x <> VNull -> exists b, has_id itemId x = Normal b.
Proof.
  intros H. unfold has_id. destruct x; try contradiction; cbn; eexists; reflexivity.
Qed.

Lemma findIndex_nonnull (itemId : Z) (l : list value) :
  Forall (fun x => x <> VNull) l ->
  exists r, findIndex itemId l = Normal r.
Proof.
  induction 1 as [|x l Hx Hl IH]; [eexists; reflexivity|].
  cbn [findIndex]. destruct (has_id_nonnull itemId x Hx) as [b ->]. cbn [bind].
  destruct b; [eexists; reflexivity|].
  destruct IH as [r ->]. cbn [bind]. eexists; reflexivity.
Qed.

Lemma remove_id_nonnull (itemId : Z) (l : list value) :
  Forall (fun x => x <> VNull) l ->
  exists l',
    remove_id itemId l = Normal l' /\
    forall P : value -> Prop, Forall P l -> Forall P l'.
Proof.
  induction 1 as [|x l Hx Hl IH].
  - exists []. split; [reflexivity | auto].
  - cbn [remove_id]. destruct (has_id_nonnull itemId x Hx) as [b ->]. cbn [bind].
    destruct IH as (l' & -> & HP). cbn [bind].
    destruct b; eexists; (split; [reflexivity|]); intros P HPl;
      inversion HPl; subst; [|constructor]; auto.
Qed.

Lemma replace_at_Forall (P : value -> Prop) (i : nat) (y : value) (l : list value) :
  Forall P l -> P y -> Forall P (replace_at i y l).
Proof.
  intros Hl Hy. revert i. induction Hl as [|x l Hx Hl IH]; intros i.
  - destruct i; constructor.
  - destruct i; cbn [replace_at]; constructor; auto.
Qed.

Lemma item_with_id_nonnull (f : item_fields) (image : value) (id : Z) :
  item_with_id f image id <> VNull.
Proof. discriminate. Qed.

(** *** Handlers *)

Lemma mutate_read_frame (r : read_result) (v : value) (s : state) :
  lock_menuData (fileLocks (mutate_read r v s)) = lock_menuData (fileLocks s).
Proof. unfold mutate_read. destruct (aliased r); reflexivity. Qed.

Lemma create_steady (f : item_fields) (image : option string)
      (e : handler_env) (s : state) (l : list value) :
  steady e -> consistent s l -> num_wf (f_price f) ->
  exists s',
    create f image e s
    = (Json 200 (VObj [("success", VBool true);
                       ("item", item_with_id f (create_image image)
                                            (number_add (maxid l) 1));
                       ("message", VStr "Item added successfully")]), s') /\
    consistent s' (l ++ [item_with_id f (create_image image)
                                      (number_add (maxid l) 1)]).
Proof.
  intros [Hr Hw] Hc Hp. unfold create.
  destruct (readMenuData_steady _ _ _ Hr Hc) as (al & s1 & -> & Hc1 & _).
  cbn [returned].
  destruct (current_maxId_steady (h_now e) s1 l Hc1) as (s2 & -> & Hc2 & _).
  set (item := item_with_id f (create_image image) (number_add (maxid l) 1)).
  destruct (writeMenuData_steady (l ++ [item]) (h_write e)
              (mutate_read (mkRead (Normal (VArr l)) al) (VArr (l ++ [item])) s2))
    as (s' & -> & Hc').
  - exact Hw.
  - rewrite mutate_read_frame. apply Hc2.
  - apply Forall_app. split; [apply Hc2|]. constructor; [|constructor].
    apply item_with_id_wf; [exact Hp | apply create_image_wf].
  - apply Forall_app. split; [apply Hc2|]. constructor; [|constructor].
    apply item_with_id_nonnull.
  - exists s'. split; [reflexivity | exact Hc'].
Qed.

Lemma update_steady (itemId : Z) (f : item_fields) (image : image_arg)
      (e : handler_env) (s : state) (l : list value) :
  steady e -> consistent s l -> num_wf (f_price f) ->
  exists l', consistent (snd (update itemId f image e s)) l'.
Proof.
  intros [Hr Hw] Hc Hp. unfold update.
  destruct (itemId <=? 0); [exists l; exact Hc|].
  destruct (readMenuData_steady _ _ _ Hr Hc) as (al & s1 & -> & Hc1 & _).
  cbn [returned].
  destruct (findIndex_nonnull itemId l (con_items _ _ Hc1)) as [[i|] ->];
    [|exists l; exact Hc1].
  set (item := item_with_id f (update_image image (nth_error l i)) itemId).
  assert (Hwf : wf_value item).
  { apply item_with_id_wf; [exact Hp|]. apply update_image_wf.
    intros x Hx. apply nth_error_In in Hx.
    exact (proj1 (Forall_forall _ _) (con_wf _ _ Hc1) x Hx). }
  destruct (writeMenuData_steady (replace_at i item l) (h_write e)
              (mutate_read (mkRead (Normal (VArr l)) al)
                           (VArr (replace_at i item l)) s1))
    as (s' & -> & Hc').
  - exact Hw.
  - rewrite mutate_read_frame. apply Hc1.
  - apply replace_at_Forall; [apply Hc1 | exact Hwf].
  - apply replace_at_Forall; [apply Hc1 | apply item_with_id_nonnull].
  - eexists. exact Hc'.
Qed.

Lemma delete_steady (itemId : Z) (e : handler_env) (s : state) (l : list value) :
  steady e -> consistent s l ->
  exists l', consistent (snd (delete itemId e s)) l'.
Proof.
  intros [Hr Hw] Hc. unfold delete.
  destruct (itemId <=? 0); [exists l; exact Hc|].
  destruct (readMenuData_steady _ _ _ Hr Hc) as (al & s1 & -> & Hc1 & _).
  cbn [returned].
  destruct (remove_id_nonnull itemId l (con_items _ _ Hc1)) as (l' & -> & HP).
  destruct (List.length l' =? List.length l)%nat; [exists l; exact Hc1|].
  destruct (writeMenuData_steady l' (h_write e) s1) as (s' & -> & Hc').
  - exact Hw.
  - apply Hc1.
  - apply HP, Hc1.
  - apply HP, Hc1.
  - eexists. exact Hc'.
Qed.

Lemma listMenu_steady (e : handler_env) (s : state) (l : list value) :
  steady e -> consistent s l -> consistent (snd (listMenu e s)) l.
Proof.
  intros [Hr Hw] Hc. unfold listMenu.
  destruct (readMenuData_steady _ _ _ Hr Hc) as (al & s1 & -> & Hc1 & _).
  exact Hc1.
Qed.

(** *** Reachable states *)

Lemma step_steady (o : op) (e : handler_env) (s : state) (l : list value) :
  steady e -> wf_op o -> consistent s l ->
  exists l', consistent (snd (step o e s)) l'.
Proof.
  intros He Ho Hc. destruct o as [f image | itemId f image | itemId | ]; cbn [step].
  - destruct (create_steady f image e s l He Hc Ho) as (s' & -> & Hc').
    eexists. exact Hc'.
  - apply (update_steady itemId f image e s l He Hc Ho).
  - apply (delete_steady itemId e s l He Hc).
  - exists l. apply (listMenu_steady e s l He Hc).
Qed.

Lemma reachable_consistent (s : state) :
  reachable s -> exists l, consistent s l.
Proof.
  induction 1 as [ttl d Hd | s o e Hs [l IH] He Ho].
  - destruct Hd as [E | (l & Hwf & Hnn & E)].
    + exists []. constructor; cbn; auto.
    + exists l. constructor; cbn; auto.
  - apply (step_steady o e s l He Ho IH).
Qed.

Lemma safe_id_item_with_id (f : item_fields) (image : value) (id : Z) :
  Z.abs id <= MAX_SAFE_INTEGER -> safe_id (item_with_id f image id).
Proof.
  intros H. exists (Some (VInt id)). split; [reflexivity|].
  right. exists id. split; [reflexivity | exact H].
Qed.


(** *** The shape of the cache along any run *)

Lemma mutate_read_cache_ok (r : read_result) (l : list value) (s : state) :
  cache_ok s -> cache_ok (mutate_read r (VArr l) s).
Proof.
  intros H. unfold mutate_read. destruct (aliased r); [|exact H].
  right. exists l. reflexivity.
Qed.

Lemma current_maxId_cache_ok (menu : value) (t : Z) (s : state) :
  cache_ok s -> cache_ok (snd (current_maxId menu t s)).
Proof.
  intros H. unfold current_maxId.
  destruct (maxId (cache s));
    [destruct (t - maxIdTimestamp (cache s) >? CACHE_TTL (cache s))|];
    try exact H; destruct (getMaxId menu); exact H.
Qed.

Lemma write_reply_cache_ok (data : value) (w : write_env) (s : state)
      (k : completion bool * state -> reply * state) :
  (forall c s', snd (k (c, s')) = s') ->
  cache_ok s -> cache_ok (snd (k (writeMenuData data w s))).
Proof.
  intros Hk H. pose proof (writeMenuData_cache_ok data w s H) as Hw.
  destruct (writeMenuData data w s) as [c s']. rewrite Hk. exact Hw.
Qed.

(** Whatever fails, a handler leaves [cache.menuData] [null] or an array. *)
Lemma step_cache_ok (o : op) (e : handler_env) (s : state) :
  cache_ok s -> cache_ok (snd (step o e s)).
Proof.
  intros H.
  destruct o as [f image | itemId f image | itemId | ]; cbn [step].
  - unfold create.
    destruct (readMenuData_array (h_read e) s H) as (l & Hr & Hok).
    destruct (readMenuData (h_read e) s) as [r s1]. cbn [fst snd] in *.
    rewrite Hr.
    pose proof (current_maxId_cache_ok (VArr l) (h_now e) s1 Hok) as Hm.
    destruct (current_maxId (VArr l) (h_now e) s1) as [[m|err] s2]; cbn [snd] in *;
      [|exact Hm].
    apply (write_reply_cache_ok _ _ _
             (fun p => match p with
                       | (Normal true, s4) => (_, s4)
                       | (Normal false, s4) => (_, s4)
                       | (Throw err, s4) => (Next err, s4)
                       end)).
    + intros [[|]|] s'; reflexivity.
    + apply mutate_read_cache_ok, Hm.
  - unfold update. destruct (itemId <=? 0); [exact H|].
    destruct (readMenuData_array (h_read e) s H) as (l & Hr & Hok).
    destruct (readMenuData (h_read e) s) as [r s1]. cbn [fst snd] in *.
    rewrite Hr.
    destruct (findIndex itemId l) as [[i|]|err]; try exact Hok.
    apply (write_reply_cache_ok _ _ _
             (fun p => match p with
                       | (Normal true, s4) => (_, s4)
                       | (Normal false, s4) => (_, s4)
                       | (Throw err, s4) => (Next err, s4)
                       end)).
    + intros [[|]|] s'; reflexivity.
    + apply mutate_read_cache_ok, Hok.
  - unfold delete. destruct (itemId <=? 0); [exact H|].
    destruct (readMenuData_array (h_read e) s H) as (l & Hr & Hok).
    destruct (readMenuData (h_read e) s) as [r s1]. cbn [fst snd] in *.
    rewrite Hr.
    destruct (remove_id itemId l) as [l'|err]; try exact Hok.
    destruct (List.length l' =? List.length l)%nat; [exact Hok|].
    apply (write_reply_cache_ok _ _ _
             (fun p => match p with
                       | (Normal true, s4) => (_, s4)
                       | (Normal false, s4) => (_, s4)
                       | (Throw err, s4) => (Next err, s4)
                       end)).
    + intros [[|]|] s'; reflexivity.
    + exact Hok.
  - unfold listMenu.
    destruct (readMenuData_array (h_read e) s H) as (l & Hr & Hok).
    destruct (readMenuData (h_read e) s) as [r s1]. cbn [fst snd] in *.
    rewrite Hr. exact Hok.
Qed.

Lemma run_cache_ok (ops : list (op * handler_env)) (s : state) :
  cache_ok s -> cache_ok (snd (run ops s)).
Proof.
  revert s. induction ops as [|[o e] ops IH]; intros s H; [exact H|].
  cbn [run]. pose proof (step_cache_ok o e s H) as Hs.
  destruct (step o e s) as [r s1]. cbn [snd] in Hs.
  specialize (IH s1 Hs). destruct (run ops s1) as [rs s2]. exact IH.
Qed.

End WithCodec.

(** An environment in which nothing fails and no other write is in flight,
    every clock reading [t]. *)
Definition calm_attempt (t : Z) : attempt := mkAttempt false true None true true t.
Definition calm (t : Z) : handler_env :=
  mkHandlerEnv (mkReadEnv t None (fun _ => calm_attempt t)) t
               (fun _ => calm_attempt t).

(** ** Worked examples, over the reference codec *)

Definition burger : item_fields :=
  mkFields "Burger" "mains" (mkNumber false 9 (D9 (D9 Nil))) "" [].




Definition one_burger : list value := [item_with_id burger VNull 1].



(** Past the integers that a number holds exactly the counting stops: over
    a collection whose highest id is 2^53, a create is given the id 2^53
    again. *)
Definition brim : list value := [item_with_id burger VNull (MAX_SAFE_INTEGER + 1)].

Lemma create_repeats_the_id_at_the_brim :
  stored (initial 5000 (mkDisk (Some (stringify (VArr brim))) None None None))
    = Some (VArr brim) /\
  created_id
    (fst (create burger None (calm 1000)
            (initial 5000 (mkDisk (Some (stringify (VArr brim))) None None None))))
    = Some (MAX_SAFE_INTEGER + 1) /\
  stored
    (snd (create burger None (calm 1000)
            (initial 5000 (mkDisk (Some (stringify (VArr brim))) None None None))))
    = Some (VArr (brim ++ brim)).
Proof. repeat split; vm_compute; reflexivity. Qed.


(** A process whose cache holds one item, loaded at time 1000. *)
Definition loaded (file : string) : state :=
  mkState (mkCache (VArr one_burger) VNull 1000 0 5000 (Some 1) 1000)
          (mkLocks false false)
          (mkDisk (Some file) None None None).


(** One burger written, then read back. *)
Lemma read_after_write_witness :
  wf_value (VArr one_burger) /\
  writeMenuData (VArr one_burger) (fun _ => calm_attempt 0) (initial 5000 no_files)
    = (Normal true,
       snd (writeMenuData (VArr one_burger) (fun _ => calm_attempt 0)
              (initial 5000 no_files))) /\
  returned
    (fst (readMenuData (mkReadEnv 1 None (fun _ => calm_attempt 1))
            (snd (writeMenuData (VArr one_burger) (fun _ => calm_attempt 0)
                    (initial 5000 no_files)))))
  = Normal (VArr one_burger).
Proof.
  assert (Hwf : wf_value (VArr one_burger)).
  { apply wf_arr. constructor; [|constructor].
    apply (item_with_id_wf burger VNull 1); [reflexivity | exact I]. }
  assert (Hw : writeMenuData (VArr one_burger) (fun _ => calm_attempt 0)
                 (initial 5000 no_files)
               = (Normal true,
                  snd (writeMenuData (VArr one_burger) (fun _ => calm_attempt 0)
                         (initial 5000 no_files))))
    by (vm_compute; reflexivity).
  split; [exact Hwf|]. split; [exact Hw|].
  exact (read_after_write one_burger _ _ _
           (mkReadEnv 1 None (fun _ => calm_attempt 1)) Hwf Hw eq_refl).
Defined.

Definition later : read_env := mkReadEnv 9000 None (fun _ => calm_attempt 9000).


(** C5, as stated, fails: the file holds an object, a cache exists but is
    older than the TTL, and the read returns an empty array, not the cached
    menu. *)
Lemma wrong_shape_ignores_stale_cache :
  DATA_FILE (disk (loaded "{}")) = Some "{}" /\
  parse "{}" = Some (VObj []) /\
  menuData (cache (loaded "{}")) = VArr one_burger /\
  returned (fst (readMenuData later (loaded "{}"))) = Normal (VArr []) /\
  returned (fst (readMenuData later (loaded "{}")))
    <> Normal (menuData (cache (loaded "{}"))).
Proof.
  repeat split; try (vm_compute; reflexivity).
  vm_compute. discriminate.
Qed.

(** The same read, as the amended statement describes it. *)
Lemma readMenuData_unusable_file_witness :
  DATA_FILE (disk (loaded "{}")) = Some "{}" /\
  readFile_error later = None /\
  parse "{}" = Some (VObj []) /\ isArray (VObj []) = false /\
  returned (fst (readMenuData later (loaded "{}")))
    = Normal (if cache_fresh (now later) (loaded "{}")
              then menuData (cache (loaded "{}")) else VArr []) /\
  snd (readMenuData later (loaded "{}")) = loaded "{}".
Proof.
  assert (Hp : parse "{}" = Some (VObj [])) by (vm_compute; reflexivity).
  split; [reflexivity|]. split; [reflexivity|].
  split; [exact Hp|]. split; [reflexivity|].
  exact (proj2 (readMenuData_unusable_file later (loaded "{}") "{}" eq_refl eq_refl)
           (VObj []) Hp eq_refl).
Defined.

(** A read over a file that is not JSON. *)
Lemma readMenuData_returns_array_witness :
  cache_ok (loaded "not json") /\
  exists l,
    returned (fst (readMenuData later (loaded "not json"))) = Normal (VArr l) /\
    cache_ok (snd (readMenuData later (loaded "not json"))).
Proof.
  assert (H : cache_ok (loaded "not json")) by (right; eexists; reflexivity).
  split; [exact H|].
  exact (readMenuData_returns_array later (loaded "not json") H).
Defined.

End Store.

(* ===================================================================== *)
(** * [PUT /api/settings] *)
(* ===================================================================== *)

Module Settings.
Import JS JSON Store.

(** ** Numbers as [parseFloat] and [Math.min] / [Math.max] see them *)

Inductive fnum : Type :=
| FNaN
| FNegInf
| FFin (n : number)
| FPosInf.

Definition num_leb (a b : number) : bool := Qle_bool (num_Q a) (num_Q b).

(** [Math.min(a, b)]. *)
Definition fmin (a b : fnum) : fnum :=
  match a, b with
  | FNaN, _ | _, FNaN => FNaN
  | FNegInf, _ | _, FNegInf => FNegInf
  | FPosInf, x | x, FPosInf => x
  | FFin x, FFin y => if num_leb x y then FFin x else FFin y
  end.

(** [Math.max(a, b)]. *)
Definition fmax (a b : fnum) : fnum :=
  match a, b with
  | FNaN, _ | _, FNaN => FNaN
  | FPosInf, _ | _, FPosInf => FPosInf
  | FNegInf, x | x, FNegInf => x
  | FFin x, FFin y => if num_leb x y then FFin y else FFin x
  end.

(** ** The settings the handler stores *)

Record filter : Type := mkFilter {
  category : string;
  label : string;
  enabled : bool
}.

Record settings_t : Type := mkSettings {
  primaryColor : string;
  secondaryColor : string;
  textColor : string;
  accentColor : string;
  headingFontSize : fnum;
  itemNameSize : fnum;
  descriptionSize : fnum;
  priceSize : fnum;
  cardOpacity : fnum;
  gridGap : fnum;
  filterCategories : list filter
}.

Definition getDefaultFilterCategories : list filter :=
  [ mkFilter "starters" "Starters" true;
    mkFilter "lorem ipsum" "Lorem Ipsum" true;
    mkFilter "chicken burgers" "Chicken Burgers" true;
    mkFilter "fries" "Fries" true;
    mkFilter "dessert" "Dessert" true;
    mkFilter "drinks" "Drinks" true;
    mkFilter "add ons" "Add Ons" true;
    mkFilter "dips" "Dips" true ].

(** The object [JSON.stringify] receives; it prints [NaN] and the
    infinities as [null]. *)
Definition fnum_value (x : fnum) : value :=
  match x with
  | FFin n => VNum n
  | _ => VNull
  end.

Definition filter_value (f : filter) : value :=
  VObj [ ("category", VStr (category f));
         ("label", VStr (label f));
         ("enabled", VBool (enabled f)) ].

Definition settings_fields (v : settings_t) : list (string * value) :=
  [ ("primaryColor", VStr (primaryColor v));
    ("secondaryColor", VStr (secondaryColor v));
    ("textColor", VStr (textColor v));
    ("accentColor", VStr (accentColor v));
    ("headingFontSize", fnum_value (headingFontSize v));
    ("itemNameSize", fnum_value (itemNameSize v));
    ("descriptionSize", fnum_value (descriptionSize v));
    ("priceSize", fnum_value (priceSize v));
    ("cardOpacity", fnum_value (cardOpacity v));
    ("gridGap", fnum_value (gridGap v));
    ("filterCategories", VArr (map filter_value (filterCategories v))) ].

Definition settings_value (v : settings_t) : value := VObj (settings_fields v).

(** ** The filter categories of a request *)

(** [f.k] where [f] is known not to be [null]. *)
Definition prop (f : value) (k : string) : option value :=
  match get_prop (Some f) k with
  | Normal v => v
  | Throw _ => None
  end.

(** [(f) => f && f.category && f.label]. *)
Definition keep_raw (f : value) : bool :=
  if truthy (Some f)
  then truthy (prop f "category") && truthy (prop f "label")
  else false.

(** [String(f.category).trim().toLowerCase()]. *)
Definition normal_key (f : value) : string :=
  toLowerCase (trim (String_ (prop f "category"))).

Definition normalize (f : value) : filter :=
  mkFilter (normal_key f)
           (trim (String_ (prop f "label")))
           (truthy (prop f "enabled")).

(** [(f) => f.category && f.label && f.category.length <= 100 &&
            f.label.length <= 100]. *)
Definition keep_normal (f : filter) : bool :=
  negb (category f =? "")%string && negb (label f =? "")%string &&
  (String.length (category f) <=? 100)%nat &&
  (String.length (label f) <=? 100)%nat.

Definition normalize_filters (l : list value) : list filter :=
  List.filter keep_normal (map normalize (List.filter keep_raw l)).

(** The value of [filterCategories] after
<<
   let filterCategories = getDefaultFilterCategories();
   if (settings.filterCategories && Array.isArray(settings.filterCategories)) {
     filterCategories = settings.filterCategories.filter(..).map(..).filter(..);
   }
>> *)
Definition request_filters (fc : option value) : list filter :=
  match fc with
  | Some (VArr l) => normalize_filters l
  | _ => getDefaultFilterCategories
  end.

(** ** Colours and knobs *)

Definition is_hex_digit (c : ascii) : bool :=
  match digit_val 16 c with Some _ => true | None => false end.

(** [/^#[0-9A-F]{6}$/i.test(s)]. *)
Definition is_hex_color (s : string) : bool :=
  match s with
  | String "#" (String a (String b (String c (String d (String e
      (String f EmptyString)))))) =>
      is_hex_digit a && is_hex_digit b && is_hex_digit c &&
      is_hex_digit d && is_hex_digit e && is_hex_digit f
  | _ => false
  end.

(** [validateColor(color, defaultColor)]. *)
Definition validateColor (color : option value) (defaultColor : string) : string :=
  match color with
  | Some (VStr s) => if is_hex_color s then s else defaultColor
  | _ => defaultColor
  end.

Definition dec (i : N) (f : Decimal.uint) : number := mkNumber false i f.

Section WithRuntime.
Context {codec : Codec}.

(** [parseFloat] is the runtime's; nothing is assumed of it. *)
Variable parseFloat : option value -> fnum.

(** [clamp(value, min, max, defaultValue)]. *)
Definition clamp (v : option value) (lo hi d : number) : fnum :=
  match parseFloat v with
  | FNaN => FFin d
  | num => fmax (FFin lo) (fmin (FFin hi) num)
  end.

(** The object [validSettings] the handler builds from the request body;
    the first property read throws if the body is [null]. *)
Definition validSettings (body : value) : completion settings_t :=
  fc <- get_prop (Some body) "filterCategories" ;;
  Normal (mkSettings
    (validateColor (prop body "primaryColor") "#0d3b2e")
    (validateColor (prop body "secondaryColor") "#1a5c4a")
    (validateColor (prop body "textColor") "#ffffff")
    (validateColor (prop body "accentColor") "#ffd700")
    (clamp (prop body "headingFontSize") (dec 2 Nil) (dec 8 Nil) (dec 4 Nil))
    (clamp (prop body "itemNameSize") (dec 1 Nil) (dec 3 Nil) (dec 1 (D8 Nil)))
    (clamp (prop body "descriptionSize") (dec 0 (D7 Nil)) (dec 1 (D5 Nil))
           (dec 0 (D9 (D5 Nil))))
    (clamp (prop body "priceSize") (dec 1 Nil) (dec 3 Nil) (dec 1 (D5 Nil)))
    (clamp (prop body "cardOpacity") (dec 0 Nil) (dec 1 Nil) (dec 0 (D0 (D5 Nil))))
    (clamp (prop body "gridGap") (dec 0 (D5 Nil)) (dec 5 Nil) (dec 2 Nil))
    (request_filters fc)).

(** ** [writeSettings] *)

(** [data && typeof data === "object"]. *)
Definition is_object (data : value) : bool :=
  match data with
  | VObj _ | VArr _ => true
  | _ => false
  end.

Definition write_settings_body (data : value) (a : attempt) (s : state)
  : completion unit * state :=
  if negb (is_object data) then
    (Throw (PlainError "Settings must be an object"), s)
  else if negb (writeFile_ok a) then
    (Throw (FsError "EIO"), with_disk (set_SETTINGS_TMP (torn a)) s)
  else
    let s1 := with_disk (set_SETTINGS_TMP (Some (stringify data))) s in
    if negb (rename_ok a) then (Throw (FsError "EIO"), s1)
    else
      (Normal tt,
       with_cache (set_settings VNull 0) (with_disk rename_settings s1)).

Definition write_settings_cleanup (a : attempt) (s : state) : state :=
  let s1 := if unlink_ok a then with_disk (set_SETTINGS_TMP None) s else s in
  releaseLock F_settings s1.

Fixpoint write_settings_loop (left : nat) (i : nat) (data : value)
         (env : write_env) (s : state) : completion bool * state :=
  match left with
  | O => (Normal false, s)
  | S left' =>
      let a := env i in
      match acquireLock F_settings (lock_busy a) s with
      | (false, s0) => write_settings_loop left' (S i) data env s0
      | (true, s0) =>
          match write_settings_body data a s0 with
          | (Normal _, s1) => (Normal true, releaseLock F_settings s1)
          | (Throw _, s1) =>
              write_settings_loop left' (S i) data env
                                  (write_settings_cleanup a s1)
          end
      end
  end.

Definition writeSettings (data : value) (env : write_env) (s : state)
  : completion bool * state :=
  write_settings_loop maxRetries 0 data env s.

(** ** The handler *)

Definition putSettings (body : value) (w : write_env) (s : state)
  : reply * state :=
  match validSettings body with
  | Throw err => (Next err, s)
  | Normal v =>
      match writeSettings (settings_value v) w s with
      | (Normal true, s1) =>
          (Json 200 (VObj [("success", VBool true);
                           ("message", VStr "Settings updated successfully");
                           ("settings", settings_value v)]), s1)
      | (Normal false, s1) =>
          (Json 500 (VObj [("success", VBool false);
                           ("message", VStr "Failed to save settings")]), s1)
      | (Throw err, s1) => (Next err, s1)
      end
  end.

End WithRuntime.

(** ** Vocabulary of the properties *)




(** The entries of a request that reach the stored list. *)
Definition survives (f : value) : bool :=
  keep_raw f && keep_normal (normalize f).


(** The category keys in the settings file. *)
Definition stored_categories {codec : Codec} (s : state) : option (list string) :=
  match SETTINGS_FILE (disk s) with
  | Some txt =>
      match parse txt with
      | Some v =>
          match prop v "filterCategories" with
          | Some (VArr l) => Some (map (fun f => String_ (prop f "category")) l)
          | _ => None
          end
      | None => None
      end
  | None => None
  end.

(** [parseFloat] on the values the examples use: a number is itself, and
    [undefined], [null], a boolean or an object is [NaN]. *)
Definition parseFloat_plain (v : option value) : fnum :=
  match v with
  | Some (VNum n) => FFin n
  | _ => FNaN
  end.

Section SettingsFacts.
Context {codec : Codec}.
Variable parseFloat : option value -> fnum.









Lemma write_settings_total (left : nat) :
  forall i data env s,
    exists b s', write_settings_loop left i data env s = (Normal b, s').
Proof.
  induction left as [|left IH]; intros i data env s.
  - eexists _, _. reflexivity.
  - cbn [write_settings_loop]. unfold acquireLock; cbn [locked].
    destruct (lock_settings (fileLocks s) || lock_busy (env i)); [apply IH|].
    destruct (write_settings_body data (env i) _) as [[u|err] s1]; [|apply IH].
    eexists _, _. reflexivity.
Qed.

Lemma write_settings_success (left : nat) :
  forall i data env s s',
    write_settings_loop left i data env s = (Normal true, s') ->
    SETTINGS_FILE (disk s') = Some (stringify data) /\
    settings (cache s') = VNull.
Proof.
  induction left as [|left IH]; intros i data env s s' H; [discriminate H|].
  cbn [write_settings_loop] in H. unfold acquireLock in H; cbn [locked] in H.
  destruct (lock_settings (fileLocks s) || lock_busy (env i)); [apply (IH _ _ _ _ _ H)|].
  destruct (write_settings_body data (env i) _) as [[u|err] s1] eqn:E;
    [|apply (IH _ _ _ _ _ H)].
  injection H as <-. unfold write_settings_body in E.
  destruct (is_object data); cbn [negb] in E; [|discriminate E].
  destruct (writeFile_ok (env i)); cbn [negb] in E; [|discriminate E].
  destruct (rename_ok (env i)); cbn [negb] in E; [|discriminate E].
  inversion E; subst. split; reflexivity.
Qed.



(** *** Filter categories *)

Lemma lower_char_idem (c : ascii) : lower_char (lower_char c) = lower_char c.
Proof. destruct c as [[] [] [] [] [] [] [] []]; reflexivity. Qed.

Lemma toLowerCase_idem (s : string) : toLowerCase (toLowerCase s) = toLowerCase s.
Proof.
  induction s as [|c r IH]; [reflexivity|].
  cbn [toLowerCase]. rewrite lower_char_idem, IH. reflexivity.
Qed.

Lemma normalize_filters_keys (l : list value) :
  map category (normalize_filters l) = map normal_key (List.filter survives l).
Proof.
  unfold normalize_filters, survives.
  induction l as [|f l IH]; [reflexivity|].
  cbn [List.filter]. destruct (keep_raw f); cbn [andb map List.filter]; [|exact IH].
  destruct (keep_normal (normalize f)); cbn [map]; [|exact IH].
  rewrite IH. reflexivity.
Qed.

Lemma normalize_filters_lower (l : list value) :
  Forall (fun f => toLowerCase (category f) = category f) (normalize_filters l).
Proof.
  unfold normalize_filters.
  induction l as [|f l IH]; [constructor|].
  cbn [List.filter]. destruct (keep_raw f); cbn [map List.filter]; [|exact IH].
  destruct (keep_normal (normalize f)); [|exact IH].
  constructor; [|exact IH]. cbn [normalize category]. apply toLowerCase_idem.
Qed.

(** C8, as amended. After a successful settings update the settings file
    holds the print of [validSettings]; every stored category key is in
    lower case; and when the request carries an array, the stored keys are,
    in order, the normalised keys of its surviving entries, so that the
    stored list has no two equal keys exactly when those entries have
    pairwise distinct normalised keys: the write path keeps duplicates. *)
Theorem stored_filters_are_normalized (body : value) (w : write_env)
        (s s' : state) (answer : value) :
  putSettings parseFloat body w s = (Json 200 answer, s') ->
  exists v,
    validSettings parseFloat body = Normal v /\
    SETTINGS_FILE (disk s') = Some (stringify (settings_value v)) /\
    filterCategories v = request_filters (prop body "filterCategories") /\
    Forall (fun f => toLowerCase (category f) = category f) (filterCategories v) /\
    forall l, prop body "filterCategories" = Some (VArr l) ->
      map category (filterCategories v) = map normal_key (List.filter survives l) /\
      (NoDup (map category (filterCategories v)) <->
       NoDup (map normal_key (List.filter survives l))).
Proof.
  intros H. unfold putSettings in H.
  destruct (validSettings parseFloat body) as [v|err] eqn:Ev; [|discriminate H].
  destruct (writeSettings (settings_value v) w s) as [[[|]|err] s1] eqn:Ew;
    try discriminate H.
  injection H as _ <-.
  apply write_settings_success in Ew. destruct Ew as [Hfile _].
  exists v. split; [reflexivity|]. split; [exact Hfile|].
  unfold validSettings in Ev.
  destruct (get_prop (Some body) "filterCategories") as [fc|err] eqn:Efc;
    [|discriminate Ev].
  cbn [bind] in Ev. injection Ev as <-. cbn [filterCategories].
  assert (Hfc : fc = prop body "filterCategories")
    by (unfold prop; rewrite Efc; reflexivity).
  rewrite <- Hfc.
  split; [reflexivity|]. split.
  - unfold request_filters.
    destruct fc as [[ | b | n | str | l | fs]|];
      try (repeat constructor); apply normalize_filters_lower.
  - intros l ->. cbn [request_filters].
    rewrite normalize_filters_keys. split; [reflexivity | tauto].
Qed.

End SettingsFacts.

(** ** Worked examples, over the reference codec *)

(** A request whose two categories differ by case and white space only. *)
Definition duplicate_body : value :=
  VObj [("filterCategories",
         VArr [ VObj [("category", VStr "Starters"); ("label", VStr "Starters");
                      ("enabled", VBool true)];
                VObj [("category", VStr " starters "); ("label", VStr "Small plates");
                      ("enabled", VBool true)] ])].

Definition duplicate_update : reply * state :=
  putSettings parseFloat_plain duplicate_body (fun _ => calm_attempt 0)
              (initial 5000 no_files).

Definition answer_of (r : reply) : value :=
  match r with
  | Json _ b => b
  | Next _ => VNull
  end.

(** C8, as stated, fails: the update succeeds and the settings file holds
    two entries with the key "starters". *)
Lemma duplicate_categories_are_stored :
  fst duplicate_update = Json 200 (answer_of (fst duplicate_update)) /\
  stored_categories (snd duplicate_update) = Some ["starters"; "starters"] /\
  ~ NoDup ["starters"; "starters"].
Proof.
  split; [vm_compute; reflexivity|].
  split; [vm_compute; reflexivity|].
  intros H. inversion H as [|x l Hin _]; subst. apply Hin. left. reflexivity.
Qed.

(** The same update, as the amended statement describes it. *)
Lemma stored_filters_are_normalized_witness :
  duplicate_update
    = (Json 200 (answer_of (fst duplicate_update)), snd duplicate_update) /\
  exists v,
    validSettings parseFloat_plain duplicate_body = Normal v /\
    SETTINGS_FILE (disk (snd duplicate_update))
      = Some (stringify (settings_value v)) /\
    Forall (fun f => toLowerCase (category f) = category f) (filterCategories v).
Proof.
  assert (H : duplicate_update
              = (Json 200 (answer_of (fst duplicate_update)), snd duplicate_update))
    by (vm_compute; reflexivity).
  split; [exact H|].
  destruct (stored_filters_are_normalized parseFloat_plain duplicate_body
              (fun _ => calm_attempt 0) (initial 5000 no_files)
              (snd duplicate_update) (answer_of (fst duplicate_update)) H)
    as (v & Hv & Hfile & _ & Hlow & _).
  exists v. split; [exact Hv|]. split; [exact Hfile | exact Hlow].
Defined.



End Settings.

(* ===================================================================== *)
(** * Integer literals *)
(* ===================================================================== *)

Module Numbers.
Import JS.

Lemma usize_nb_digits (d : uint) :
  DecimalPos.Unsigned.usize d = N.of_nat (nb_digits d).
Proof. induction d; cbn [DecimalPos.Unsigned.usize nb_digits]; lia. Qed.

Lemma of_uint_lt (d : uint) : (N.of_uint d < 10 ^ DecimalPos.Unsigned.usize d)%N.
Proof.
  induction d;
    [ vm_compute; reflexivity | .. ];
    match goal with
    | |- (N.of_uint (?f d) < _)%N =>
        rewrite (of_uint_cons (DecimalPos.Unsigned.hd (f Nil)) f d)
          by (intros; reflexivity)
    end;
    cbn [DecimalPos.Unsigned.usize DecimalPos.Unsigned.hd];
    rewrite N.pow_succ_r'; lia.
Qed.

Lemma of_uint_0_nztail (d : uint) :
  N.of_uint d = 0%N -> DecimalFacts.nztail d = Nil.
Proof.
  induction d; intros H; [reflexivity | ..];
    match type of H with
    | N.of_uint (?f d) = _ =>
        rewrite (of_uint_cons (DecimalPos.Unsigned.hd (f Nil)) f d) in H
          by (intros; reflexivity)
    end;
    cbn [DecimalPos.Unsigned.hd] in H;
    try (exfalso;
         assert (0 < 10 ^ DecimalPos.Unsigned.usize d)%N
           by (apply N.neq_0_lt_0, N.pow_nonzero; discriminate);
         lia).
  cbn [DecimalFacts.nztail]. rewrite IHd by lia. reflexivity.
Qed.

(** A canonical literal that equals an integer is the literal of that
    integer. *)
Lemma num_eqb_int (m : number) (z : Z) :
  num_wf m -> num_eqb m (num_of_Z z) = true -> m = num_of_Z z.
Proof.
  destruct m as [neg I fr]. unfold num_wf, num_norm, num_is_zero, num_eqb, num_of_Z.
  cbn [nneg nint nfrac]. intros Hwf Heq.
  injection Hwf as Hneg Hfr.
  apply Qeq_bool_iff in Heq. unfold Qeq, num_Q in Heq.
  cbn [nneg nint nfrac Qnum Qden nb_digits] in Heq.
  pose proof (of_uint_lt fr) as Hlt. rewrite usize_nb_digits in Hlt.
  set (F := N.of_uint fr) in *.
  change (N.of_uint Nil) with 0%N in Heq.
  rewrite !Pos2Z.inj_pow in Heq.
  rewrite !Zpos_P_of_succ_nat in Heq.
  change (Z.succ (Z.of_nat 0)) with 1 in Heq.
  rewrite Z.pow_succ_r in Heq by lia.
  assert (HK : Z.of_N (10 ^ N.of_nat (nb_digits fr)) = 10 ^ Z.of_nat (nb_digits fr)).
  { rewrite N2Z.inj_pow. f_equal. lia. }
  set (K := 10 ^ Z.of_nat (nb_digits fr)) in *.
  assert (HF : 0 <= Z.of_N F < K) by lia.
  assert (HKpos : 0 < K) by lia.
  change (10 ^ 1) with 10 in Heq. rewrite N2Z.inj_abs_N in Heq.
  change (Z.of_N 0) with 0 in Heq.
  assert (HI : Z.of_N I = Z.abs z /\ Z.of_N F = 0).
  { assert (Hd : Z.of_N I * K + Z.of_N F = Z.abs z * K \/
                 (Z.of_N I * K + Z.of_N F = 0 /\ Z.abs z * K = 0)).
    { destruct neg; destruct (Z.ltb_spec z 0); nia. }
    destruct Hd as [Hd|[Hd1 Hd2]]; [|nia].
    assert (Z.abs z - Z.of_N I = 0) by nia. nia. }
  destruct HI as [HI HF0].
  assert (Hfr0 : fr = Nil).
  { rewrite <- Hfr. apply of_uint_0_nztail. fold F. lia. }
  subst fr. f_equal; [|lia].
  cbn [frac_norm DecimalFacts.nztail] in Hneg.
  rewrite andb_true_r in Hneg.
  destruct neg; destruct (Z.ltb_spec z 0); try reflexivity; exfalso.
  - cbn [andb] in Hneg. apply negb_true_iff in Hneg.
    apply N.eqb_neq in Hneg. nia.
  - nia.
Qed.

End Numbers.

(* ===================================================================== *)
(** * The menu store along runs: files, locks, ids *)
(* ===================================================================== *)

Module Durability.
Import JS JSON Store.

Section WithCodec.
Context {codec : Codec}.

(** ** What a write does to the files and to the locks *)

Lemma locks_restored (l : locks_t) :
  lock_menuData l = false -> set_lock F_menuData false (set_lock F_menuData true l) = l.
Proof. destruct l as [a b]. cbn. intros ->. reflexivity. Qed.

Lemma write_body_frame (data : value) (a : attempt) (s : state) :
  fileLocks (snd (write_body data a s)) = fileLocks s /\
  SETTINGS_FILE (disk (snd (write_body data a s))) = SETTINGS_FILE (disk s) /\
  (DATA_FILE (disk (snd (write_body data a s))) = DATA_FILE (disk s) \/
   DATA_FILE (disk (snd (write_body data a s))) = Some (stringify data)).
Proof.
  unfold write_body.
  destruct (isArray data); cbn [negb]; [|auto].
  destruct (writeFile_ok a); cbn [negb]; [|cbn; auto].
  destruct (rename_ok a); cbn [negb]; [|cbn; auto].
  destruct (getMaxId data); cbn; auto.
Qed.

Lemma write_cleanup_disk (a : attempt) (s : state) :
  fileLocks (write_cleanup a s) = set_lock F_menuData false (fileLocks s) /\
  SETTINGS_FILE (disk (write_cleanup a s)) = SETTINGS_FILE (disk s) /\
  DATA_FILE (disk (write_cleanup a s)) = DATA_FILE (disk s).
Proof. unfold write_cleanup. destruct (unlink_ok a); cbn; auto. Qed.

Lemma write_loop_frame (left : nat) :
  forall (i : nat) (data : value) (env : write_env) (s : state),
    fileLocks (snd (write_loop left i data env s)) = fileLocks s /\
    SETTINGS_FILE (disk (snd (write_loop left i data env s)))
      = SETTINGS_FILE (disk s) /\
    (DATA_FILE (disk (snd (write_loop left i data env s))) = DATA_FILE (disk s) \/
     DATA_FILE (disk (snd (write_loop left i data env s)))
       = Some (stringify data)).
Proof.
  induction left as [|left IH]; intros i data env s; [cbn; auto|].
  cbn [write_loop]. unfold acquireLock; cbn [locked].
  destruct (lock_menuData (fileLocks s) || lock_busy (env i)) eqn:Hl; [apply IH|].
  apply orb_false_elim in Hl. destruct Hl as [Hl _].
  destruct (write_body_frame data (env i)
              (with_locks (set_lock F_menuData true) s)) as (Bl & Bs & Bd).
  destruct (write_body data (env i) _) as [[u|err] s1]; cbn [snd] in *.
  - split; [|split].
    + unfold releaseLock. cbn [fileLocks with_locks]. rewrite Bl. cbn [fileLocks with_locks].
      apply locks_restored, Hl.
    + exact Bs.
    + exact Bd.
  - destruct (IH (S i) data env (write_cleanup (env i) s1)) as (Il & Is & Id).
    destruct (write_cleanup_disk (env i) s1) as (Cl & Cs & Cd).
    split; [|split].
    + rewrite Il, Cl, Bl. cbn [fileLocks with_locks]. apply locks_restored, Hl.
    + rewrite Is, Cs. exact Bs.
    + rewrite Cd in Id. destruct Id as [Id|Id]; [|right; exact Id].
      rewrite Id. exact Bd.
Qed.

(** X1. Whatever fails and whenever, [writeMenuData] returns a boolean (it
    never throws), and the data file afterwards holds either what it held
    before or the complete print of [data]: never a part of it.  After
    [true] it holds the print of [data], and the temporary file is gone.
    The settings file is not touched. *)
Theorem writeMenuData_never_tears (data : value) (env : write_env) (s : state) :
  exists b s',
    writeMenuData data env s = (Normal b, s') /\
    (DATA_FILE (disk s') = DATA_FILE (disk s) \/
     DATA_FILE (disk s') = Some (stringify data)) /\
    (b = true -> DATA_FILE (disk s') = Some (stringify data)) /\
    SETTINGS_FILE (disk s') = SETTINGS_FILE (disk s).
Proof.
  destruct (writeMenuData_total data env s) as [b Hb].
  destruct (write_loop_frame maxRetries 0 data env s) as (_ & Hs & Hd).
  fold (writeMenuData data env s) in Hs, Hd.
  destruct (writeMenuData data env s) as [c s'] eqn:E. cbn [fst snd] in *. subst c.
  exists b, s'. split; [reflexivity|]. split; [exact Hd|]. split; [|exact Hs].
  intros ->. unfold writeMenuData in E.
  destruct (write_loop_success _ _ _ _ _ _ E) as (m & _ & _ & Hf & _). exact Hf.
Qed.

(** X2. [writeMenuData] leaves the lock flags as it found them, on every
    path: a lock it took is released whether the write succeeded, threw or
    was retried, and a lock it did not get is not cleared. *)
Theorem writeMenuData_restores_locks (data : value) (env : write_env) (s : state) :
  fileLocks (snd (writeMenuData data env s)) = fileLocks s.
Proof. apply (write_loop_frame maxRetries 0 data env s). Qed.

(** ** Fault-free requests, exactly *)

(** [item.id === itemId]; [false] where the read of [id] throws. *)
Definition id_is (itemId : Z) (x : value) : bool :=
  match has_id itemId x with
  | Normal b => b
  | Throw _ => false
  end.

Lemma has_id_id_is (itemId : Z) (x : value) :
  x <> VNull -> has_id itemId x = Normal (id_is itemId x).
Proof.
  intros H. unfold id_is. destruct (has_id_nonnull itemId x H) as [b ->]. reflexivity.
Qed.

Lemma remove_id_filter (itemId : Z) (l : list value) :
  Forall (fun x => x <> VNull) l ->
  remove_id itemId l = Normal (filter (fun x => negb (id_is itemId x)) l).
Proof.
  induction 1 as [|x l Hx Hl IH]; [reflexivity|].
  cbn [remove_id filter]. rewrite (has_id_id_is itemId x Hx), IH. cbn [bind].
  destruct (id_is itemId x); reflexivity.
Qed.

Lemma filter_le {A : Type} (p : A -> bool) (l : list A) :
  (List.length (filter p l) <= List.length l)%nat.
Proof.
  induction l as [|x l IH]; [cbn; lia|].
  cbn [filter]. destruct (p x); cbn [List.length]; lia.
Qed.

Lemma filter_none {A : Type} (p : A -> bool) (l : list A) :
  existsb p l = false -> filter (fun x => negb (p x)) l = l.
Proof.
  induction l as [|x l IH]; [reflexivity|].
  cbn [existsb filter]. intros H. apply orb_false_elim in H. destruct H as [-> H].
  cbn [negb]. rewrite (IH H). reflexivity.
Qed.

Lemma filter_some {A : Type} (p : A -> bool) (l : list A) :
  existsb p l = true ->
  (List.length (filter (fun x => negb (p x)) l) < List.length l)%nat.
Proof.
  induction l as [|x l IH]; [discriminate|].
  cbn [existsb filter]. destruct (p x); cbn [negb orb List.length].
  - intros _. pose proof (filter_le (fun x => negb (p x)) l). lia.
  - intros H. specialize (IH H). lia.
Qed.

Definition deleted : value :=
  VObj [("success", VBool true); ("message", VStr "Item deleted successfully")].

Definition not_found : value :=
  VObj [("success", VBool false); ("message", VStr "Item not found")].

Lemma delete_exact (itemId : Z) (e : handler_env) (s : state) (l : list value) :
  steady e -> consistent s l -> 0 < itemId ->
  exists s',
    delete itemId e s
    = (if existsb (id_is itemId) l then Json 200 deleted else Json 404 not_found, s') /\
    consistent s' (filter (fun x => negb (id_is itemId x)) l).
Proof.
  intros [Hr Hw] Hc Hid. unfold delete.
  destruct (Z.leb_spec itemId 0) as [Hle|_]; [lia|].
  destruct (readMenuData_steady _ _ _ Hr Hc) as (al & s1 & -> & Hc1 & _).
  cbn [returned].
  rewrite (remove_id_filter itemId l (con_items _ _ Hc1)).
  destruct (existsb (id_is itemId) l) eqn:Hex.
  - pose proof (filter_some _ _ Hex) as Hlt.
    destruct (Nat.eqb_spec (List.length (filter (fun x => negb (id_is itemId x)) l))
                           (List.length l)) as [E|_]; [lia|].
    destruct (writeMenuData_steady (filter (fun x => negb (id_is itemId x)) l)
                (h_write e) s1) as (s' & -> & Hc').
    + exact Hw.
    + apply Hc1.
    + apply Forall_forall. intros x Hx. apply filter_In in Hx.
      exact (proj1 (Forall_forall _ _) (con_wf _ _ Hc1) x (proj1 Hx)).
    + apply Forall_forall. intros x Hx. apply filter_In in Hx.
      exact (proj1 (Forall_forall _ _) (con_items _ _ Hc1) x (proj1 Hx)).
    + exists s'. split; [reflexivity | exact Hc'].
  - rewrite (filter_none _ _ Hex). rewrite Nat.eqb_refl.
    exists s1. split; [reflexivity | exact Hc1].
Qed.

Lemma findIndex_first (itemId : Z) (l : list value) :
  Forall (fun x => x <> VNull) l ->
  exists r,
    findIndex itemId l = Normal r /\
    match r with
    | Some i =>
        (exists old, nth_error l i = Some old /\ id_is itemId old = true) /\
        (forall j x, (j < i)%nat -> nth_error l j = Some x -> id_is itemId x = false)
    | None => existsb (id_is itemId) l = false
    end.
Proof.
  induction 1 as [|x l Hx Hl IH].
  - exists None. split; reflexivity.
  - cbn [findIndex]. rewrite (has_id_id_is itemId x Hx). cbn [bind].
    destruct (id_is itemId x) eqn:Hb.
    + exists (Some O). split; [reflexivity|]. split.
      * exists x. split; [reflexivity | exact Hb].
      * intros j y Hj. lia.
    + destruct IH as (r & -> & Hr). cbn [bind]. destruct r as [i|].
      * exists (Some (S i)). split; [reflexivity|].
        destruct Hr as [(old & Hn & Ho) Hbefore]. split.
        -- exists old. split; [exact Hn | exact Ho].
        -- intros [|j] y Hj Hy; cbn [nth_error] in Hy.
           ++ injection Hy as <-. exact Hb.
           ++ apply (Hbefore j y); [lia | exact Hy].
      * exists None. split; [reflexivity|]. cbn [existsb]. rewrite Hb. exact Hr.
Qed.

Definition updated (item : value) : value :=
  VObj [("success", VBool true); ("item", item);
        ("message", VStr "Item updated successfully")].

Lemma update_exact (itemId : Z) (f : item_fields) (image : image_arg)
      (e : handler_env) (s : state) (l : list value) :
  steady e -> consistent s l -> num_wf (f_price f) -> 0 < itemId ->
  exists r s',
    findIndex itemId l = Normal r /\
    match r with
    | None =>
        update itemId f image e s = (Json 404 not_found, s') /\ consistent s' l
    | Some i =>
        let item := item_with_id f (update_image image (nth_error l i)) itemId in
        update itemId f image e s = (Json 200 (updated item), s') /\
        consistent s' (replace_at i item l)
    end.
Proof.
  intros [Hr Hw] Hc Hp Hid. unfold update.
  destruct (Z.leb_spec itemId 0) as [Hle|_]; [lia|].
  destruct (readMenuData_steady _ _ _ Hr Hc) as (al & s1 & -> & Hc1 & _).
  cbn [returned].
  destruct (findIndex_first itemId l (con_items _ _ Hc1)) as (r & Hfi & _).
  rewrite Hfi. destruct r as [i|].
  - set (item := item_with_id f (update_image image (nth_error l i)) itemId).
    assert (Hwf : wf_value item).
    { apply item_with_id_wf; [exact Hp|]. apply update_image_wf.
      intros x Hx. apply nth_error_In in Hx.
      exact (proj1 (Forall_forall _ _) (con_wf _ _ Hc1) x Hx). }
    destruct (writeMenuData_steady (replace_at i item l) (h_write e)
                (mutate_read (mkRead (Normal (VArr l)) al)
                             (VArr (replace_at i item l)) s1))
      as (s' & Ew & Hc').
    + exact Hw.
    + rewrite mutate_read_frame. apply Hc1.
    + apply replace_at_Forall; [apply Hc1 | exact Hwf].
    + apply replace_at_Forall; [apply Hc1 | apply item_with_id_nonnull].
    + exists (Some i), s'. split; [reflexivity|]. cbv zeta. fold item.
      rewrite Ew. split; [reflexivity | exact Hc'].
  - exists None, s1. split; [reflexivity|]. split; [reflexivity | exact Hc1].
Qed.

Lemma reachable_stored (s : state) (l : list value) :
  reachable s -> stored s = Some (VArr l) -> consistent s l.
Proof.
  intros Hs E. destruct (reachable_consistent s Hs) as [l0 Hc].
  rewrite (consistent_stored s l0 Hc) in E. injection E as <-. exact Hc.
Qed.

(** X3. In a run without file faults a read serves the file: [GET
    /api/menu] and [GET /data.json] answer 200 with exactly the collection
    the data file holds, whether the answer comes from the cache or from
    the disk, and leave that collection as it is. *)
Theorem listMenu_serves_the_file (e : handler_env) (s : state) :
  reachable s -> steady e ->
  exists l,
    stored s = Some (VArr l) /\
    fst (listMenu e s) = Json 200 (VArr l) /\
    stored (snd (listMenu e s)) = Some (VArr l).
Proof.
  intros Hs [Hr Hw]. destruct (reachable_consistent s Hs) as [l Hc].
  exists l. split; [apply (consistent_stored s l Hc)|].
  unfold listMenu.
  destruct (readMenuData_steady _ _ _ Hr Hc) as (al & s1 & -> & Hc1 & _).
  cbn [returned fst snd]. split; [reflexivity | apply (consistent_stored s1 l Hc1)].
Qed.






(** ** Ids stay unique *)

Lemma id_is_id_of (itemId : Z) (x : value) :
  wf_value x -> id_is itemId x = true -> id_of x = itemId.
Proof.
  intros Hwf. unfold id_is, has_id, id_of.
  destruct x as [ | b | n | str | l | fs]; cbn [get_prop bind is_number];
    try discriminate.
  apply wf_obj in Hwf. destruct Hwf as [_ Hwf].
  destruct (lookup "id" fs) as [v|] eqn:E; cbn [is_number]; [|discriminate].
  pose proof (lookup_wf _ _ _ Hwf E) as Hv.
  destruct v as [ | b | n | str | l | fs']; try discriminate.
  intros Hn. rewrite (Numbers.num_eqb_int n itemId Hv Hn).
  unfold parseInt_or_0. change (VNum (num_of_Z itemId)) with (VInt itemId).
  rewrite parseInt_VInt. reflexivity.
Qed.

Lemma map_replace_at (g : value -> Z) (i : nat) (y old : value) (l : list value) :
  nth_error l i = Some old -> g y = g old ->
  map g (replace_at i y l) = map g l.
Proof.
  revert i. induction l as [|x l IH]; intros [|i] Hn Hg; cbn [nth_error] in Hn;
    try discriminate; cbn [replace_at map].
  - injection Hn as ->. rewrite Hg. reflexivity.
  - rewrite (IH i Hn Hg). reflexivity.
Qed.

Lemma NoDup_map_filter (g : value -> Z) (p : value -> bool) (l : list value) :
  NoDup (map g l) -> NoDup (map g (filter p l)).
Proof.
  induction l as [|x l IH]; cbn [map filter]; [auto|].
  intros H. inversion H as [|a r Hnin Hr]; subst.
  destruct (p x); [|apply IH, Hr].
  cbn [map]. constructor; [|apply IH, Hr].
  intros Hin. apply Hnin. apply in_map_iff in Hin. destruct Hin as (y & Hy & Hin).
  apply in_map_iff. exists y. split; [exact Hy|]. apply filter_In in Hin. apply Hin.
Qed.

Lemma NoDup_snoc (l : list Z) (a : Z) : NoDup l -> ~ In a l -> NoDup (l ++ [a]).
Proof.
  induction l as [|x l IH]; intros Hl Hn; cbn [List.app].
  - constructor; [intros []|constructor].
  - inversion Hl as [|b r Hx Hr]; subst. constructor.
    + intros Hin. apply in_app_or in Hin. destruct Hin as [Hin|[->|[]]].
      * exact (Hx Hin).
      * apply Hn. left. reflexivity.
    + apply IH; [exact Hr|]. intros Hin. apply Hn. right. exact Hin.
Qed.

(** *** Ids that a number holds exactly *)

Lemma safe_id_abs (x : value) : safe_id x -> Z.abs (id_of x) <= MAX_SAFE_INTEGER.
Proof.
  intros (idv & Hg & [->|(z & -> & Hz)]); unfold id_of; rewrite Hg.
  - vm_compute. discriminate.
  - unfold parseInt_or_0. rewrite parseInt_VInt. exact Hz.
Qed.

Lemma maxid_fold_le (b : Z) (l : list value) :
  forall m,
    m <= b -> Forall (fun x => id_of x <= b) l ->
    fold_left (fun m x => if id_of x >? m then id_of x else m) l m <= b.
Proof.
  induction l as [|x l IH]; intros m Hm Hl; cbn [fold_left]; [exact Hm|].
  inversion Hl as [|? ? Hx Hr]; subst. apply IH; [|exact Hr].
  destruct (id_of x >? m); assumption.
Qed.

Lemma maxid_le (b : Z) (l : list value) :
  0 <= b -> Forall (fun x => id_of x <= b) l -> maxid l <= b.
Proof. apply maxid_fold_le. Qed.

Lemma maxid_above (l : list value) : Forall (fun x => id_of x <= maxid l) l.
Proof.
  eapply Forall_impl; [|apply (proj2 (maxid_bounds l))]. cbv beta. intros a H. lia.
Qed.

(** One request of a run without file faults, over a collection of distinct
    ids that a number holds exactly, with the highest below
    [MAX_SAFE_INTEGER]: the ids stay distinct and exact, and the highest
    grows by one at most. *)
Lemma step_unique (o : op) (e : handler_env) (s : state) (l : list value) :
  steady e -> wf_op o -> consistent s l -> NoDup (map id_of l) ->
  Forall safe_id l -> maxid l < MAX_SAFE_INTEGER ->
  exists l',
    consistent (snd (step o e s)) l' /\ NoDup (map id_of l') /\
    Forall safe_id l' /\ maxid l' <= maxid l + 1.
Proof.
  intros He Ho Hc Hnd Hsafe Hmax.
  pose proof (maxid_bounds l) as [H0 Hlt]. pose proof (maxid_above l) as Hle.
  destruct o as [f image | itemId f image | itemId | ]; cbn [step].
  - destruct (create_steady f image e s l He Hc Ho) as (s' & -> & Hc').
    rewrite (number_add_safe (maxid l)) in Hc' by lia.
    eexists. split; [exact Hc'|]. split; [|split].
    + rewrite map_app. cbn [map]. rewrite id_of_item_with_id.
      apply NoDup_snoc; [exact Hnd|].
      intros Hin. apply in_map_iff in Hin. destruct Hin as (x & Hx & Hin).
      pose proof (proj1 (Forall_forall _ _) Hlt x Hin) as Hlt'.
      cbv beta in Hlt'. lia.
    + apply Forall_app. split; [exact Hsafe|]. constructor; [|constructor].
      apply safe_id_item_with_id. lia.
    + apply maxid_le; [lia|]. apply Forall_app. split.
      * eapply Forall_impl; [|exact Hle]. cbv beta. intros a Ha. lia.
      * constructor; [|constructor]. rewrite id_of_item_with_id. lia.
  - destruct (Z.leb_spec itemId 0) as [Hle0|Hlt0].
    + exists l. split; [|split; [exact Hnd | split; [exact Hsafe | lia]]].
      unfold update.
      destruct (Z.leb_spec itemId 0) as [_|Hgt]; [exact Hc | lia].
    + destruct (update_exact itemId f image e s l He Hc Ho Hlt0) as (r & s' & Hfi & Hu).
      destruct (findIndex_first itemId l (con_items _ _ Hc)) as (r' & Hfi' & Hr).
      rewrite Hfi in Hfi'. injection Hfi' as <-.
      destruct r as [i|].
      * cbv zeta in Hu. destruct Hu as [E Hc']. rewrite E. cbn [snd].
        destruct Hr as [(old & Hn & Hold) _].
        pose proof (nth_error_In _ _ Hn) as Hin.
        assert (Hid : id_of old = itemId).
        { apply id_is_id_of; [|exact Hold].
          exact (proj1 (Forall_forall _ _) (con_wf _ _ Hc) old Hin). }
        pose proof (safe_id_abs old (proj1 (Forall_forall _ _) Hsafe old Hin)) as Hs.
        pose proof (proj1 (Forall_forall _ _) Hle old Hin) as Hm. cbv beta in Hm.
        eexists. split; [exact Hc'|]. split; [|split].
        -- rewrite (map_replace_at id_of i _ old l Hn); [exact Hnd|].
           rewrite id_of_item_with_id. symmetry. exact Hid.
        -- apply replace_at_Forall; [exact Hsafe|].
           apply safe_id_item_with_id. rewrite <- Hid. exact Hs.
        -- apply maxid_le; [lia|]. apply replace_at_Forall.
           ++ eapply Forall_impl; [|exact Hle]. cbv beta. intros a Ha. lia.
           ++ rewrite id_of_item_with_id. lia.
      * destruct Hu as [E Hc']. rewrite E. exists l.
        split; [exact Hc'|]. split; [exact Hnd|]. split; [exact Hsafe | lia].
  - destruct (Z.leb_spec itemId 0) as [Hle0|Hlt0].
    + exists l. split; [|split; [exact Hnd | split; [exact Hsafe | lia]]].
      unfold delete.
      destruct (Z.leb_spec itemId 0) as [_|Hgt]; [exact Hc | lia].
    + destruct (delete_exact itemId e s l He Hc Hlt0) as (s' & E & Hc').
      rewrite E. eexists. split; [exact Hc'|].
      split; [apply NoDup_map_filter, Hnd|].
      assert (Hf : forall P : value -> Prop,
                 Forall P l ->
                 Forall P (filter (fun x => negb (id_is itemId x)) l)).
      { intros P HP. apply Forall_forall. intros x Hx. apply filter_In in Hx.
        exact (proj1 (Forall_forall _ _) HP x (proj1 Hx)). }
      split; [apply Hf, Hsafe|].
      apply maxid_le; [lia|]. apply Hf.
      eapply Forall_impl; [|exact Hle]. cbv beta. intros a Ha. lia.
  - exists l. split; [apply (listMenu_steady e s l He Hc)|].
    split; [exact Hnd|]. split; [exact Hsafe | lia].
Qed.

(** X6. Ids stay unique.  From a state whose stored collection has no two
    items with the same id, its ids integers that a number holds exactly (or
    missing), every run of creates, updates, deletes and reads without file
    faults that is short enough for the highest id to stay below
    [MAX_SAFE_INTEGER] ends in a state whose stored collection has no two
    items with the same id, and whose ids are again such integers. *)
Theorem ids_stay_unique (ops : list (op * handler_env)) (s : state) (l : list value) :
  reachable s -> stored s = Some (VArr l) -> NoDup (map id_of l) ->
  Forall safe_id l -> maxid l + Z.of_nat (List.length ops) <= MAX_SAFE_INTEGER ->
  Forall (fun oe => wf_op (fst oe) /\ steady (snd oe)) ops ->
  exists l',
    stored (snd (run ops s)) = Some (VArr l') /\ NoDup (map id_of l') /\
    Forall safe_id l'.
Proof.
  intros Hs E Hnd Hsafe Hroom Hops. pose proof (reachable_stored s l Hs E) as Hc.
  clear Hs E. revert s l Hc Hnd Hsafe Hroom.
  induction Hops as [|[o e] ops [Ho He] Hops IH]; intros s l Hc Hnd Hsafe Hroom.
  - exists l. split; [apply (consistent_stored s l Hc)|]. split; assumption.
  - cbn [run]. cbn [fst snd] in Ho, He. cbn [List.length] in Hroom.
    destruct (step_unique o e s l He Ho Hc Hnd Hsafe ltac:(lia))
      as (l1 & Hc1 & Hnd1 & Hsafe1 & Hmax1).
    destruct (step o e s) as [r s1]. cbn [snd] in Hc1.
    destruct (IH s1 l1 Hc1 Hnd1 Hsafe1 ltac:(lia)) as (l' & E' & Hnd' & Hsafe').
    destruct (run ops s1) as [rs s2]. cbn [snd] in *.
    exists l'. split; [exact E'|]. split; assumption.
Qed.

(** ** A create that cannot be saved *)


Definition save_failed : value :=
  VObj [("success", VBool false); ("message", VStr "Failed to save item")].

Definition added (item : value) : value :=
  VObj [("success", VBool true); ("item", item);
        ("message", VStr "Item added successfully")].





End WithCodec.

(** ** Worked examples, over the reference codec *)

Lemma calm_steady (t : Z) : steady (calm t).
Proof. repeat split; reflexivity. Qed.

Lemma fresh_start : reachable (initial 5000 no_files).
Proof. apply reach_start. left. reflexivity. Defined.

(** A process that has stored one burger. *)
Definition one_stored : state :=
  snd (step (Create burger None) (calm 1000) (initial 5000 no_files)).

Lemma one_stored_reachable : reachable one_stored.
Proof.
  apply reach_step; [exact fresh_start | apply calm_steady | reflexivity].
Defined.

(** The first read of a process started without files. *)
Lemma listMenu_serves_the_file_witness :
  reachable one_stored /\ steady (calm 2000) /\
  exists l,
    stored one_stored = Some (VArr l) /\
    fst (listMenu (calm 2000) one_stored) = Json 200 (VArr l) /\
    stored (snd (listMenu (calm 2000) one_stored)) = Some (VArr l).
Proof.
  split; [exact one_stored_reachable|]. split; [apply calm_steady|].
  exact (listMenu_serves_the_file (calm 2000) one_stored
           one_stored_reachable (calm_steady 2000)).
Defined.


Definition salad : item_fields :=
  mkFields "Salad" "starters" (mkNumber false 4 (D5 Nil)) "" ["green"].


(** A day of edits. *)
Definition edits : list (op * handler_env) :=
  [ (Create burger None, calm 1000);
    (Create salad None, calm 2000);
    (Update 1 salad (ImageGiven None), calm 3000);
    (Delete 2, calm 4000);
    (Create burger None, calm 5000);
    (ListMenu, calm 6000) ].

Lemma ids_stay_unique_witness :
  reachable one_stored /\
  stored one_stored = Some (VArr one_burger) /\
  NoDup (map id_of one_burger) /\
  Forall safe_id one_burger /\
  maxid one_burger + Z.of_nat (List.length edits) <= MAX_SAFE_INTEGER /\
  Forall (fun oe => wf_op (fst oe) /\ steady (snd oe)) edits /\
  exists l',
    stored (snd (run edits one_stored)) = Some (VArr l') /\
    NoDup (map id_of l') /\ Forall safe_id l'.
Proof.
  assert (Hops : Forall (fun oe => wf_op (fst oe) /\ steady (snd oe)) edits).
  { repeat (constructor; [split; [cbn; try reflexivity; exact I | apply calm_steady]|]).
    constructor. }
  assert (Hst : stored one_stored = Some (VArr one_burger))
    by (vm_compute; reflexivity).
  assert (Hnd : NoDup (map id_of one_burger)).
  { constructor; [intros [] | constructor]. }
  assert (Hsafe : Forall safe_id one_burger).
  { constructor; [|constructor]. apply safe_id_item_with_id. vm_compute. discriminate. }
  assert (Hroom : maxid one_burger + Z.of_nat (List.length edits) <= MAX_SAFE_INTEGER)
    by (vm_compute; discriminate).
  split; [exact one_stored_reachable|]. split; [exact Hst|]. split; [exact Hnd|].
  split; [exact Hsafe|]. split; [exact Hroom|]. split; [exact Hops|].
  exact (ids_stay_unique edits one_stored one_burger one_stored_reachable Hst
           Hnd Hsafe Hroom Hops).
Defined.

(** The day of edits over the stored burger: the two creates give the ids
    2 and 3, the item 1 becomes a salad, the item 2 is deleted and the last
    create gives the id 4. *)
Lemma edits_stored :
  option_map (fun v => match v with VArr l => map id_of l | _ => [] end)
             (stored (snd (run edits one_stored)))
  = Some [1; 3; 4].
Proof. vm_compute. reflexivity. Qed.







End Durability.

(* ===================================================================== *)
(** * Strings as lists of code units *)
(* ===================================================================== *)

Module Strings.
Import JS.

(** The code units of a string. *)
Definition chars (s : string) : list ascii := list_ascii_of_string s.

Lemma chars_inj (a b : string) : chars a = chars b -> a = b.
Proof.
  intros H. rewrite <- (string_of_list_ascii_of_string a),
              <- (string_of_list_ascii_of_string b).
  unfold chars in H. rewrite H. reflexivity.
Qed.

Fixpoint drop_space (l : list ascii) : list ascii :=
  match l with
  | c :: r => if is_space c then drop_space r else l
  | [] => []
  end.

Lemma chars_trim_start (s : string) : chars (trim_start s) = drop_space (chars s).
Proof.
  induction s as [|c r IH]; [reflexivity|].
  cbn [trim_start chars list_ascii_of_string drop_space].
  destruct (is_space c); [exact IH | reflexivity].
Qed.

Lemma chars_rev_acc (s acc : string) :
  chars (string_rev_acc s acc) = List.rev (chars s) ++ chars acc.
Proof.
  revert acc. induction s as [|c r IH]; intros acc; [reflexivity|].
  cbn [string_rev_acc chars list_ascii_of_string List.rev]. rewrite IH.
  cbn [chars list_ascii_of_string]. rewrite <- List.app_assoc. reflexivity.
Qed.

Lemma chars_rev (s : string) : chars (string_rev s) = List.rev (chars s).
Proof. unfold string_rev. rewrite chars_rev_acc. apply List.app_nil_r. Qed.

Lemma chars_trim (s : string) :
  chars (trim s) = List.rev (drop_space (List.rev (drop_space (chars s)))).
Proof.
  unfold trim. rewrite chars_rev, chars_trim_start, chars_rev, chars_trim_start.
  reflexivity.
Qed.

Lemma drop_space_incl (l : list ascii) (c : ascii) :
  In c (drop_space l) -> In c l.
Proof.
  induction l as [|x l IH]; [auto|]. cbn [drop_space].
  destruct (is_space x); [right; auto | auto].
Qed.

Lemma drop_space_idem (l : list ascii) : drop_space (drop_space l) = drop_space l.
Proof.
  induction l as [|x l IH]; [reflexivity|]. cbn [drop_space].
  destruct (is_space x) eqn:E; [exact IH|]. cbn [drop_space]. rewrite E. reflexivity.
Qed.

(** A list that does not start with white space. *)
Definition starts_clean (l : list ascii) : Prop := drop_space l = l.

Lemma drop_space_clean (l : list ascii) : starts_clean (drop_space l).
Proof. apply drop_space_idem. Qed.

Lemma drop_space_app_clean (a b : list ascii) (c : ascii) :
  is_space c = false -> drop_space (a ++ c :: b) = drop_space a ++ c :: b.
Proof.
  intros Hc. induction a as [|x a IH]; cbn [List.app drop_space].
  - rewrite Hc. reflexivity.
  - destruct (is_space x); [exact IH | reflexivity].
Qed.

Lemma drop_space_all (a : list ascii) :
  drop_space a = [] \/ exists c r, drop_space a = c :: r /\ is_space c = false.
Proof.
  induction a as [|x a IH]; [left; reflexivity|]. cbn [drop_space].
  destruct (is_space x) eqn:E; [exact IH|]. right. exists x, a. split; auto.
Qed.

(** Dropping white space at the end keeps a clean start. *)
Lemma trim_end_clean (l : list ascii) :
  starts_clean l -> starts_clean (List.rev (drop_space (List.rev l))).
Proof.
  unfold starts_clean. intros H.
  destruct l as [|c r]; [reflexivity|].
  assert (Hc : is_space c = false).
  { cbn [drop_space] in H. destruct (is_space c) eqn:E; [|reflexivity].
    exfalso. pose proof (f_equal (@List.length ascii) H) as Hl.
    assert (Hle : forall l, (List.length (drop_space l) <= List.length l)%nat).
    { induction l as [|x l IH]; [cbn; lia|]. cbn [drop_space].
      destruct (is_space x); cbn [List.length]; lia. }
    specialize (Hle r). cbn [List.length] in Hl. lia. }
  cbn [List.rev]. rewrite (drop_space_app_clean (List.rev r) [] c Hc).
  rewrite List.rev_app_distr. cbn [List.rev List.app]. cbn [drop_space]. rewrite Hc. reflexivity.
Qed.

Lemma trim_chars_idem (l : list ascii) :
  let t := List.rev (drop_space (List.rev (drop_space l))) in
  List.rev (drop_space (List.rev (drop_space t))) = t.
Proof.
  cbv zeta.
  pose proof (trim_end_clean (drop_space l) (drop_space_clean l)) as H.
  unfold starts_clean in H. rewrite H. rewrite List.rev_involutive, drop_space_idem.
  reflexivity.
Qed.

Lemma trim_idem (s : string) : trim (trim s) = trim s.
Proof.
  apply chars_inj. rewrite (chars_trim (trim s)), chars_trim.
  apply trim_chars_idem.
Qed.

Lemma trim_incl (s : string) (c : ascii) : In c (chars (trim s)) -> In c (chars s).
Proof.
  rewrite chars_trim. intros H. apply in_rev in H. apply drop_space_incl in H.
  apply in_rev in H. apply drop_space_incl in H. exact H.
Qed.

End Strings.

(* ===================================================================== *)
(** * Input validation and [POST /api/menu] *)
(* ===================================================================== *)

Module Validate.
Import JS JSON Store Settings Strings.

(** ** [sanitizeString] *)

(** [/[\x00-\x08\x0B-\x0C\x0E-\x1F\x7F]/]. *)
Definition is_control (c : ascii) : bool :=
  let n := nat_of_ascii c in
  ((n <=? 8) || (11 <=? n) && (n <=? 12) || (14 <=? n) && (n <=? 31) ||
   (n =? 127))%nat.

(** [str.replace(/[\x00-\x08\x0B-\x0C\x0E-\x1F\x7F]/g, "")]. *)
Fixpoint strip_control (s : string) : string :=
  match s with
  | EmptyString => EmptyString
  | String c r =>
      if is_control c then strip_control r else String c (strip_control r)
  end.

Definition sanitizeString (str : option value) : string :=
  match str with
  | Some (VStr s) => trim (strip_control s)
  | _ => ""
  end.

(** ** [validateMenuItem] *)

(** The result [{ valid: true }] or [{ valid: false, error }]. *)
Inductive validation : Type :=
| Valid
| Invalid (error : string).

(** The six properties [validateMenuItem] reads off an item.  [item.price]
    is [Some x] when it is a number, [NaN] and the infinities included, and
    [None] when it is of another type or missing. *)
Record menu_item : Type := mkItem {
  i_name : option value;
  i_category : option value;
  i_price : option fnum;
  i_description : option value;
  i_tags : option value;
  i_image : option value
}.

(** [typeof v === "string"]. *)
Definition typeof_string (v : option value) : bool :=
  match v with
  | Some (VStr _) => true
  | _ => false
  end.

(** The string a value of type string is. *)
Definition string_of (v : option value) : string :=
  match v with
  | Some (VStr s) => s
  | _ => ""
  end.

(** [s.length]. *)
Definition len (s : string) : Z := Z.of_nat (String.length s).

(** [!v || typeof v !== "string" || v.trim().length === 0]. *)
Definition blank (v : option value) : bool :=
  negb (truthy v) || negb (typeof_string v) || (len (trim (string_of v)) =? 0).

Definition and_then (v k : validation) : validation :=
  match v with
  | Valid => k
  | Invalid error => Invalid error
  end.

Definition check_name (item : menu_item) : validation :=
  if blank (i_name item)
  then Invalid "Item name is required and must be a non-empty string"
  else
    let sanitizedName := sanitizeString (i_name item) in
    if len sanitizedName =? 0 then Invalid "Item name contains invalid characters"
    else if len sanitizedName >? 200
         then Invalid "Item name must be 200 characters or less"
         else Valid.

Definition check_category (item : menu_item) : validation :=
  if blank (i_category item)
  then Invalid "Category is required and must be a non-empty string"
  else
    let sanitizedCategory := sanitizeString (i_category item) in
    if len sanitizedCategory =? 0 then Invalid "Category contains invalid characters"
    else if len sanitizedCategory >? 100
         then Invalid "Category must be 100 characters or less"
         else Valid.

(** The negation of
    [typeof price !== "number" || isNaN(price) || !isFinite(price) ||
     price < 0 || price > 500]. *)
Definition price_ok (price : option fnum) : bool :=
  match price with
  | Some (FFin n) => num_leb (dec 0 Nil) n && num_leb n (dec 500 Nil)
  | _ => false
  end.

Definition check_price (item : menu_item) : validation :=
  if price_ok (i_price item) then Valid
  else Invalid "Price must be a number between 0 and 500".

Definition check_description (item : menu_item) : validation :=
  if truthy (i_description item) then
    if negb (typeof_string (i_description item))
    then Invalid "Description must be a string"
    else if len (sanitizeString (i_description item)) >? 1000
         then Invalid "Description must be 1000 characters or less"
         else Valid
  else Valid.

(** The loop [for (const tag of item.tags)]. *)
Fixpoint check_each_tag (tags : list value) : validation :=
  match tags with
  | [] => Valid
  | tag :: rest =>
      if negb (typeof_string (Some tag)) || (len (sanitizeString (Some tag)) =? 0)
      then Invalid "All tags must be non-empty strings"
      else if len (sanitizeString (Some tag)) >? 50
           then Invalid "Each tag must be 50 characters or less"
           else check_each_tag rest
  end.

Definition check_tags (item : menu_item) : validation :=
  if truthy (i_tags item) then
    match i_tags item with
    | Some (VArr tags) => check_each_tag tags
    | _ => Invalid "Tags must be an array"
    end
  else Valid.

(** A character of the class [[A-Za-z0-9+/=\s]]. *)
Definition is_base64_char (c : ascii) : bool :=
  let n := nat_of_ascii c in
  ((65 <=? n) && (n <=? 90) || (97 <=? n) && (n <=? 122) ||
   (48 <=? n) && (n <=? 57) || (n =? 43) || (n =? 47) || (n =? 61))%nat ||
  is_space c.

Fixpoint all_chars (p : ascii -> bool) (s : string) : bool :=
  match s with
  | EmptyString => true
  | String c r => p c && all_chars p r
  end.

(** [/^[A-Za-z0-9+/=\s]+$/] matches [s]. *)
Definition is_base64_text (s : string) : bool :=
  negb (s =? "")%string && all_chars is_base64_char s.

Definition check_image (item : menu_item) : validation :=
  if truthy (i_image item) && typeof_string (i_image item) then
    let imageStr := trim (string_of (i_image item)) in
    if negb (String.prefix "data:image/" imageStr) && negb (is_base64_text imageStr)
    then Invalid "Invalid image format"
    else if len imageStr >? 5 * 1024 * 1024
         then Invalid "Image size exceeds 5MB limit"
         else Valid
  else Valid.

Definition validateMenuItem (item : menu_item) : validation :=
  and_then (check_name item)
 (and_then (check_category item)
 (and_then (check_price item)
 (and_then (check_description item)
 (and_then (check_tags item)
           (check_image item))))).

(** The properties of an item that is a value of the JSON data model, as
    the import reads them; the first read throws on [null]. *)
Definition price_of (v : option value) : option fnum :=
  match v with
  | Some (VNum n) => Some (FFin n)
  | _ => None
  end.

Definition item_of_value (v : value) : completion menu_item :=
  name <- get_prop (Some v) "name" ;;
  Normal (mkItem name (prop v "category") (price_of (prop v "price"))
                 (prop v "description") (prop v "tags") (prop v "image")).

(** ** [POST /api/menu] *)

(** [s.split(",")]. *)
Fixpoint split_comma (s : string) : list string :=
  match s with
  | EmptyString => [""]
  | String c r =>
      if (c =? ",")%char then "" :: split_comma r
      else
        match split_comma r with
        | x :: xs => String c x :: xs
        | [] => [String c ""]
        end
  end.

Definition nonempty (s : string) : bool := negb (s =? "")%string.

(** The array [tagsArray]:
<<
   let tagsArray = [];
   if (tags) {
     if (Array.isArray(tags)) {
       tagsArray = tags.map((t) => String(t).trim()).filter((t) => t);
     } else if (typeof tags === "string") {
       tagsArray = tags.split(",").map((t) => t.trim()).filter((t) => t);
     }
   }
>> *)
Definition request_tags (tags : option value) : list string :=
  if truthy tags then
    match tags with
    | Some (VArr l) => List.filter nonempty (map (fun t => trim (ToString t)) l)
    | Some (VStr s) => List.filter nonempty (map trim (split_comma s))
    | _ => []
    end
  else [].

(** [image ? String(image).trim() : null]. *)
Definition request_image (image : option value) : value :=
  if truthy image then VStr (trim (String_ image)) else VNull.

(** [sanitizeString(String(v || ""))]. *)
Definition sanitized (v : option value) : string :=
  sanitizeString (Some (VStr (String_ (or_else v (Some (VStr "")))))).

(** The object [newItem], before it gets its id. *)
Record new_item : Type := mkNew {
  n_name : string;
  n_category : string;
  n_price : fnum;
  n_description : string;
  n_tags : list string;
  n_image : value
}.

(** [newItem] as [validateMenuItem] reads it. *)
Definition view (n : new_item) : menu_item :=
  mkItem (Some (VStr (n_name n))) (Some (VStr (n_category n)))
         (Some (n_price n)) (Some (VStr (n_description n)))
         (Some (VArr (map VStr (n_tags n)))) (Some (n_image n)).

(** The properties of [newItem], in order.  A price that is not finite
    never gets past [validateMenuItem]; JSON has no literal for it. *)
Definition literal (n : new_item) : list (string * value) :=
  [ ("name", VStr (n_name n));
    ("category", VStr (n_category n));
    ("price", fnum_value (n_price n));
    ("description", VStr (n_description n));
    ("tags", VArr (map VStr (n_tags n)));
    ("image", n_image n) ].

Definition rejected (error : string) : value :=
  VObj [("success", VBool false); ("message", VStr error)].

Definition added (item : value) : value :=
  VObj [("success", VBool true); ("item", item);
        ("message", VStr "Item added successfully")].

Definition save_failed : value :=
  VObj [("success", VBool false); ("message", VStr "Failed to save item")].

Section WithRuntime.
Context {codec : Codec}.

(** [parseFloat] is the runtime's. *)
Variable parseFloat : option value -> fnum.

Definition newItem (body : value) : new_item :=
  mkNew (sanitized (prop body "name"))
        (sanitized (prop body "category"))
        (parseFloat (prop body "price"))
        (sanitized (prop body "description"))
        (map (fun tag => sanitizeString (Some (VStr tag)))
             (request_tags (prop body "tags")))
        (request_image (prop body "image")).

(** The handler from [readMenuData] on, for the properties [lit] of
    [newItem]. *)
Definition store_new (lit : list (string * value)) (e : handler_env) (s : state)
  : reply * state :=
  let '(r, s1) := readMenuData (h_read e) s in
  match returned r with
  | Throw err => (Next err, s1)
  | Normal menu =>
      match current_maxId menu (h_now e) s1 with
      | (Throw err, s2) => (Next err, s2)
      | (Normal m, s2) =>
          let newId := number_add m 1 in
          let item := VObj (lit ++ [("id", VInt newId)]) in
          match menu with
          | VArr l =>
              let data := VArr (l ++ [item]) in
              let s3 := mutate_read r data s2 in
              match writeMenuData data (h_write e) s3 with
              | (Normal true, s4) => (Json 200 (added item), s4)
              | (Normal false, s4) => (Json 500 save_failed, s4)
              | (Throw err, s4) => (Next err, s4)
              end
          | _ => (Next TypeError, s2)
          end
      end
  end.

(** [POST /api/menu], after [requireAuth] and [csrfProtection]. *)
Definition post_menu (body : value) (e : handler_env) (s : state) : reply * state :=
  match get_prop (Some body) "name" with
  | Throw err => (Next err, s)
  | Normal _ =>
      let n := newItem body in
      match validateMenuItem (view n) with
      | Invalid error => (Json 400 (rejected error), s)
      | Valid => store_new (literal n) e s
      end
  end.

End WithRuntime.

(** The handler of the store is this one on an accepted item. *)
Lemma create_store_new {codec : Codec} (f : item_fields) (image : option string)
      (e : handler_env) (s : state) :
  create f image e s = store_new (item_literal f (create_image image)) e s.
Proof. reflexivity. Qed.

(** ** Properties of [sanitizeString] *)

Lemma chars_strip_control (s : string) :
  chars (strip_control s) = List.filter (fun c => negb (is_control c)) (chars s).
Proof.
  induction s as [|c r IH]; [reflexivity|].
  cbn [strip_control chars list_ascii_of_string List.filter].
  destruct (is_control c); cbn [negb chars list_ascii_of_string];
    unfold chars in IH; rewrite IH; reflexivity.
Qed.

Lemma strip_control_id (s : string) :
  (forall c, In c (chars s) -> is_control c = false) -> strip_control s = s.
Proof.
  induction s as [|c r IH]; intros H; [reflexivity|].
  cbn [strip_control]. rewrite (H c) by (left; reflexivity).
  rewrite IH; [reflexivity|]. intros x Hx. apply H. right. exact Hx.
Qed.

Lemma drop_space_nil (l : list ascii) :
  drop_space l = [] <-> forallb is_space l = true.
Proof.
  induction l as [|c r IH]; [split; reflexivity|].
  cbn [drop_space forallb]. destruct (is_space c); cbn [andb]; [exact IH|].
  split; discriminate.
Qed.

Lemma trim_chars_nil (l : list ascii) :
  List.rev (drop_space (List.rev (drop_space l))) = [] <-> forallb is_space l = true.
Proof.
  rewrite <- drop_space_nil. split.
  - intros H. destruct (drop_space_all l) as [E|(c & r & E & Hc)]; [exact E|].
    exfalso. rewrite E in H. cbn [List.rev] in H.
    rewrite (drop_space_app_clean (List.rev r) [] c Hc) in H.
    rewrite List.rev_app_distr in H. discriminate H.
  - intros ->. reflexivity.
Qed.

Lemma trim_empty (s : string) : trim s = "" <-> forallb is_space (chars s) = true.
Proof.
  rewrite <- trim_chars_nil, <- chars_trim. split.
  - intros ->. reflexivity.
  - intros H. apply chars_inj. exact H.
Qed.

Lemma len_0 (s : string) : len s = 0 <-> s = "".
Proof.
  unfold len. destruct s; cbn [String.length]; split; try reflexivity;
    try discriminate; lia.
Qed.

Lemma len_nonneg (s : string) : 0 <= len s.
Proof. unfold len. lia. Qed.

(** White space stays white space when control characters are removed. *)
Lemma sanitize_blank (s : string) : trim s = "" -> trim (strip_control s) = "".
Proof.
  rewrite !trim_empty, chars_strip_control. intros H.
  apply forallb_forall. intros c Hc. apply filter_In in Hc.
  exact (proj1 (forallb_forall _ _) H c (proj1 Hc)).
Qed.

(** X9. [sanitizeString] returns a string without any of the control
    characters it removes and without white space at either end; applying it
    again changes nothing; and a value that is not a string gives the empty
    string. *)
Theorem sanitizeString_clean (v : option value) :
  (forall c, In c (chars (sanitizeString v)) -> is_control c = false) /\
  trim (sanitizeString v) = sanitizeString v /\
  sanitizeString (Some (VStr (sanitizeString v))) = sanitizeString v /\
  (typeof_string v = false -> sanitizeString v = "").
Proof.
  assert (Hclean : forall s c, In c (chars (trim (strip_control s))) ->
                               is_control c = false).
  { intros s c Hc. apply trim_incl in Hc. rewrite chars_strip_control in Hc.
    apply filter_In in Hc. apply negb_true_iff. apply Hc. }
  destruct v as [[ | b | n | s | l | fs]|]; cbn [sanitizeString typeof_string];
    try (repeat split; try reflexivity; intros c []).
  split; [apply Hclean|]. split; [apply trim_idem|]. split; [|discriminate].
  rewrite (strip_control_id _ (Hclean s)). apply trim_idem.
Qed.

(** ** What [validateMenuItem] accepts *)

(** A string whose sanitized form has between 1 and [limit] characters. *)
Definition text_within (v : option value) (limit : Z) : Prop :=
  exists s, v = Some (VStr s) /\ 1 <= len (sanitizeString v) <= limit.

Definition price_within (price : option fnum) : Prop :=
  exists n, price = Some (FFin n) /\ (0 <= num_Q n)%Q /\ (num_Q n <= 500)%Q.

Definition description_within (v : option value) : Prop :=
  truthy v = false \/
  exists s, v = Some (VStr s) /\ len (sanitizeString v) <= 1000.

Definition tags_within (v : option value) : Prop :=
  truthy v = false \/
  exists l, v = Some (VArr l) /\ Forall (fun tag => text_within (Some tag) 50) l.

Definition image_within (v : option value) : Prop :=
  forall s, v = Some (VStr s) -> s <> "" ->
    (String.prefix "data:image/" (trim s) = true \/ is_base64_text (trim s) = true) /\
    len (trim s) <= 5 * 1024 * 1024.

Record acceptable (item : menu_item) : Prop := {
  acc_name : text_within (i_name item) 200;
  acc_category : text_within (i_category item) 100;
  acc_price : price_within (i_price item);
  acc_description : description_within (i_description item);
  acc_tags : tags_within (i_tags item);
  acc_image : image_within (i_image item)
}.

Lemma text_check (v : option value) (limit : Z) (e1 e2 e3 : string) :
  (if blank v then Invalid e1
   else if len (sanitizeString v) =? 0 then Invalid e2
        else if len (sanitizeString v) >? limit then Invalid e3 else Valid) = Valid
  <-> text_within v limit.
Proof.
  unfold text_within, blank.
  destruct v as [[ | b | n | s | l | fs]|];
    cbn [truthy typeof_string negb orb string_of];
    try (split; [discriminate | intros (s0 & E & _); discriminate E]).
  - destruct b; cbn; (split; [discriminate | intros (s0 & E & _); discriminate E]).
  - destruct (negb (Qeq_bool (num_Q n) 0)); cbn;
      (split; [discriminate | intros (s0 & E & _); discriminate E]).
  - pose proof (len_nonneg (sanitizeString (Some (VStr s)))) as Hn.
    destruct (s =? "")%string eqn:Es; cbn [negb orb].
    + apply String.eqb_eq in Es. subst s. split; [discriminate|].
      intros (s0 & _ & H). cbn in H. lia.
    + destruct (Z.eqb_spec (len (trim s)) 0) as [Et|Et].
      * split; [discriminate|]. intros (s0 & _ & H). exfalso.
        apply len_0 in Et. apply sanitize_blank in Et.
        cbn [sanitizeString] in H. rewrite Et in H. cbn in H. lia.
      * destruct (Z.eqb_spec (len (sanitizeString (Some (VStr s)))) 0) as [E0|E0].
        -- split; [discriminate|]. intros (s0 & _ & H). lia.
        -- destruct (Z.gtb_spec (len (sanitizeString (Some (VStr s)))) limit) as [Hgt|Hle].
           ++ split; [discriminate|]. intros (s0 & _ & H). lia.
           ++ split; [|reflexivity]. intros _. exists s. split; [reflexivity | lia].
Qed.

Lemma price_check (price : option fnum) : price_ok price = true <-> price_within price.
Proof.
  unfold price_ok, price_within.
  destruct price as [[ | | n | ]|];
    try (split; [discriminate | intros (n0 & E & _); discriminate E]).
  assert (E0 : (num_Q (dec 0 Nil) == 0)%Q) by reflexivity.
  assert (E5 : (num_Q (dec 500 Nil) == 500)%Q) by reflexivity.
  unfold num_leb. split.
  - intros H. apply andb_prop in H. destruct H as [H0 H5].
    apply Qle_bool_iff in H0. apply Qle_bool_iff in H5.
    rewrite E0 in H0. rewrite E5 in H5.
    exists n. split; [reflexivity|]. split; assumption.
  - intros (n0 & [= <-] & H0 & H5). apply andb_true_intro.
    split; apply Qle_bool_iff; [rewrite E0 | rewrite E5]; assumption.
Qed.

Lemma description_check (item : menu_item) :
  check_description item = Valid <-> description_within (i_description item).
Proof.
  unfold check_description, description_within.
  destruct (truthy (i_description item)) eqn:Ht; [|split; auto].
  destruct (i_description item) as [[ | b | n | s | l | fs]|];
    cbn [typeof_string negb];
    try (split; [discriminate | intros [E|(s0 & E & _)]; discriminate E]).
  destruct (Z.gtb_spec (len (sanitizeString (Some (VStr s)))) 1000) as [Hgt|Hle].
  - split; [discriminate|]. intros [E|(s0 & _ & H)]; [discriminate E | lia].
  - split; [|reflexivity]. intros _. right. exists s. split; [reflexivity | lia].
Qed.

Lemma each_tag_check (tags : list value) :
  check_each_tag tags = Valid <-> Forall (fun tag => text_within (Some tag) 50) tags.
Proof.
  induction tags as [|tag rest IH]; [split; auto|].
  cbn [check_each_tag].
  pose proof (len_nonneg (sanitizeString (Some tag))) as Hn.
  assert (Hstr : typeof_string (Some tag) = false ->
                 ~ text_within (Some tag) 50).
  { intros Ht (s & [= ->] & _). discriminate Ht. }
  destruct (typeof_string (Some tag)) eqn:Ht; cbn [negb orb].
  - destruct (Z.eqb_spec (len (sanitizeString (Some tag))) 0) as [E0|E0].
    + split; [discriminate|]. intros H. inversion H as [|x r (s & _ & Hx) Hr]; subst. lia.
    + destruct (Z.gtb_spec (len (sanitizeString (Some tag))) 50) as [Hgt|Hle].
      * split; [discriminate|]. intros H.
        inversion H as [|x r (s & _ & Hx) Hr]; subst. lia.
      * rewrite IH. split.
        -- intros H. constructor; [|exact H].
           destruct tag; try discriminate Ht. eexists. split; [reflexivity | lia].
        -- intros H. inversion H; subst. assumption.
  - split; [discriminate|]. intros H. inversion H; subst. exfalso.
    apply (Hstr eq_refl). assumption.
Qed.

Lemma tags_check (item : menu_item) :
  check_tags item = Valid <-> tags_within (i_tags item).
Proof.
  unfold check_tags, tags_within.
  destruct (truthy (i_tags item)) eqn:Ht; [|split; auto].
  destruct (i_tags item) as [[ | b | n | s | l | fs]|];
    try (split; [discriminate | intros [E|(l0 & E & _)]; discriminate E]).
  rewrite each_tag_check. split.
  - intros H. right. exists l. split; [reflexivity | exact H].
  - intros [E|(l0 & [= <-] & H)]; [discriminate E | exact H].
Qed.

Lemma image_check (item : menu_item) :
  check_image item = Valid <-> image_within (i_image item).
Proof.
  unfold check_image, image_within.
  destruct (i_image item) as [[ | b | n | s | l | fs]|];
    cbn [truthy typeof_string andb string_of];
    try (rewrite andb_false_r);
    try (split; [intros _ s0 E; discriminate E | reflexivity]).
  destruct (s =? "")%string eqn:Es; cbn [negb].
  - apply String.eqb_eq in Es. subst s. split; [|reflexivity].
    intros _ s0 [= <-] H. contradiction.
  - apply String.eqb_neq in Es.
    assert (Hcase : forall b : bool,
      (if b && negb (is_base64_text (trim s)) then Invalid "Invalid image format"
       else if len (trim s) >? 5 * 1024 * 1024
            then Invalid "Image size exceeds 5MB limit" else Valid) = Valid <->
      ((negb b = true \/ is_base64_text (trim s) = true) /\
       len (trim s) <= 5 * 1024 * 1024)).
    { intros b.
      destruct (Z.gtb_spec (len (trim s)) (5 * 1024 * 1024)) as [Hgt|Hle];
        destruct b, (is_base64_text (trim s)); cbn [negb andb];
        split; try discriminate; try reflexivity;
        try (intros [_ H]; lia); try (intros [[H|H] _]; discriminate H);
        intros _; (split; [auto | lia]). }
    cbv zeta. rewrite (Hcase (negb (String.prefix "data:image/" (trim s)))).
    rewrite negb_involutive. split.
    + intros H s0 [= <-] _. exact H.
    + intros H. exact (H s eq_refl Es).
Qed.

(** X10. [validateMenuItem] accepts an item exactly when: its name and its
    category are strings whose sanitized forms have 1 to 200 and 1 to 100
    characters; its price is a finite number between 0 and 500; its
    description is empty, missing or a string of at most 1000 sanitized
    characters; its tags are missing or an array of strings of 1 to 50
    sanitized characters each; and its image, when a non-empty string, is
    after trimming a [data:image/] URL or base64 text of at most 5 MB. *)
Theorem validateMenuItem_accepts (item : menu_item) :
  validateMenuItem item = Valid <-> acceptable item.
Proof.
  unfold validateMenuItem.
  pose proof (text_check (i_name item) 200
                "Item name is required and must be a non-empty string"
                "Item name contains invalid characters"
                "Item name must be 200 characters or less") as Hname.
  pose proof (text_check (i_category item) 100
                "Category is required and must be a non-empty string"
                "Category contains invalid characters"
                "Category must be 100 characters or less") as Hcat.
  fold (check_name item) in Hname. fold (check_category item) in Hcat.
  pose proof (price_check (i_price item)) as Hprice.
  pose proof (description_check item) as Hdesc.
  pose proof (tags_check item) as Htags.
  pose proof (image_check item) as Himg.
  unfold check_price.
  split.
  - intros H.
    destruct (check_name item); [|discriminate H].
    destruct (check_category item); [|discriminate H].
    destruct (price_ok (i_price item)); [|discriminate H].
    destruct (check_description item); [|discriminate H].
    destruct (check_tags item); [|discriminate H].
    cbn [and_then] in H.
    constructor; [apply Hname | apply Hcat | apply Hprice | apply Hdesc
                  | apply Htags | apply Himg]; auto.
  - intros [H1 H2 H3 H4 H5 H6].
    apply Hname in H1. apply Hcat in H2. apply Hprice in H3.
    apply Hdesc in H4. apply Htags in H5. apply Himg in H6.
    rewrite H1, H2, H3, H4, H5. exact H6.
Qed.

(** ** What [POST /api/menu] stores *)

Section PostFacts.
Context {codec : Codec}.
Variable parseFloat : option value -> fnum.







End PostFacts.

(** ** Worked example, over the reference codec *)

(** A request with white space and a control character to remove. *)
Definition order : value :=
  VObj [ ("name", VStr "  Veggie Burger ");
         ("category", VStr "mains");
         ("price", VNum (mkNumber false 9 (D5 Nil)));
         ("tags", VStr "green, new,,") ].


(** The request above is stored trimmed, with its two tags, behind the
    burger that has the id 1. *)
Lemma order_stored :
  fst (post_menu parseFloat_plain order (calm 2000) Durability.one_stored)
  = Json 200 (added (VObj [ ("name", VStr "Veggie Burger");
                            ("category", VStr "mains");
                            ("price", VNum (mkNumber false 9 (D5 Nil)));
                            ("description", VStr "");
                            ("tags", VArr [VStr "green"; VStr "new"]);
                            ("image", VNull);
                            ("id", VInt 2) ])).
Proof. vm_compute. reflexivity. Qed.

End Validate.

(* ===================================================================== *)
(** * Login, rate limiting and CSRF protection *)
(* ===================================================================== *)

Module Auth.
Import JS Store Strings Validate.

(** ** The table [loginAttempts] *)

Definition MAX_LOGIN_ATTEMPTS : Z := 5.
Definition LOGIN_LOCKOUT_TIME : Z := 15 * 60 * 1000.

(** An entry of the table; [lockedUntil] is [undefined] until a lockout. *)
Record attempts_t : Type := mkAttempts {
  count : Z;
  lastAttempt : Z;
  lockedUntil : option Z
}.

(** The [Map], as the list of its entries in insertion order. *)
Definition table : Type := list (string * attempts_t).

Fixpoint get (k : string) (m : table) : option attempts_t :=
  match m with
  | [] => None
  | (k', a) :: r => if (k' =? k)%string then Some a else get k r
  end.

Fixpoint set (k : string) (a : attempts_t) (m : table) : table :=
  match m with
  | [] => [(k, a)]
  | (k', a') :: r =>
      if (k' =? k)%string then (k, a) :: r else (k', a') :: set k a r
  end.

Definition delete (k : string) (m : table) : table :=
  List.filter (fun e => negb (fst e =? k)%string) m.

(** ** The client of a request *)

Record request : Type := mkRequest {
  req_method : Routes.method;
  req_path : string;
  req_ip : option string;            (* [req.ip] *)
  forwarded_for : option string;     (* [req.headers["x-forwarded-for"]] *)
  remoteAddress : option string;     (* [req.connection?.remoteAddress] *)
  csrf_header : option string;       (* [req.headers["x-csrf-token"]] *)
  req_body : value                   (* [req.body] *)
}.

(** [a || b] on strings that may be [undefined]. *)
Definition or_string (a b : option string) : option string :=
  match a with
  | Some s => if (s =? "")%string then b else a
  | None => b
  end.

(** [h?.split(",")[0]?.trim()]. *)
Definition first_forwarded (h : option string) : option string :=
  match h with
  | Some s => Some (trim (hd "" (split_comma s)))
  | None => None
  end.

(** [req.ip || req.headers["x-forwarded-for"]?.split(",")[0]?.trim() ||
     req.connection?.remoteAddress || "unknown"]. *)
Definition clientIp (r : request) : string :=
  match or_string (req_ip r)
          (or_string (first_forwarded (forwarded_for r))
             (or_string (remoteAddress r) (Some "unknown"))) with
  | Some s => s
  | None => "unknown"
  end.

(** ** [rateLimitLogin] *)

(** [x && ..] for a number that may be [undefined]. *)
Definition is_set (x : option Z) : bool :=
  match x with
  | Some t => negb (t =? 0)
  | None => false
  end.

Definition time_of (x : option Z) : Z :=
  match x with
  | Some t => t
  | None => 0
  end.

(** [Math.ceil(d / 60000)]. *)
Definition minutes_up (d : Z) : Z := - ((- d) / 60000).

Definition too_many (remainingMinutes : Z) : value :=
  VObj [ ("success", VBool false);
         ("message",
          VStr ("Too many login attempts. Please try again in "
                ++ number_to_string (num_of_Z remainingMinutes)
                ++ " minute"
                ++ (if remainingMinutes =? 1 then "" else "s")
                ++ ".")) ].

(** The middleware answers 429 itself ([Some]) or calls [next()] ([None]). *)
Definition rateLimitLogin (r : request) (now : Z) (m : table)
  : option reply * table :=
  match get (clientIp r) m with
  | Some attempts =>
      if is_set (lockedUntil attempts) && (now <? time_of (lockedUntil attempts))
      then (Some (Json 429 (too_many
                    (minutes_up (time_of (lockedUntil attempts) - now)))), m)
      else if is_set (lockedUntil attempts) && (now >=? time_of (lockedUntil attempts))
           then (None, delete (clientIp r) m)
           else (None, m)
  | None => (None, m)
  end.

(** ** [recordFailedLogin] and [clearLoginAttempts] *)

Definition recordFailedLogin (ip : string) (now : Z) (m : table) : table :=
  let attempts :=
    match get ip m with
    | Some a => a
    | None => mkAttempts 0 0 None
    end in
  let c := count attempts + 1 in
  set ip (if c >=? MAX_LOGIN_ATTEMPTS
          then mkAttempts 0 now (Some (now + LOGIN_LOCKOUT_TIME))
          else mkAttempts c now (lockedUntil attempts))
      m.

(** The callback [recordFailedLogin] hands to [setTimeout]; [now] is the
    clock reading of the call that set the timer. *)
Definition cleanup (ip : string) (now : Z) (m : table) : table :=
  match get ip m with
  | Some entry =>
      if now - lastAttempt entry >? 60 * 60 * 1000 then delete ip m else m
  | None => m
  end.

Definition clearLoginAttempts (ip : string) (m : table) : table := delete ip m.

(** ** Sessions *)

Record session : Type := mkSession {
  isAuthenticated : bool;
  csrfToken : option string
}.

(** ** [POST /api/auth/login] *)

(** The loop
<<
   let isValid = true;
   for (let i = 0; i < password.length; i++) {
     if (password[i] !== ADMIN_PASSWORD[i]) isValid = false;
   }
>>
    on two strings of the same length. *)
Fixpoint compare_all (password admin : string) (isValid : bool) : bool :=
  match password, admin with
  | String x p, String y a =>
      compare_all p a (if Ascii.eqb x y then isValid else false)
  | _, _ => isValid
  end.

Definition password_required : value :=
  VObj [("success", VBool false); ("message", VStr "Password is required")].

Definition invalid_credentials : value :=
  VObj [("success", VBool false); ("message", VStr "Invalid credentials")].

Definition login_successful : value :=
  VObj [("success", VBool true); ("message", VStr "Login successful")].

Section WithPassword.

(** [process.env.ADMIN_PASSWORD]; the process exits at start when it is not
    set. *)
Variable ADMIN_PASSWORD : string.

(** The handler, after [rateLimitLogin]; [now] is the clock
    [recordFailedLogin] reads. *)
Definition login (r : request) (now : Z) (sess : session) (m : table)
  : reply * session * table :=
  match get_prop (Some (req_body r)) "password" with
  | Throw err => (Next err, sess, m)
  | Normal password =>
      if negb (truthy password) || negb (typeof_string password)
      then (Json 400 password_required, sess, m)
      else
        let password := string_of password in
        if negb (String.length password =? String.length ADMIN_PASSWORD)%nat
        then (Json 401 invalid_credentials, sess,
              recordFailedLogin (clientIp r) now m)
        else if compare_all password ADMIN_PASSWORD true
             then (Json 200 login_successful,
                   mkSession true (csrfToken sess),
                   clearLoginAttempts (clientIp r) m)
             else (Json 401 invalid_credentials, sess,
                   recordFailedLogin (clientIp r) now m)
  end.

(** The route: [rateLimitLogin] at clock [t_limit], then the handler. *)
Definition post_login (r : request) (t_limit t_record : Z)
           (sess : session) (m : table) : reply * session * table :=
  match rateLimitLogin r t_limit m with
  | (Some blocked, m1) => (blocked, sess, m1)
  | (None, m1) => login r t_record sess m1
  end.

End WithPassword.

(** ** [requireAuth] *)

Definition unauthorized : value := VObj [("error", VStr "Unauthorized")].

(** What a middleware does: it calls [next()], answers itself, or throws. *)
Inductive passed (A : Type) : Type :=
| Continue (a : A)
| Answer (r : reply)
| Raise (e : error).
Arguments Continue {A} a.
Arguments Answer {A} r.
Arguments Raise {A} e.

Definition requireAuth (sess : session) : passed unit :=
  if isAuthenticated sess then Continue tt else Answer (Json 401 unauthorized).

(** ** CSRF tokens *)

(** The UTF-8 encoding of a code unit below 256. *)
Definition utf8_char (c : ascii) : list N :=
  let n := N_of_ascii c in
  if (n <? 128)%N then [n] else [(192 + n / 64)%N; (128 + n mod 64)%N].

(** [Buffer.from(s)] for a string. *)
Fixpoint utf8 (s : string) : list N :=
  match s with
  | EmptyString => []
  | String c r => utf8_char c ++ utf8 r
  end.

(** [crypto.timingSafeEqual(a, b)]: a [RangeError] when the lengths differ. *)
Definition timingSafeEqual (a b : list N) : completion bool :=
  if (List.length a =? List.length b)%nat
  then Normal (if list_eq_dec N.eq_dec a b then true else false)
  else Throw (PlainError "Input buffers must have the same byte length").

Definition invalid_csrf : value :=
  VObj [("success", VBool false); ("error", VStr "Invalid CSRF token")].

Section WithBuffers.

(** [Buffer.from(v)] for a value that is not a string is the runtime's. *)
Variable Buffer_from_other : value -> completion (list N).

Definition Buffer_from (v : value) : completion (list N) :=
  match v with
  | VStr s => Normal (utf8 s)
  | _ => Buffer_from_other v
  end.

(** [validateCSRFToken(token, session)]. *)
Definition validateCSRFToken (token : option value) (sess : session)
  : completion bool :=
  match token, csrfToken sess with
  | Some t, Some c =>
      if negb (truthy token) || (c =? "")%string then Normal false
      else
        a <- Buffer_from t ;;
        timingSafeEqual a (utf8 c)
  | _, _ => Normal false
  end.

(** [req.method === "GET" || req.path.startsWith("/data.json") ||
     req.path.startsWith("/api/settings") && req.method === "GET"]. *)
Definition csrf_exempt (r : request) : bool :=
  Routes.method_eqb (req_method r) Routes.GET ||
  String.prefix "/data.json" (req_path r) ||
  String.prefix "/api/settings" (req_path r) &&
  Routes.method_eqb (req_method r) Routes.GET.

(** [!req.session.csrfToken]. *)
Definition no_token (sess : session) : bool :=
  match csrfToken sess with
  | Some c => (c =? "")%string
  | None => true
  end.

(** The session after
    [if (!req.session.csrfToken) req.session.csrfToken = generateCSRFToken()],
    where [fresh] is what [generateCSRFToken()] would return. *)
Definition ensure_token (fresh : string) (sess : session) : session :=
  if no_token sess then mkSession (isAuthenticated sess) (Some fresh) else sess.

(** [req.headers["x-csrf-token"] || req.body._csrf]: the body is read only
    when the header is missing or empty. *)
Definition csrf_token (r : request) : completion (option value) :=
  match or_string (csrf_header r) None with
  | Some h => Normal (Some (VStr h))
  | None => get_prop (Some (req_body r)) "_csrf"
  end.

(** [csrfProtection].  The session is the state the middleware changes. *)
Definition csrfProtection (r : request) (fresh : string) (sess : session)
  : passed unit * session :=
  if csrf_exempt r then (Continue tt, sess)
  else
    let sess1 := ensure_token fresh sess in
    match csrf_token r with
    | Throw err => (Raise err, sess1)
    | Normal token =>
        match validateCSRFToken token sess1 with
        | Normal true => (Continue tt, sess1)
        | Normal false => (Answer (Json 403 invalid_csrf), sess1)
        | Throw err => (Raise err, sess1)
        end
    end.

End WithBuffers.

(** ** [GET /api/auth/status] *)

(** [{ isAuthenticated: !!req.session.isAuthenticated,
       csrfToken: req.session.csrfToken }]; a property that is [undefined]
    is not printed. *)
Definition status_body (sess : session) : value :=
  VObj (("isAuthenticated", VBool (isAuthenticated sess)) ::
        match csrfToken sess with
        | Some c => [("csrfToken", VStr c)]
        | None => []
        end).

Definition auth_status (fresh : string) (sess : session) : reply * session :=
  let sess1 := ensure_token fresh sess in
  (Json 200 (status_body sess1), sess1).

(** ** Facts about the table *)

Lemma get_set_same (k : string) (a : attempts_t) (m : table) :
  get k (set k a m) = Some a.
Proof.
  induction m as [|[k' a'] m IH]; cbn [set get].
  - rewrite String.eqb_refl. reflexivity.
  - destruct (k' =? k)%string eqn:E; cbn [get].
    + rewrite String.eqb_refl. reflexivity.
    + rewrite E. exact IH.
Qed.

Lemma get_set_other (k k' : string) (a : attempts_t) (m : table) :
  k' <> k -> get k' (set k a m) = get k' m.
Proof.
  intros Hne. induction m as [|[k0 a0] m IH]; cbn [set get].
  - destruct (String.eqb_spec k k'); [congruence | reflexivity].
  - destruct (String.eqb_spec k0 k) as [->|Hk]; cbn [get].
    + destruct (String.eqb_spec k k'); [congruence | reflexivity].
    + destruct (k0 =? k')%string; [reflexivity | exact IH].
Qed.

Lemma get_delete_same (k : string) (m : table) : get k (delete k m) = None.
Proof.
  induction m as [|[k' a'] m IH]; [reflexivity|].
  unfold delete in *. cbn [List.filter fst].
  destruct (String.eqb_spec k' k) as [->|Hk]; cbn [negb]; [exact IH|].
  cbn [get]. destruct (String.eqb_spec k' k); [contradiction | exact IH].
Qed.

Lemma get_delete_other (k k' : string) (m : table) :
  k' <> k -> get k' (delete k m) = get k' m.
Proof.
  intros Hne. induction m as [|[k0 a0] m IH]; [reflexivity|].
  unfold delete in *. cbn [List.filter fst get].
  destruct (String.eqb_spec k0 k) as [->|Hk]; cbn [negb].
  - destruct (String.eqb_spec k k'); [congruence | exact IH].
  - cbn [get]. destruct (k0 =? k')%string; [reflexivity | exact IH].
Qed.

Lemma delete_absent (k : string) (m : table) : get k m = None -> delete k m = m.
Proof.
  induction m as [|[k' a'] m IH]; [reflexivity|].
  unfold delete in *. cbn [List.filter fst get].
  destruct (k' =? k)%string; [discriminate|]. cbn [negb]. intros H.
  rewrite (IH H). reflexivity.
Qed.

(** ** The password test *)

Lemma compare_all_false (p a : string) : compare_all p a false = false.
Proof.
  revert a. induction p as [|x p IH]; intros [|y a]; cbn [compare_all];
    try reflexivity. destruct (Ascii.eqb x y); apply IH.
Qed.

Lemma compare_all_eqb (p a : string) :
  String.length p = String.length a -> compare_all p a true = (p =? a)%string.
Proof.
  revert a. induction p as [|x p IH]; intros [|y a] H; cbn [String.length] in H;
    try discriminate; [reflexivity|].
  cbn [compare_all String.eqb]. destruct (Ascii.eqb x y).
  - apply IH. lia.
  - apply compare_all_false.
Qed.

(** Whether a read gave the string [p]. *)
Lemma completion_eq_dec (c : completion (option value)) (p : string) :
  {c = Normal (Some (VStr p))} + {c <> Normal (Some (VStr p))}.
Proof.
  destruct c as [[[ | b | n | q | l | fs]|]|err];
    try (right; discriminate).
  destruct (string_dec q p) as [->|Hne]; [left; reflexivity|].
  right. intros [= H]. contradiction.
Qed.

Section LoginFacts.
Variable ADMIN_PASSWORD : string.

(** The password a request carries: a non-empty string. *)
Definition offers (r : request) (p : string) : Prop :=
  get_prop (Some (req_body r)) "password" = Normal (Some (VStr p)) /\ p <> "".

Lemma login_right (r : request) (now : Z) (sess : session) (m : table) :
  ADMIN_PASSWORD <> "" ->
  get_prop (Some (req_body r)) "password" = Normal (Some (VStr ADMIN_PASSWORD)) ->
  login ADMIN_PASSWORD r now sess m
  = (Json 200 login_successful, mkSession true (csrfToken sess),
     clearLoginAttempts (clientIp r) m).
Proof.
  intros Hne Hp. unfold login. rewrite Hp. cbn [truthy typeof_string string_of negb orb].
  destruct (String.eqb_spec ADMIN_PASSWORD "") as [E|_]; [contradiction|].
  cbn [negb]. rewrite Nat.eqb_refl. cbn [negb].
  rewrite compare_all_eqb by reflexivity. rewrite String.eqb_refl. reflexivity.
Qed.

Lemma login_wrong (r : request) (now : Z) (sess : session) (m : table) (p : string) :
  offers r p -> p <> ADMIN_PASSWORD ->
  login ADMIN_PASSWORD r now sess m
  = (Json 401 invalid_credentials, sess, recordFailedLogin (clientIp r) now m).
Proof.
  intros [Hp Hne] Hw. unfold login. rewrite Hp.
  cbn [truthy typeof_string string_of negb orb].
  destruct (String.eqb_spec p "") as [E|_]; [contradiction|]. cbn [negb].
  destruct (Nat.eqb_spec (String.length p) (String.length ADMIN_PASSWORD)) as [El|_];
    cbn [negb]; [|reflexivity].
  rewrite (compare_all_eqb _ _ El).
  destruct (String.eqb_spec p ADMIN_PASSWORD); [contradiction | reflexivity].
Qed.

Lemma login_not_200 (r : request) (now : Z) (sess : session) (m : table) :
  get_prop (Some (req_body r)) "password" <> Normal (Some (VStr ADMIN_PASSWORD)) ->
  fst (fst (login ADMIN_PASSWORD r now sess m)) <> Json 200 login_successful /\
  snd (fst (login ADMIN_PASSWORD r now sess m)) = sess.
Proof.
  intros Hp. unfold login.
  destruct (get_prop (Some (req_body r)) "password") as [password|err];
    [|split; [discriminate | reflexivity]].
  destruct (negb (truthy password) || negb (typeof_string password)) eqn:Eb;
    [split; [discriminate | reflexivity]|].
  apply orb_false_elim in Eb. destruct Eb as [_ Es]. apply negb_false_iff in Es.
  destruct password as [[ | b | n | p | l | fs]|]; try discriminate Es.
  cbn [string_of].
  destruct (Nat.eqb_spec (String.length p) (String.length ADMIN_PASSWORD)) as [El|_];
    cbn [negb]; [|split; [discriminate | reflexivity]].
  rewrite (compare_all_eqb _ _ El).
  destruct (String.eqb_spec p ADMIN_PASSWORD) as [->|_];
    [contradiction | split; [discriminate | reflexivity]].
Qed.

(** X12. The login route answers 200 "Login successful" exactly when the
    rate limiter lets the request through and the password of the request
    is the string [ADMIN_PASSWORD]; then, and only then, it marks the
    session authenticated.  Every other answer leaves the session as it
    was. *)
Theorem login_checks_password (r : request) (t_limit t_record : Z)
        (sess : session) (m : table) :
  ADMIN_PASSWORD <> "" ->
  (fst (fst (post_login ADMIN_PASSWORD r t_limit t_record sess m))
     = Json 200 login_successful
   <-> fst (rateLimitLogin r t_limit m) = None /\
       get_prop (Some (req_body r)) "password"
         = Normal (Some (VStr ADMIN_PASSWORD))) /\
  (fst (fst (post_login ADMIN_PASSWORD r t_limit t_record sess m))
     = Json 200 login_successful ->
   isAuthenticated (snd (fst (post_login ADMIN_PASSWORD r t_limit t_record sess m)))
     = true) /\
  (fst (fst (post_login ADMIN_PASSWORD r t_limit t_record sess m))
     <> Json 200 login_successful ->
   snd (fst (post_login ADMIN_PASSWORD r t_limit t_record sess m)) = sess).
Proof.
  intros Hne. unfold post_login.
  destruct (rateLimitLogin r t_limit m) as [[blocked|] m1] eqn:El; cbn [fst snd].
  - assert (Hb : blocked <> Json 200 login_successful).
    { unfold rateLimitLogin in El.
      destruct (get (clientIp r) m) as [a|]; [|discriminate El].
      destruct (is_set (lockedUntil a) && (t_limit <? time_of (lockedUntil a)));
        [injection El as <- _; discriminate|].
      destruct (is_set (lockedUntil a) && (t_limit >=? time_of (lockedUntil a)));
        discriminate El. }
    split; [split; [intros H; contradiction | intros [H _]; discriminate H]|].
    split; [intros H; contradiction | reflexivity].
  - destruct (completion_eq_dec
                (get_prop (Some (req_body r)) "password") ADMIN_PASSWORD) as [Hp|Hp].
    + rewrite (login_right r t_record sess m1 Hne Hp). cbn [fst snd].
      split; [split; [auto | reflexivity]|]. split; [reflexivity|].
      intros H. contradiction.
    + destruct (login_not_200 r t_record sess m1 Hp) as [H1 H2].
      split; [split; [intros H; contradiction | intros [_ H]; contradiction]|].
      split; [intros H; contradiction | intros _; exact H2].
Qed.

(** *** Lockout *)

(** A login attempt: the request, the clock [rateLimitLogin] reads and the
    clock [recordFailedLogin] reads. *)
Record try : Type := mkTry {
  t_req : request;
  t_limit : Z;
  t_record : Z
}.

Fixpoint logins (l : list try) (sess : session) (m : table)
  : list reply * session * table :=
  match l with
  | [] => ([], sess, m)
  | t :: rest =>
      let '(rep, sess1, m1) :=
        post_login ADMIN_PASSWORD (t_req t) (t_limit t) (t_record t) sess m in
      let '(reps, sess2, m2) := logins rest sess1 m1 in
      (rep :: reps, sess2, m2)
  end.

(** A request of the client [ip] with a password that is not the right
    one, handled at a clock after the epoch. *)
Definition fails_from (ip : string) (t : try) : Prop :=
  clientIp (t_req t) = ip /\
  (exists p, offers (t_req t) p /\ p <> ADMIN_PASSWORD) /\
  0 <= t_record t.

Definition pending (ip : string) (m : table) : Z :=
  match get ip m with
  | Some a => count a
  | None => 0
  end.

Definition unlocked (ip : string) (m : table) : Prop :=
  match get ip m with
  | Some a => lockedUntil a = None
  | None => True
  end.

Lemma failed_step (t : try) (ip : string) (sess : session) (m : table) :
  fails_from ip t -> unlocked ip m ->
  post_login ADMIN_PASSWORD (t_req t) (t_limit t) (t_record t) sess m
  = (Json 401 invalid_credentials, sess, recordFailedLogin ip (t_record t) m).
Proof.
  intros (Hip & (p & Hp & Hw) & _) Hu. unfold post_login, rateLimitLogin.
  rewrite Hip. unfold unlocked in Hu.
  destruct (get ip m) as [a|] eqn:Eg.
  - rewrite Hu. cbn [is_set andb].
    rewrite (login_wrong _ _ _ _ p Hp Hw), Hip. reflexivity.
  - rewrite (login_wrong _ _ _ _ p Hp Hw), Hip. reflexivity.
Qed.

Lemma record_counts (ip : string) (now : Z) (m : table) :
  unlocked ip m -> pending ip m + 1 < MAX_LOGIN_ATTEMPTS ->
  unlocked ip (recordFailedLogin ip now m) /\
  pending ip (recordFailedLogin ip now m) = pending ip m + 1.
Proof.
  unfold unlocked, pending, recordFailedLogin. intros Hu Hc.
  rewrite get_set_same.
  destruct (get ip m) as [a|]; cbn [count lockedUntil] in *;
    match goal with
    | |- context [?x >=? MAX_LOGIN_ATTEMPTS] =>
        destruct (Z.geb_spec x MAX_LOGIN_ATTEMPTS) as [Hge|_]; [lia|]
    end;
    cbn [count lockedUntil]; auto.
Qed.

Lemma record_locks (ip : string) (now : Z) (m : table) :
  MAX_LOGIN_ATTEMPTS <= pending ip m + 1 ->
  get ip (recordFailedLogin ip now m)
  = Some (mkAttempts 0 now (Some (now + LOGIN_LOCKOUT_TIME))).
Proof.
  unfold pending, recordFailedLogin. intros Hc. rewrite get_set_same.
  destruct (get ip m) as [a|]; cbn [count] in *;
    match goal with
    | |- context [?x >=? MAX_LOGIN_ATTEMPTS] =>
        destruct (Z.geb_spec x MAX_LOGIN_ATTEMPTS) as [_|Hlt]; [reflexivity | lia]
    end.
Qed.

Lemma failures_lock (ip : string) (l : list try) :
  forall (sess : session) (m : table),
    l <> [] -> unlocked ip m ->
    pending ip m + Z.of_nat (List.length l) = MAX_LOGIN_ATTEMPTS ->
    Forall (fails_from ip) l ->
    exists m',
      logins l sess m
      = (repeat (Json 401 invalid_credentials) (List.length l), sess, m') /\
      get ip m'
      = Some (mkAttempts 0 (List.last (map t_record l) 0)
                (Some (List.last (map t_record l) 0 + LOGIN_LOCKOUT_TIME))).
Proof.
  induction l as [|t l IH]; intros sess m Hne Hu Hc Hall; [contradiction|].
  inversion Hall as [|x r Ht Hl]; subst.
  cbn [logins]. rewrite (failed_step t ip sess m Ht Hu).
  destruct l as [|t' l].
  - cbn [logins List.length repeat map List.last]. eexists. split; [reflexivity|].
    apply record_locks. cbn [List.length] in Hc. lia.
  - cbn [List.length] in Hc.
    destruct (record_counts ip (t_record t) m Hu) as [Hu' Hc']; [lia|].
    destruct (IH sess (recordFailedLogin ip (t_record t) m)) as (m' & E & Hg).
    + discriminate.
    + exact Hu'.
    + rewrite Hc'. cbn [List.length]. lia.
    + exact Hl.
    + rewrite E. exists m'. split; [reflexivity|]. exact Hg.
Qed.

Lemma last_in (l : list Z) (d : Z) : l <> [] -> In (List.last l d) l.
Proof.
  induction l as [|a l IH]; [contradiction|]. intros _.
  destruct l as [|b l]; [left; reflexivity|].
  right. apply IH. discriminate.
Qed.

Lemma minutes_up_pos (d : Z) : 0 < d -> 1 <= minutes_up d.
Proof.
  intros H. unfold minutes_up.
  assert ((- d) / 60000 < 0) by (apply Z.div_lt_upper_bound; lia). lia.
Qed.

(** X13. Five wrong passwords lock a client out.  When a client without an
    entry in the table sends five requests with a wrong password, each is
    answered 401, and from then on every login request of that client that
    arrives less than 15 minutes after the fifth is answered 429, whatever
    its password, and changes neither the session nor the table; the
    message counts at least one minute.  A request that arrives later
    passes the limiter, which forgets the client. *)
Theorem lockout_after_five_failures (reqs : list try) (ip : string)
        (sess : session) (m : table) :
  get ip m = None -> List.length reqs = 5%nat -> Forall (fails_from ip) reqs ->
  exists m',
    logins reqs sess m = (repeat (Json 401 invalid_credentials) 5, sess, m') /\
    forall (r : request) (now t : Z) (sess' : session),
      clientIp r = ip ->
      (now < List.last (map t_record reqs) 0 + LOGIN_LOCKOUT_TIME ->
       post_login ADMIN_PASSWORD r now t sess' m'
       = (Json 429 (too_many (minutes_up
            (List.last (map t_record reqs) 0 + LOGIN_LOCKOUT_TIME - now))),
          sess', m') /\
       1 <= minutes_up (List.last (map t_record reqs) 0 + LOGIN_LOCKOUT_TIME - now)) /\
      (List.last (map t_record reqs) 0 + LOGIN_LOCKOUT_TIME <= now ->
       fst (rateLimitLogin r now m') = None /\
       get ip (snd (rateLimitLogin r now m')) = None).
Proof.
  intros Hg Hlen Hall.
  destruct (failures_lock ip reqs sess m) as (m' & E & Hg').
  - intros ->. discriminate Hlen.
  - unfold unlocked. rewrite Hg. exact I.
  - unfold pending. rewrite Hg, Hlen. reflexivity.
  - exact Hall.
  - rewrite Hlen in E. exists m'. split; [exact E|].
    set (t5 := List.last (map t_record reqs) 0) in *.
    assert (Ht5 : 0 <= t5).
    { unfold t5. destruct reqs as [|t0 reqs]; [discriminate Hlen|].
      assert (Hin : In (List.last (map t_record (t0 :: reqs)) 0)
                       (map t_record (t0 :: reqs)))
        by (apply last_in; discriminate).
      apply in_map_iff in Hin. destruct Hin as (x & <- & Hx).
      exact (proj2 (proj2 (proj1 (Forall_forall _ _) Hall x Hx))). }
    intros r now t sess' Hip. unfold post_login, rateLimitLogin.
    rewrite Hip, Hg'. cbn [lockedUntil is_set time_of].
    assert (Hnz : (t5 + LOGIN_LOCKOUT_TIME =? 0) = false)
      by (apply Z.eqb_neq; unfold LOGIN_LOCKOUT_TIME; lia).
    rewrite Hnz. cbn [negb andb]. split.
    + intros Hlt. destruct (Z.ltb_spec now (t5 + LOGIN_LOCKOUT_TIME)) as [_|Hge]; [|lia].
      split; [reflexivity | apply minutes_up_pos; lia].
    + intros Hle. destruct (Z.ltb_spec now (t5 + LOGIN_LOCKOUT_TIME)) as [Hlt|_]; [lia|].
      destruct (Z.geb_spec now (t5 + LOGIN_LOCKOUT_TIME)) as [_|Hlt]; [|lia].
      cbn [fst snd]. split; [reflexivity | apply get_delete_same].
Qed.

End LoginFacts.

(** *** The hourly clean-up *)

(** What happens to the table: the limiter runs, a failure is recorded, a
    success clears an entry, a clean-up timer fires. *)
Inductive table_op : Type :=
| Limited (r : request) (now : Z)
| Failed (ip : string) (now : Z)
| Cleared (ip : string)
| Swept (ip : string) (captured : Z).

Definition apply_op (m : table) (o : table_op) : table :=
  match o with
  | Limited r now => snd (rateLimitLogin r now m)
  | Failed ip now => recordFailedLogin ip now m
  | Cleared ip => clearLoginAttempts ip m
  | Swept ip captured => cleanup ip captured m
  end.

(** A failure recorded at a clock reading not before [now0]. *)
Definition not_before (now0 : Z) (o : table_op) : Prop :=
  match o with
  | Failed _ now => now0 <= now
  | _ => True
  end.

Definition seen_since (now0 : Z) (ip : string) (m : table) : Prop :=
  match get ip m with
  | Some entry => now0 <= lastAttempt entry
  | None => True
  end.

Lemma seen_delete (now0 : Z) (ip k : string) (m : table) :
  seen_since now0 ip m -> seen_since now0 ip (delete k m).
Proof.
  unfold seen_since. intros H. destruct (string_dec ip k) as [->|Hne].
  - rewrite get_delete_same. exact I.
  - rewrite get_delete_other by exact Hne. exact H.
Qed.

Lemma seen_apply (now0 : Z) (ip : string) (m : table) (o : table_op) :
  not_before now0 o -> seen_since now0 ip m -> seen_since now0 ip (apply_op m o).
Proof.
  intros Ho H. destruct o as [r now | k now | k | k captured]; cbn [apply_op].
  - unfold rateLimitLogin. destruct (get (clientIp r) m) as [a|]; [|exact H].
    destruct (is_set (lockedUntil a) && (now <? time_of (lockedUntil a)));
      [exact H|].
    destruct (is_set (lockedUntil a) && (now >=? time_of (lockedUntil a)));
      [apply seen_delete, H | exact H].
  - cbn [not_before] in Ho. unfold seen_since, recordFailedLogin in *.
    destruct (string_dec ip k) as [->|Hne].
    + rewrite get_set_same.
      destruct (_ >=? MAX_LOGIN_ATTEMPTS); cbn [lastAttempt]; exact Ho.
    + rewrite get_set_other by exact Hne. exact H.
  - apply seen_delete, H.
  - unfold cleanup. destruct (get k m) as [entry|]; [|exact H].
    destruct (captured - lastAttempt entry >? 60 * 60 * 1000);
      [apply seen_delete, H | exact H].
Qed.

(** X14. The clean-up timer never removes anything.  The callback that
    [recordFailedLogin] schedules compares the clock reading of its own call
    with [lastAttempt], which that call has just set to the same reading and
    which only later failures overwrite: as long as the clock does not go
    back, the callback leaves the table as it is, whenever it fires. *)
Theorem cleanup_never_fires (ip : string) (now0 : Z) (m : table)
        (ops : list table_op) :
  Forall (not_before now0) ops ->
  cleanup ip now0 (fold_left apply_op ops (recordFailedLogin ip now0 m))
  = fold_left apply_op ops (recordFailedLogin ip now0 m).
Proof.
  intros Hops.
  assert (Hseen : seen_since now0 ip
                    (fold_left apply_op ops (recordFailedLogin ip now0 m))).
  { assert (H0 : seen_since now0 ip (recordFailedLogin ip now0 m)).
    { unfold seen_since, recordFailedLogin. rewrite get_set_same.
      destruct (_ >=? MAX_LOGIN_ATTEMPTS); cbn [lastAttempt]; lia. }
    revert H0. generalize (recordFailedLogin ip now0 m) as m0.
    induction Hops as [|o ops Ho Hops IH]; intros m0 H0; [exact H0|].
    cbn [fold_left]. apply IH. apply seen_apply; assumption. }
  unfold cleanup. unfold seen_since in Hseen.
  destruct (get ip _) as [entry|]; [|reflexivity].
  destruct (Z.gtb_spec (now0 - lastAttempt entry) (60 * 60 * 1000)) as [Hgt|_];
    [lia | reflexivity].
Qed.

(** X15. Clients do not affect one another: a login request, whatever its
    outcome, leaves the entry of every other client as it was. *)
Theorem other_clients_unaffected (ADMIN_PASSWORD : string) (r : request)
        (t_limit t_record : Z) (sess : session) (m : table) (ip : string) :
  clientIp r <> ip ->
  get ip (snd (post_login ADMIN_PASSWORD r t_limit t_record sess m)) = get ip m.
Proof.
  intros Hne.
  assert (Hl : get ip (snd (rateLimitLogin r t_limit m)) = get ip m).
  { unfold rateLimitLogin. destruct (get (clientIp r) m) as [a|]; [|reflexivity].
    destruct (is_set (lockedUntil a) && (t_limit <? time_of (lockedUntil a)));
      [reflexivity|].
    destruct (is_set (lockedUntil a) && (t_limit >=? time_of (lockedUntil a)));
      [|reflexivity].
    cbn [snd]. apply get_delete_other. congruence. }
  assert (Hr : forall m0, get ip (recordFailedLogin (clientIp r) t_record m0)
                          = get ip m0).
  { intros m0. unfold recordFailedLogin. apply get_set_other. congruence. }
  unfold post_login.
  destruct (rateLimitLogin r t_limit m) as [[blocked|] m1]; cbn [snd] in *;
    [exact Hl|].
  rewrite <- Hl. unfold login.
  destruct (get_prop (Some (req_body r)) "password") as [password|err];
    [|reflexivity].
  destruct (negb (truthy password) || negb (typeof_string password)); [reflexivity|].
  destruct (negb (String.length (string_of password)
                  =? String.length ADMIN_PASSWORD)%nat); cbn [snd]; [apply Hr|].
  destruct (compare_all (string_of password) ADMIN_PASSWORD true); cbn [snd];
    [|apply Hr].
  unfold clearLoginAttempts. apply get_delete_other. congruence.
Qed.

(** ** CSRF tokens *)

Lemma N_of_ascii_inj (x y : ascii) : N_of_ascii x = N_of_ascii y -> x = y.
Proof.
  intros H. rewrite <- (ascii_N_embedding x), <- (ascii_N_embedding y), H.
  reflexivity.
Qed.

Lemma utf8_char_inj (x y : ascii) (rx ry : list N) :
  utf8_char x ++ rx = utf8_char y ++ ry -> x = y /\ rx = ry.
Proof.
  unfold utf8_char.
  destruct (N.ltb_spec (N_of_ascii x) 128) as [Hx|Hx];
    destruct (N.ltb_spec (N_of_ascii y) 128) as [Hy|Hy];
    cbn [List.app]; intros H;
    pose proof (f_equal (@hd N 0%N) H) as H1;
    pose proof (f_equal (@tl N) H) as H2; cbn [hd tl] in H1, H2.
  - split; [apply N_of_ascii_inj, H1 | exact H2].
  - exfalso. pose proof (N.le_0_l (N_of_ascii y / 64)). lia.
  - exfalso. pose proof (N.le_0_l (N_of_ascii x / 64)). lia.
  - pose proof (f_equal (@hd N 0%N) H2) as H3.
    pose proof (f_equal (@tl N) H2) as H4. cbn [hd tl] in H3, H4.
    split; [|exact H4]. apply N_of_ascii_inj.
    rewrite (N.div_mod (N_of_ascii x) 64), (N.div_mod (N_of_ascii y) 64) by lia.
    lia.
Qed.

Lemma utf8_char_nonempty (x : ascii) (r : list N) : utf8_char x ++ r <> [].
Proof. unfold utf8_char. destruct (N_of_ascii x <? 128)%N; discriminate. Qed.

Lemma utf8_inj (a b : string) : utf8 a = utf8 b -> a = b.
Proof.
  revert b. induction a as [|x a IH]; intros [|y b] H; cbn [utf8] in H.
  - reflexivity.
  - symmetry in H. destruct (utf8_char_nonempty _ _ H).
  - destruct (utf8_char_nonempty _ _ H).
  - apply utf8_char_inj in H. destruct H as [-> H]. rewrite (IH b H). reflexivity.
Qed.

Lemma ensure_token_set (fresh : string) (sess : session) :
  fresh <> "" ->
  exists c,
    csrfToken (ensure_token fresh sess) = Some c /\ c <> "" /\
    (no_token sess = false -> ensure_token fresh sess = sess).
Proof.
  intros Hf. unfold ensure_token, no_token.
  destruct (csrfToken sess) as [c|] eqn:Ec.
  - destruct (String.eqb_spec c "") as [->|Hc].
    + exists fresh. split; [reflexivity|]. split; [exact Hf | discriminate].
    + exists c. split; [exact Ec|]. split; [exact Hc | reflexivity].
  - exists fresh. split; [reflexivity|]. split; [exact Hf | discriminate].
Qed.

Lemma ensure_token_kept (fresh fresh' : string) (sess : session) :
  fresh <> "" -> ensure_token fresh' (ensure_token fresh sess) = ensure_token fresh sess.
Proof.
  intros Hf. destruct (ensure_token_set fresh sess Hf) as (c & Ec & Hc & _).
  unfold ensure_token at 1. unfold no_token. rewrite Ec.
  destruct (String.eqb_spec c ""); [contradiction | reflexivity].
Qed.

Section CsrfFacts.
Variable Buffer_from_other : value -> completion (list N).

Lemma validate_string (h c : string) (sess : session) :
  h <> "" -> c <> "" -> csrfToken sess = Some c ->
  validateCSRFToken Buffer_from_other (Some (VStr h)) sess
  = if (List.length (utf8 h) =? List.length (utf8 c))%nat
    then Normal (h =? c)%string
    else Throw (PlainError "Input buffers must have the same byte length").
Proof.
  intros Hh Hc Ec. unfold validateCSRFToken. rewrite Ec. cbn [truthy].
  destruct (String.eqb_spec h ""); [contradiction|].
  destruct (String.eqb_spec c ""); [contradiction|].
  cbn [negb orb Buffer_from bind]. unfold timingSafeEqual.
  destruct (List.length (utf8 h) =? List.length (utf8 c))%nat; [|reflexivity].
  destruct (list_eq_dec N.eq_dec (utf8 h) (utf8 c)) as [E|E].
  - apply utf8_inj in E. subst. rewrite String.eqb_refl. reflexivity.
  - destruct (String.eqb_spec h c) as [->|_]; [contradiction | reflexivity].
Qed.

Lemma validate_falsy (token : option value) (sess : session) :
  truthy token = false ->
  validateCSRFToken Buffer_from_other token sess = Normal false.
Proof.
  intros Ht. unfold validateCSRFToken.
  destruct token as [t|]; [|reflexivity].
  destruct (csrfToken sess); [|reflexivity]. rewrite Ht. reflexivity.
Qed.

(** X16. [csrfProtection] on a request it does not exempt.  The session
    gets a token if it had none.  A request without a token is answered
    403.  A request whose token is a string passes exactly when the string
    is the token of the session; it is answered 403 when the two differ but
    have the same length in bytes; and when their lengths in bytes differ
    the middleware throws, since [crypto.timingSafeEqual] refuses buffers of
    different lengths. *)
Theorem csrfProtection_checks_token (r : request) (fresh : string)
        (sess : session) (token : option value) :
  csrf_exempt r = false -> fresh <> "" -> csrf_token r = Normal token ->
  exists c,
    csrfToken (ensure_token fresh sess) = Some c /\ c <> "" /\
    (no_token sess = false -> csrfToken sess = Some c) /\
    snd (csrfProtection Buffer_from_other r fresh sess) = ensure_token fresh sess /\
    (truthy token = false ->
     fst (csrfProtection Buffer_from_other r fresh sess)
     = Answer (Json 403 invalid_csrf)) /\
    (forall h, token = Some (VStr h) -> h <> "" ->
     fst (csrfProtection Buffer_from_other r fresh sess)
     = if (List.length (utf8 h) =? List.length (utf8 c))%nat
       then if (h =? c)%string then Continue tt else Answer (Json 403 invalid_csrf)
       else Raise (PlainError "Input buffers must have the same byte length")).
Proof.
  intros Hex Hf Ht.
  destruct (ensure_token_set fresh sess Hf) as (c & Ec & Hc & Hkeep).
  exists c. split; [exact Ec|]. split; [exact Hc|].
  split; [intros Hn; rewrite <- (Hkeep Hn); exact Ec|].
  unfold csrfProtection. rewrite Hex, Ht. split.
  - destruct (validateCSRFToken _ token _) as [[|]|err]; reflexivity.
  - split.
    + intros Hfalsy. rewrite (validate_falsy token _ Hfalsy). reflexivity.
    + intros h -> Hh. rewrite (validate_string h c _ Hh Hc Ec).
      destruct (List.length (utf8 h) =? List.length (utf8 c))%nat; [|reflexivity].
      destruct (h =? c)%string; reflexivity.
Qed.

(** X17. The token of [GET /api/auth/status] opens [csrfProtection]: the
    answer carries a non-empty token, the session keeps it, and every later
    request of that session that sends it back in [X-CSRF-Token] passes the
    middleware, which leaves the session as it is. *)
Theorem status_token_passes (fresh : string) (sess : session) :
  fresh <> "" ->
  exists c,
    c <> "" /\
    fst (auth_status fresh sess)
    = Json 200 (VObj [ ("isAuthenticated", VBool (isAuthenticated sess));
                       ("csrfToken", VStr c) ]) /\
    forall (r : request) (fresh' : string),
      csrf_header r = Some c ->
      csrfProtection Buffer_from_other r fresh' (snd (auth_status fresh sess))
      = (Continue tt, snd (auth_status fresh sess)).
Proof.
  intros Hf. destruct (ensure_token_set fresh sess Hf) as (c & Ec & Hc & _).
  exists c. split; [exact Hc|]. unfold auth_status. cbn [fst snd]. split.
  - unfold status_body. rewrite Ec. f_equal. f_equal. f_equal. f_equal.
    unfold ensure_token. destruct (no_token sess); reflexivity.
  - intros r fresh' Hh. unfold csrfProtection.
    destruct (csrf_exempt r); [reflexivity|].
    rewrite (ensure_token_kept fresh fresh' sess Hf).
    unfold csrf_token. rewrite Hh. cbn [or_string].
    destruct (String.eqb_spec c ""); [contradiction|].
    rewrite (validate_string c c _ Hc Hc Ec).
    rewrite Nat.eqb_refl, String.eqb_refl. reflexivity.
Qed.

End CsrfFacts.

(** ** Worked examples *)

Definition guest : session := mkSession false None.

(** A login request of the client 10.0.0.7. *)
Definition knock (password : string) : request :=
  mkRequest Routes.POST "/api/auth/login" (Some "10.0.0.7") None None None
            (VObj [("password", VStr password)]).

Lemma login_checks_password_witness :
  "s3cret" <> "" /\
  (fst (fst (post_login "s3cret" (knock "s3cret") 1000 1001 guest []))
     = Json 200 login_successful
   <-> fst (rateLimitLogin (knock "s3cret") 1000 []) = None /\
       get_prop (Some (req_body (knock "s3cret"))) "password"
         = Normal (Some (VStr "s3cret"))) /\
  (fst (fst (post_login "s3cret" (knock "s3cret") 1000 1001 guest []))
     = Json 200 login_successful ->
   isAuthenticated (snd (fst (post_login "s3cret" (knock "s3cret") 1000 1001 guest [])))
     = true) /\
  (fst (fst (post_login "s3cret" (knock "s3cret") 1000 1001 guest []))
     <> Json 200 login_successful ->
   snd (fst (post_login "s3cret" (knock "s3cret") 1000 1001 guest [])) = guest).
Proof.
  assert (H : "s3cret" <> "") by discriminate.
  split; [exact H|].
  exact (login_checks_password "s3cret" (knock "s3cret") 1000 1001 guest [] H).
Defined.

(** Five guesses, one a second. *)
Definition guesses : list try :=
  [ mkTry (knock "admin") 1000 1001;
    mkTry (knock "password") 2000 2001;
    mkTry (knock "123456") 3000 3001;
    mkTry (knock "letmein") 4000 4001;
    mkTry (knock "s3cret!") 5000 5001 ].

Lemma guesses_fail : Forall (fails_from "s3cret" "10.0.0.7") guesses.
Proof.
  repeat (constructor;
          [ split; [reflexivity|]; split;
            [ eexists; split; [split; [reflexivity | discriminate] | discriminate]
            | cbn; lia ] | ]).
  constructor.
Qed.

Lemma lockout_after_five_failures_witness :
  get "10.0.0.7" [] = None /\ List.length guesses = 5%nat /\
  Forall (fails_from "s3cret" "10.0.0.7") guesses /\
  exists m',
    logins "s3cret" guesses guest []
    = (repeat (Json 401 invalid_credentials) 5, guest, m') /\
    forall (r : request) (now t : Z) (sess' : session),
      clientIp r = "10.0.0.7" ->
      (now < List.last (map t_record guesses) 0 + LOGIN_LOCKOUT_TIME ->
       post_login "s3cret" r now t sess' m'
       = (Json 429 (too_many (minutes_up
            (List.last (map t_record guesses) 0 + LOGIN_LOCKOUT_TIME - now))),
          sess', m') /\
       1 <= minutes_up (List.last (map t_record guesses) 0 + LOGIN_LOCKOUT_TIME - now)) /\
      (List.last (map t_record guesses) 0 + LOGIN_LOCKOUT_TIME <= now ->
       fst (rateLimitLogin r now m') = None /\
       get "10.0.0.7" (snd (rateLimitLogin r now m')) = None).
Proof.
  split; [reflexivity|]. split; [reflexivity|]. split; [exact guesses_fail|].
  exact (lockout_after_five_failures "s3cret" guesses "10.0.0.7" guest []
           eq_refl eq_refl guesses_fail).
Defined.

(** The right password, one minute after the fifth guess. *)
Lemma locked_out_with_the_right_password :
  fst (fst (post_login "s3cret" (knock "s3cret") 65001 65002 guest
              (snd (logins "s3cret" guesses guest []))))
  = Json 429 (too_many 14).
Proof. vm_compute. reflexivity. Qed.

Definition later_ops : list table_op :=
  [ Failed "10.0.0.7" 2000; Limited (knock "x") 2500; Failed "10.0.0.9" 3000;
    Swept "10.0.0.9" 3000; Cleared "10.0.0.9"; Failed "10.0.0.7" 4000000 ].

Lemma cleanup_never_fires_witness :
  Forall (not_before 1000) later_ops /\
  cleanup "10.0.0.7" 1000
    (fold_left apply_op later_ops (recordFailedLogin "10.0.0.7" 1000 []))
  = fold_left apply_op later_ops (recordFailedLogin "10.0.0.7" 1000 []).
Proof.
  assert (H : Forall (not_before 1000) later_ops).
  { repeat (constructor; [cbn; try lia; exact I|]). constructor. }
  split; [exact H|].
  exact (cleanup_never_fires "10.0.0.7" 1000 [] later_ops H).
Defined.

Lemma other_clients_unaffected_witness :
  clientIp (knock "guess") <> "10.0.0.9" /\
  get "10.0.0.9"
    (snd (post_login "s3cret" (knock "guess") 1000 1001 guest
            (recordFailedLogin "10.0.0.9" 500 [])))
  = get "10.0.0.9" (recordFailedLogin "10.0.0.9" 500 []).
Proof.
  assert (H : clientIp (knock "guess") <> "10.0.0.9") by discriminate.
  split; [exact H|].
  exact (other_clients_unaffected "s3cret" (knock "guess") 1000 1001 guest
           (recordFailedLogin "10.0.0.9" 500 []) "10.0.0.9" H).
Defined.

(** [Buffer.from] of a number, a boolean or an object that is neither an
    array nor array-like throws; the examples send strings. *)
Definition no_buffer (v : value) : completion (list N) := Throw TypeError.

(** A delete request with a token in its header. *)
Definition remove_one (token : string) : request :=
  mkRequest Routes.DELETE "/api/menu/1" (Some "10.0.0.7") None None (Some token)
            (VObj []).

Definition visitor : session := mkSession true (Some "c0ffee").

Lemma csrfProtection_checks_token_witness :
  csrf_exempt (remove_one "c0ffee") = false /\ "f00d" <> "" /\
  csrf_token (remove_one "c0ffee") = Normal (Some (VStr "c0ffee")) /\
  exists c,
    csrfToken (ensure_token "f00d" visitor) = Some c /\ c <> "" /\
    (no_token visitor = false -> csrfToken visitor = Some c) /\
    snd (csrfProtection no_buffer (remove_one "c0ffee") "f00d" visitor)
      = ensure_token "f00d" visitor /\
    (truthy (Some (VStr "c0ffee")) = false ->
     fst (csrfProtection no_buffer (remove_one "c0ffee") "f00d" visitor)
     = Answer (Json 403 invalid_csrf)) /\
    (forall h, Some (VStr "c0ffee") = Some (VStr h) -> h <> "" ->
     fst (csrfProtection no_buffer (remove_one "c0ffee") "f00d" visitor)
     = if (List.length (utf8 h) =? List.length (utf8 c))%nat
       then if (h =? c)%string then Continue tt else Answer (Json 403 invalid_csrf)
       else Raise (PlainError "Input buffers must have the same byte length")).
Proof.
  assert (H : "f00d" <> "") by discriminate.
  split; [reflexivity|]. split; [exact H|]. split; [reflexivity|].
  exact (csrfProtection_checks_token no_buffer (remove_one "c0ffee") "f00d" visitor
           (Some (VStr "c0ffee")) eq_refl H eq_refl).
Defined.

(** A token of another length is not answered 403: the middleware throws. *)
Lemma short_token_throws :
  fst (csrfProtection no_buffer (remove_one "c0ffe") "f00d" visitor)
  = Raise (PlainError "Input buffers must have the same byte length").
Proof. vm_compute. reflexivity. Qed.

Lemma status_token_passes_witness :
  "f00d" <> "" /\
  exists c,
    c <> "" /\
    fst (auth_status "f00d" guest)
    = Json 200 (VObj [ ("isAuthenticated", VBool (isAuthenticated guest));
                       ("csrfToken", VStr c) ]) /\
    forall (r : request) (fresh' : string),
      csrf_header r = Some c ->
      csrfProtection no_buffer r fresh' (snd (auth_status "f00d" guest))
      = (Continue tt, snd (auth_status "f00d" guest)).
Proof.
  assert (H : "f00d" <> "") by discriminate.
  split; [exact H|].
  exact (status_token_passes no_buffer "f00d" guest H).
Defined.

End Auth.

(* ===================================================================== *)
(** * Reading the settings *)
(* ===================================================================== *)

Module SettingsRead.
Import JS JSON Store Settings.

(** ** [getDefaultSettings] *)

Definition getDefaultSettings : settings_t :=
  mkSettings "#0d3b2e" "#1a5c4a" "#ffffff" "#ffd700"
             (FFin (dec 4 Nil)) (FFin (dec 1 (D8 Nil)))
             (FFin (dec 0 (D9 (D5 Nil)))) (FFin (dec 1 (D5 Nil)))
             (FFin (dec 0 (D0 (D5 Nil)))) (FFin (dec 2 Nil))
             getDefaultFilterCategories.

(** The array [getDefaultFilterCategories()] returns. *)
Definition default_filters : value :=
  VArr (map filter_value getDefaultFilterCategories).

Section WithCodec.
Context {codec : Codec}.

(** ** [readSettings] *)

(** [settings.filterCategories = v] on what [JSON.parse] returned and is
    not [null]: an object gets the property (in place when it has one, at
    the end otherwise); a number, a string or a boolean ignores the
    assignment; an array gets a property that is not among its elements,
    which are all that [res.json] prints. *)
Definition assign_filters (settings v : value) : value :=
  match settings with
  | VObj fs => VObj (set_field "filterCategories" v fs)
  | _ => settings
  end.

(** [cache.settings || getDefaultSettings()], the [catch] block. *)
Definition settings_fallback (s : state) : value :=
  if truthy (Some (settings (cache s))) then settings (cache s)
  else settings_value getDefaultSettings.

Definition settings_fresh (t : Z) (s : state) : bool :=
  truthy (Some (settings (cache s))) &&
  (t - settingsTimestamp (cache s) <? CACHE_TTL (cache s)).

Definition readSettings (e : read_env) (s : state) : value * state :=
  if settings_fresh (now e) s then (settings (cache s), s)
  else
    match SETTINGS_FILE (disk s) with
    | Some txt =>
        match readFile_error e with
        | Some code => (settings_fallback s, s)
        | None =>
            match parse txt with
            | None => (settings_fallback s, s)
            | Some parsed =>
                match get_prop (Some parsed) "filterCategories" with
                | Throw err => (settings_fallback s, s)
                | Normal fc =>
                    let loaded :=
                      if negb (truthy fc) ||
                         negb (match fc with Some v => isArray v | None => false end)
                      then assign_filters parsed default_filters
                      else parsed in
                    (loaded, with_cache (set_settings loaded (now e)) s)
                end
            end
        end
    | None =>
        let defaultSettings := settings_value getDefaultSettings in
        (defaultSettings, with_cache (set_settings defaultSettings (now e)) s)
    end.

(** ** [GET /api/settings] *)

Definition load_failed : value := VObj [("error", VStr "Failed to load settings")].

Definition getSettings (e : read_env) (s : state) : reply * state :=
  let '(loaded, s1) := readSettings e s in
  if truthy (Some loaded) then (Json 200 loaded, s1)
  else (Json 500 load_failed, s1).

End WithCodec.

(** ** Properties *)

Section Facts.
Context {codec : Codec}.
Variable parseFloat : option value -> fnum.

(** *** Writes of the settings file *)

Lemma settings_locks_restored (l : locks_t) :
  lock_settings l = false -> set_lock F_settings false (set_lock F_settings true l) = l.
Proof. destruct l as [a b]. cbn. intros ->. reflexivity. Qed.

Lemma write_settings_body_frame (data : value) (a : attempt) (s : state) :
  fileLocks (snd (write_settings_body data a s)) = fileLocks s /\
  DATA_FILE (disk (snd (write_settings_body data a s))) = DATA_FILE (disk s) /\
  menuData (cache (snd (write_settings_body data a s))) = menuData (cache s) /\
  match fst (write_settings_body data a s) with
  | Normal _ =>
      SETTINGS_FILE (disk (snd (write_settings_body data a s)))
        = Some (stringify data) /\
      settings (cache (snd (write_settings_body data a s))) = VNull
  | Throw _ =>
      SETTINGS_FILE (disk (snd (write_settings_body data a s)))
        = SETTINGS_FILE (disk s) /\
      cache (snd (write_settings_body data a s)) = cache s
  end.
Proof.
  unfold write_settings_body.
  destruct (is_object data); cbn [negb]; [|cbn; auto].
  destruct (writeFile_ok a); cbn [negb]; [|cbn; auto].
  destruct (rename_ok a); cbn [negb]; cbn; auto.
Qed.

Lemma write_settings_cleanup_frame (a : attempt) (s : state) :
  fileLocks (write_settings_cleanup a s) = set_lock F_settings false (fileLocks s) /\
  DATA_FILE (disk (write_settings_cleanup a s)) = DATA_FILE (disk s) /\
  SETTINGS_FILE (disk (write_settings_cleanup a s)) = SETTINGS_FILE (disk s) /\
  cache (write_settings_cleanup a s) = cache s.
Proof. unfold write_settings_cleanup. destruct (unlink_ok a); cbn; auto. Qed.

Lemma write_settings_loop_frame (left : nat) :
  forall (i : nat) (data : value) (env : write_env) (s : state),
    fileLocks (snd (write_settings_loop left i data env s)) = fileLocks s /\
    DATA_FILE (disk (snd (write_settings_loop left i data env s)))
      = DATA_FILE (disk s) /\
    menuData (cache (snd (write_settings_loop left i data env s)))
      = menuData (cache s) /\
    match fst (write_settings_loop left i data env s) with
    | Normal true =>
        SETTINGS_FILE (disk (snd (write_settings_loop left i data env s)))
          = Some (stringify data) /\
        settings (cache (snd (write_settings_loop left i data env s))) = VNull
    | _ =>
        SETTINGS_FILE (disk (snd (write_settings_loop left i data env s)))
          = SETTINGS_FILE (disk s) /\
        cache (snd (write_settings_loop left i data env s)) = cache s
    end.
Proof.
  induction left as [|left IH]; intros i data env s; [cbn; auto|].
  cbn [write_settings_loop]. unfold acquireLock; cbn [locked].
  destruct (lock_settings (fileLocks s) || lock_busy (env i)) eqn:Hl; [apply IH|].
  apply orb_false_elim in Hl. destruct Hl as [Hl _].
  pose proof (write_settings_body_frame data (env i)
                (with_locks (set_lock F_settings true) s)) as (Bl & Bd & Bm & Bs).
  destruct (write_settings_body data (env i) _) as [[u|err] s1]; cbn [fst snd] in *.
  - split; [|split; [exact Bd | split; [exact Bm | exact Bs]]].
    unfold releaseLock. cbn [fileLocks with_locks]. rewrite Bl.
    cbn [fileLocks with_locks]. apply settings_locks_restored, Hl.
  - destruct (IH (S i) data env (write_settings_cleanup (env i) s1))
      as (Il & Id & Im & Is).
    destruct (write_settings_cleanup_frame (env i) s1) as (Cl & Cd & Cs & Cc).
    destruct Bs as [Bs Bc].
    split; [|split; [|split]].
    + rewrite Il, Cl, Bl. cbn [fileLocks with_locks].
      apply settings_locks_restored, Hl.
    + rewrite Id, Cd. exact Bd.
    + rewrite Im, Cc, Bc. reflexivity.
    + destruct (fst (write_settings_loop left (S i) data env _)) as [[|]|err'];
        try exact Is;
        (destruct Is as [Is Ic]; split;
         [rewrite Is, Cs; exact Bs | rewrite Ic, Cc; exact Bc]).
Qed.

(** X18. Whatever fails and whenever, [writeSettings] returns a boolean
    and is all or nothing: after [true] the settings file holds the complete
    print of the data and the cached settings are dropped; after [false] the
    settings file and the whole cache are as before.  In both cases the lock
    flags are as it found them and the menu file and the cached menu are not
    touched. *)
Theorem writeSettings_all_or_nothing (data : value) (env : write_env) (s : state) :
  exists b s',
    writeSettings data env s = (Normal b, s') /\
    (if b
     then SETTINGS_FILE (disk s') = Some (stringify data) /\
          settings (cache s') = VNull
     else SETTINGS_FILE (disk s') = SETTINGS_FILE (disk s) /\ cache s' = cache s) /\
    fileLocks s' = fileLocks s /\
    DATA_FILE (disk s') = DATA_FILE (disk s) /\
    menuData (cache s') = menuData (cache s).
Proof.
  destruct (write_settings_total maxRetries 0 data env s) as (b & s' & E).
  pose proof (write_settings_loop_frame maxRetries 0 data env s) as (Hl & Hd & Hm & Hs).
  unfold writeSettings. rewrite E in *. cbn [fst snd] in *.
  exists b, s'. split; [reflexivity|]. split; [|auto].
  destruct b; exact Hs.
Qed.

(** *** Settings read back *)

Lemma fmin_fmax_wf (lo hi : number) (x : fnum) :
  num_wf lo -> num_wf hi -> x <> FNaN ->
  (forall n, x = FFin n -> num_wf n) ->
  exists n, fmax (FFin lo) (fmin (FFin hi) x) = FFin n /\ num_wf n.
Proof.
  intros Hlo Hhi Hx Hn.
  destruct x as [ | | n | ]; [contradiction | | |]; cbn [fmin fmax].
  - exists lo. split; [reflexivity | exact Hlo].
  - destruct (num_leb hi n); cbn [fmax];
      match goal with
      | |- context [num_leb lo ?y] => destruct (num_leb lo y)
      end; eexists; (split; [reflexivity|]); auto.
  - destruct (num_leb lo hi); eexists; (split; [reflexivity|]); auto.
Qed.

Lemma clamp_wf (v : option value) (lo hi d : number) :
  num_wf lo -> num_wf hi -> num_wf d ->
  (forall n, parseFloat v = FFin n -> num_wf n) ->
  exists n, clamp parseFloat v lo hi d = FFin n /\ num_wf n.
Proof.
  intros Hlo Hhi Hd Hn. unfold clamp.
  destruct (parseFloat v) as [ | | n | ] eqn:E.
  - exists d. split; [reflexivity | exact Hd].
  - apply fmin_fmax_wf; auto; discriminate.
  - apply fmin_fmax_wf; auto; discriminate.
  - apply fmin_fmax_wf; auto; discriminate.
Qed.

Lemma filter_value_wf (f : filter) : wf_value (filter_value f).
Proof.
  unfold filter_value. apply wf_obj. split.
  - cbn [map fst]. repeat (constructor; [cbn [In]; intuition discriminate|]).
    constructor.
  - repeat constructor.
Qed.

Lemma filters_wf (l : list filter) : wf_value (VArr (map filter_value l)).
Proof.
  apply wf_arr. induction l as [|f l IH]; constructor;
    [apply filter_value_wf | exact IH].
Qed.

Lemma validSettings_wf (body : value) (vs : settings_t) :
  (forall k n, parseFloat (prop body k) = FFin n -> num_wf n) ->
  validSettings parseFloat body = Normal vs -> wf_value (settings_value vs).
Proof.
  intros Hp E. unfold validSettings in E.
  destruct (get_prop (Some body) "filterCategories") as [fc|err]; [|discriminate E].
  cbn [bind] in E. injection E as <-.
  unfold settings_value, settings_fields. apply wf_obj. split.
  - cbn [map fst]. repeat (constructor; [cbn [In]; intuition discriminate|]).
    constructor.
  - cbn [headingFontSize itemNameSize descriptionSize priceSize cardOpacity gridGap
         primaryColor secondaryColor textColor accentColor filterCategories].
    repeat (constructor; [cbn [snd]; try exact I|]);
      try (match goal with
           | |- wf_value (fnum_value (clamp _ ?v ?lo ?hi ?d)) =>
               destruct (clamp_wf v lo hi d eq_refl eq_refl eq_refl (Hp _))
                 as (n & -> & Hn); exact Hn
           end).
    + apply filters_wf.
    + constructor.
Qed.

Lemma settings_filters (vs : settings_t) :
  get_prop (Some (settings_value vs)) "filterCategories"
  = Normal (Some (VArr (map filter_value (filterCategories vs)))).
Proof. reflexivity. Qed.

Definition settings_updated (v : value) : value :=
  VObj [ ("success", VBool true);
         ("message", VStr "Settings updated successfully");
         ("settings", v) ].

(** X19. Settings read back.  After [PUT /api/settings] has answered 200
    with a settings object, [GET /api/settings], if [fs.readFile] does not
    fail, answers 200 with exactly that object, and caches it.  (The numbers
    of the request are taken to be printed canonically by [parseFloat].) *)
Theorem settings_read_after_write (body : value) (w : write_env) (s : state)
        (e : read_env) (v : value) :
  (forall k n, parseFloat (prop body k) = FFin n -> num_wf n) ->
  fst (putSettings parseFloat body w s) = Json 200 (settings_updated v) ->
  readFile_error e = None ->
  getSettings e (snd (putSettings parseFloat body w s))
  = (Json 200 v,
     with_cache (set_settings v (now e)) (snd (putSettings parseFloat body w s))).
Proof.
  intros Hp Hput Herr. unfold putSettings in *.
  destruct (validSettings parseFloat body) as [vs|err] eqn:Ev; [|discriminate Hput].
  pose proof (validSettings_wf body vs Hp Ev) as Hwf.
  destruct (writeSettings (settings_value vs) w s) as [[[|]|err] s1] eqn:Ew;
    cbn [fst snd] in *; try discriminate Hput.
  injection Hput as <-.
  destruct (write_settings_success _ _ _ _ _ _ Ew) as (Hfile & Hcache).
  unfold getSettings, readSettings, settings_fresh.
  rewrite Hcache, Hfile, Herr. cbn [truthy andb].
  rewrite (parse_stringify _ Hwf). rewrite settings_filters.
  cbn [truthy isArray negb orb]. reflexivity.
Qed.

(** *** What a first read returns *)

Lemma lookup_set_field_same (k : string) (v : value) (fs : list (string * value)) :
  lookup k (set_field k v fs) = Some v.
Proof.
  induction fs as [|[k' v'] fs IH]; cbn [set_field lookup].
  - rewrite String.eqb_refl. reflexivity.
  - destruct (k' =? k)%string eqn:E; cbn [lookup]; rewrite E; [reflexivity | exact IH].
Qed.

Lemma lookup_set_field_other (k k0 : string) (v : value) (fs : list (string * value)) :
  k0 <> k -> lookup k0 (set_field k v fs) = lookup k0 fs.
Proof.
  intros Hne. induction fs as [|[k' v'] fs IH]; cbn [set_field lookup].
  - destruct (String.eqb_spec k k0); [congruence | reflexivity].
  - destruct (String.eqb_spec k' k) as [->|Hk]; cbn [lookup].
    + destruct (String.eqb_spec k k0); [congruence | reflexivity].
    + destruct (k' =? k0)%string; [reflexivity | exact IH].
Qed.

(** X20. What [GET /api/settings] answers when nothing is cached and
    [fs.readFile] does not fail.  Without a settings file, or with one that
    is not JSON or holds [null], it answers 200 with the default settings.
    With a file that holds an object it answers 200 with that object, whose
    [filterCategories] is kept when it is an array and replaced by the
    default categories otherwise, every other property being left as it
    is. *)
Theorem getSettings_first_read (e : read_env) (s : state) :
  settings (cache s) = VNull -> readFile_error e = None ->
  match SETTINGS_FILE (disk s) with
  | None => fst (getSettings e s) = Json 200 (settings_value getDefaultSettings)
  | Some txt =>
      match parse txt with
      | None | Some VNull =>
          fst (getSettings e s) = Json 200 (settings_value getDefaultSettings)
      | Some (VObj fs) =>
          exists fs',
            fst (getSettings e s) = Json 200 (VObj fs') /\
            (forall l, lookup "filterCategories" fs = Some (VArr l) -> fs' = fs) /\
            ((forall l, lookup "filterCategories" fs <> Some (VArr l)) ->
             lookup "filterCategories" fs' = Some default_filters) /\
            (forall k, k <> "filterCategories" -> lookup k fs' = lookup k fs)
      | Some _ => True
      end
  end.
Proof.
  intros Hc Herr. unfold getSettings, readSettings, settings_fresh, settings_fallback.
  rewrite Hc. cbn [truthy andb].
  destruct (SETTINGS_FILE (disk s)) as [txt|]; [|reflexivity].
  rewrite Herr.
  destruct (parse txt) as [[ | b | n | str | l | fs]|]; try exact I; try reflexivity.
  cbn [get_prop].
  assert (Hcond : forall fc : option value,
            (negb (truthy fc) ||
             negb (match fc with Some v => isArray v | None => false end))
            = match fc with Some (VArr _) => false | _ => true end).
  { intros [[ | b | n | str | l | fs0]|]; cbn [isArray negb truthy orb];
      try reflexivity; apply orb_true_r. }
  rewrite Hcond.
  assert (Hrep : exists fs',
            fst (if truthy (Some (assign_filters (VObj fs) default_filters))
                 then (Json 200 (assign_filters (VObj fs) default_filters),
                       with_cache (set_settings
                                     (assign_filters (VObj fs) default_filters)
                                     (now e)) s)
                 else (Json 500 load_failed,
                       with_cache (set_settings
                                     (assign_filters (VObj fs) default_filters)
                                     (now e)) s))
            = Json 200 (VObj fs') /\
            lookup "filterCategories" fs' = Some default_filters /\
            (forall k, k <> "filterCategories" -> lookup k fs' = lookup k fs)).
  { cbn [assign_filters truthy fst]. eexists. split; [reflexivity|].
    split; [apply lookup_set_field_same|].
    intros k Hk. apply lookup_set_field_other. exact Hk. }
  destruct (lookup "filterCategories" fs) as [[ | b | n | str | l | fs0]|] eqn:Efc;
    try (destruct Hrep as (fs' & H1 & H2 & H3); exists fs';
         split; [exact H1|]; split; [intros l0 H; discriminate H|];
         split; [intros _; exact H2 | exact H3]).
  cbn [truthy fst]. exists fs. split; [reflexivity|]. split; [reflexivity|].
  split; [|reflexivity]. intros H. exfalso. apply (H l). reflexivity.
Qed.

End Facts.

(** ** Worked examples, over the reference codec *)

(** A request that changes one colour and one knob. *)
Definition retouch : value :=
  VObj [ ("primaryColor", VStr "#112233");
         ("gridGap", VNum (dec 3 Nil)) ].

Definition quiet (t : Z) : read_env := mkReadEnv t None (fun _ => calm_attempt t).

(** The settings object in a 200 answer of [PUT /api/settings]. *)
Definition answered_settings (r : reply) : value :=
  match r with
  | Json 200 body =>
      match prop body "settings" with
      | Some v => v
      | None => VNull
      end
  | _ => VNull
  end.

Lemma retouch_numbers (k : string) (n : number) :
  parseFloat_plain (prop retouch k) = FFin n -> num_wf n.
Proof.
  unfold prop, retouch. cbn [get_prop lookup].
  destruct ("primaryColor" =? k)%string; [discriminate|].
  destruct ("gridGap" =? k)%string; [|discriminate].
  intros [= <-]. reflexivity.
Qed.

Lemma settings_read_after_write_witness :
  (forall k n, parseFloat_plain (prop retouch k) = FFin n -> num_wf n) /\
  fst (putSettings parseFloat_plain retouch (fun _ => calm_attempt 0)
         (initial 5000 no_files))
  = Json 200 (settings_updated
                (answered_settings
                   (fst (putSettings parseFloat_plain retouch
                           (fun _ => calm_attempt 0) (initial 5000 no_files))))) /\
  readFile_error (quiet 1) = None /\
  getSettings (quiet 1)
    (snd (putSettings parseFloat_plain retouch (fun _ => calm_attempt 0)
            (initial 5000 no_files)))
  = (Json 200 (answered_settings
                 (fst (putSettings parseFloat_plain retouch
                         (fun _ => calm_attempt 0) (initial 5000 no_files)))),
     with_cache
       (set_settings
          (answered_settings
             (fst (putSettings parseFloat_plain retouch
                     (fun _ => calm_attempt 0) (initial 5000 no_files))))
          (now (quiet 1)))
       (snd (putSettings parseFloat_plain retouch (fun _ => calm_attempt 0)
               (initial 5000 no_files)))).
Proof.
  assert (H : fst (putSettings parseFloat_plain retouch (fun _ => calm_attempt 0)
                     (initial 5000 no_files))
              = Json 200 (settings_updated
                  (answered_settings
                     (fst (putSettings parseFloat_plain retouch
                             (fun _ => calm_attempt 0) (initial 5000 no_files))))))
    by (vm_compute; reflexivity).
  split; [exact retouch_numbers|]. split; [exact H|]. split; [reflexivity|].
  exact (settings_read_after_write parseFloat_plain retouch (fun _ => calm_attempt 0)
           (initial 5000 no_files) (quiet 1) _ retouch_numbers H eq_refl).
Defined.

(** The colour and the knob of the request come back. *)
Lemma retouch_read_back :
  match fst (getSettings (quiet 1)
               (snd (putSettings parseFloat_plain retouch (fun _ => calm_attempt 0)
                       (initial 5000 no_files)))) with
  | Json 200 v => prop v "primaryColor" = Some (VStr "#112233") /\
                  prop v "gridGap" = Some (VNum (dec 3 Nil)) /\
                  prop v "headingFontSize" = Some (VNum (dec 4 Nil))
  | _ => False
  end.
Proof. vm_compute. repeat split. Qed.

(** A hand-written settings file with a colour only. *)
Definition bare : state :=
  mkState (mkCache VNull VNull 0 0 5000 None 0) (mkLocks false false)
          (mkDisk None None
                  (Some (stringify (VObj [("primaryColor", VStr "#000000")])))
                  None).

Lemma getSettings_first_read_witness :
  settings (cache bare) = VNull /\ readFile_error (quiet 1) = None /\
  match SETTINGS_FILE (disk bare) with
  | None => fst (getSettings (quiet 1) bare)
            = Json 200 (settings_value getDefaultSettings)
  | Some txt =>
      match parse txt with
      | None | Some VNull =>
          fst (getSettings (quiet 1) bare)
          = Json 200 (settings_value getDefaultSettings)
      | Some (VObj fs) =>
          exists fs',
            fst (getSettings (quiet 1) bare) = Json 200 (VObj fs') /\
            (forall l, lookup "filterCategories" fs = Some (VArr l) -> fs' = fs) /\
            ((forall l, lookup "filterCategories" fs <> Some (VArr l)) ->
             lookup "filterCategories" fs' = Some default_filters) /\
            (forall k, k <> "filterCategories" -> lookup k fs' = lookup k fs)
      | Some _ => True
      end
  end.
Proof.
  split; [reflexivity|]. split; [reflexivity|].
  exact (getSettings_first_read (quiet 1) bare eq_refl eq_refl).
Defined.

(** That file is served with its colour and the default categories. *)
Lemma bare_served :
  fst (getSettings (quiet 1) bare)
  = Json 200 (VObj [ ("primaryColor", VStr "#000000");
                     ("filterCategories", default_filters) ]).
Proof. vm_compute. reflexivity. Qed.

End SettingsRead.

(* ===================================================================== *)
(** * What [parseInt] reads off a number *)
(* ===================================================================== *)

Module Truncation.
Import JS Numbers.








End Truncation.

(* ===================================================================== *)
(** * [POST /api/menu/import] *)
(* ===================================================================== *)

Module MenuImport.
Import JS JSON Store Settings Strings Validate.

(** ** The item the import keeps *)

(** [/^[A-Za-z0-9+/=]+$/] matches [s]: base64 text without white space. *)
Definition is_base64_strict (s : string) : bool :=
  negb (s =? "")%string &&
  all_chars (fun c => is_base64_char c && negb (is_space c)) s.

(** The property [tags] of [validItem], when it is set:
<<
   if (item.tags) {
     if (Array.isArray(item.tags)) {
       validItem.tags = item.tags
         .filter((tag) => tag && String(tag).trim().length > 0)
         .map((tag) => sanitizeString(String(tag)));
     } else if (typeof item.tags === "string") {
       validItem.tags = item.tags.split(",")
         .map((tag) => sanitizeString(tag.trim()))
         .filter((tag) => tag.length > 0);
     }
   }
>> *)
Definition import_tags (tags : option value) : option value :=
  if truthy tags then
    match tags with
    | Some (VArr l) =>
        Some (VArr (map (fun tag => VStr (sanitizeString (Some (VStr (ToString tag)))))
                        (List.filter
                           (fun tag => truthy (Some tag) &&
                                       (len (trim (ToString tag)) >? 0)) l)))
    | Some (VStr s) =>
        Some (VArr (map VStr
                        (List.filter (fun tag => len tag >? 0)
                           (map (fun tag => sanitizeString (Some (VStr (trim tag))))
                                (split_comma s)))))
    | _ => None
    end
  else None.

(** The property [image] of [validItem], when it is set. *)
Definition import_image (image : option value) : option value :=
  if truthy image && typeof_string image then
    let trimmedImage := trim (string_of image) in
    if len trimmedImage >? 0 then
      if String.prefix "data:image/" trimmedImage || is_base64_strict trimmedImage
      then Some (VStr trimmedImage)
      else None
    else None
  else None.

(** [typeof v === "number"]. *)
Definition typeof_number (v : option value) : bool :=
  match v with
  | Some (VNum _) => true
  | _ => false
  end.

(** The property [id] of [validItem], when it is set:
<<
   if (item.id && (typeof item.id === "number" || !isNaN(parseInt(item.id)))) {
     const itemId = parseInt(item.id);
     if (itemId > 0) validItem.id = itemId;
   }
>> *)
Definition import_id (id : option value) : option Z :=
  if truthy id &&
     (typeof_number id || match parseInt id with Some _ => true | None => false end)
  then
    match parseInt id with
    | Some itemId => if itemId >? 0 then Some itemId else None
    | None => None
    end
  else None.

(** [x || 0] for a number. *)
Definition or_zero (x : fnum) : fnum :=
  match x with
  | FNaN => FFin (dec 0 Nil)
  | FFin n => if Qeq_bool (num_Q n) 0 then FFin (dec 0 Nil) else x
  | _ => x
  end.

Definition optional (k : string) (v : option value) : list (string * value) :=
  match v with
  | Some x => [(k, x)]
  | None => []
  end.

(** ** Ids *)

(** Whether an assignment [x.id = ..] sticks: on an object, and on an
    array, which gets a property that [JSON.stringify] does not print; a
    number, a string or a boolean ignores it. *)
Definition settable (x : value) : bool :=
  match x with
  | VObj _ | VArr _ => true
  | _ => false
  end.

(** The item after [x.id = id], as [JSON.stringify] prints it: the new
    property of an array is not printed. *)
Definition assign_id (x : value) (id : Z) : value :=
  match x with
  | VObj fs => VObj (set_field "id" (VInt id) fs)
  | _ => x
  end.

(** What [x.id] reads after [x.id = id], where it read [before]. *)
Definition id_after (x : value) (id : Z) (before : option value) : option value :=
  if settable x then Some (VInt id) else before.

(** An element of [finalData]: the item and what its [id] reads. *)
Definition cell : Type := (value * option value)%type.

(** The equality of [Set.prototype.has]: values are compared, and two
    objects or arrays that were parsed apart are never the same. *)
Definition same_value_zero (a b : option value) : bool :=
  match a, b with
  | None, None => true
  | Some VNull, Some VNull => true
  | Some (VBool x), Some (VBool y) => Bool.eqb x y
  | Some (VNum x), Some (VNum y) => num_eqb x y
  | Some (VStr x), Some (VStr y) => (x =? y)%string
  | _, _ => false
  end.

(** [idSet.has(v)]. *)
Definition has (idSet : list (option value)) (v : option value) : bool :=
  existsb (same_value_zero v) idSet.

(** The second loop; [nextId++] is a sum of numbers:
<<
   const idSet = new Set();
   for (let i = 0; i < finalData.length; i++) {
     if (idSet.has(finalData[i].id)) finalData[i].id = nextId++;
     idSet.add(finalData[i].id);
   }
>> *)
Fixpoint make_unique (l : list cell) (idSet : list (option value)) (nextId : Z)
  : list cell :=
  match l with
  | [] => []
  | (x, id) :: rest =>
      if has idSet id then
        (assign_id x nextId, id_after x nextId id)
          :: make_unique rest (id_after x nextId id :: idSet)
                         (number_add nextId 1)
      else (x, id) :: make_unique rest (id :: idSet) nextId
  end.

Definition import_done (count total : nat) : value :=
  VObj [ ("success", VBool true);
         ("message",
          VStr ("Successfully imported "
                ++ number_to_string (num_of_Z (Z.of_nat count))
                ++ " item" ++ (if (count =? 1)%nat then "" else "s")));
         ("count", VInt (Z.of_nat count));
         ("total", VInt (Z.of_nat total)) ].

Section WithRuntime.
Context {codec : Codec}.

(** [parseFloat], [s <= 0] for a string [s], and the message of the
    [SyntaxError] [JSON.parse] throws on a text, are the runtime's. *)
Variable parseFloat : option value -> fnum.
Variable string_le_0 : string -> bool.
Variable parse_error_message : string -> string.

(** The object [validItem] built from an item [validateMenuItem] accepts. *)
Definition validItem (item : value) : value :=
  VObj ([ ("name", VStr (sanitized (prop item "name")));
          ("category", VStr (sanitized (prop item "category")));
          ("price", fnum_value (or_zero (parseFloat (prop item "price"))));
          ("description", VStr (sanitized (prop item "description"))) ]
        ++ optional "tags" (import_tags (prop item "tags"))
        ++ optional "image" (import_image (prop item "image"))
        ++ optional "id" (option_map VInt (import_id (prop item "id")))).

(** The loop over [importedItems]; [validateMenuItem] throws on [null]. *)
Fixpoint collect_valid (items : list value) : completion (list value) :=
  match items with
  | [] => Normal []
  | item :: rest =>
      it <- item_of_value item ;;
      kept <- collect_valid rest ;;
      Normal (match validateMenuItem it with
              | Valid => validItem item :: kept
              | Invalid _ => kept
              end)
  end.

(** [id <= 0] for what [x.id] reads. *)
Definition le_zero (id : option value) : bool :=
  match id with
  | None => false
  | Some VNull => true
  | Some (VBool b) => negb b
  | Some (VNum n) => Qle_bool (num_Q n) 0
  | Some (VStr s) => string_le_0 s
  | Some (VArr l) => string_le_0 (ToString (VArr l))
  | Some (VObj _) => false
  end.

(** The first loop, over items that are not [null]:
<<
   for (let i = 0; i < finalData.length; i++) {
     if (!finalData[i].id || finalData[i].id <= 0) finalData[i].id = nextId++;
   }
>>
    It returns the cells and the value of [nextId] after the loop. *)
Fixpoint assign_missing (l : list value) (nextId : Z) : list cell * Z :=
  match l with
  | [] => ([], nextId)
  | x :: rest =>
      let id := prop x "id" in
      if negb (truthy id) || le_zero id then
        let '(cells, n) := assign_missing rest (number_add nextId 1) in
        ((assign_id x nextId, id_after x nextId id) :: cells, n)
      else
        let '(cells, n) := assign_missing rest nextId in
        ((x, id) :: cells, n)
  end.

(** [finalData] after the two loops. *)
Definition renumber (finalData : list value) (maxId : Z) : list value :=
  let '(cells, nextId) := assign_missing finalData (number_add maxId 1) in
  map fst (make_unique cells [] nextId).

Definition bad_request (message : string) : value :=
  VObj [("success", VBool false); ("message", VStr message)].

Definition import_failed : value :=
  VObj [("success", VBool false); ("message", VStr "Failed to save imported data")].

(** [req.body.replace === true || req.body.replace === "true"]. *)
Definition replace_flag (v : option value) : bool :=
  match v with
  | Some (VBool true) => true
  | Some (VStr s) => (s =? "true")%string
  | _ => false
  end.

(** The write and the answer. *)
Definition save_import (count : nat) (finalData : list value)
           (e : handler_env) (s : state) : reply * state :=
  match writeMenuData (VArr finalData) (h_write e) s with
  | (Normal true, s1) => (Json 200 (import_done count (List.length finalData)), s1)
  | (Normal false, s1) => (Json 500 import_failed, s1)
  | (Throw err, s1) => (Next err, s1)
  end.

(** [POST /api/menu/import], after [requireAuth] and [csrfProtection]. *)
Definition import_menu (body : value) (e : handler_env) (s : state) : reply * state :=
  match get_prop (Some body) "data" with
  | Throw err => (Next err, s)
  | Normal in_data =>
      if negb (truthy in_data) && negb (truthy (Some body))
      then (Json 400 (bad_request "No data provided"), s)
      else
        let data := if truthy in_data then in_data else Some body in
        let replace :=
          if truthy in_data then replace_flag (prop body "replace") else false in
        match (match data with
               | Some (VStr txt) =>
                   match parse txt with
                   | Some v => inl v
                   | None => inr txt
                   end
               | Some v => inl v
               | None => inl VNull
               end) with
        | inr txt =>
            (Json 400 (bad_request ("Invalid JSON format: "
                                    ++ parse_error_message txt)), s)
        | inl (VArr importedItems) =>
            match collect_valid importedItems with
            | Throw err => (Next err, s)
            | Normal [] =>
                (Json 400 (bad_request "No valid items found in import data"), s)
            | Normal validItems =>
                if replace then
                  match getMaxId (VArr validItems) with
                  | Throw err => (Next err, s)
                  | Normal maxId =>
                      save_import (List.length validItems)
                                  (renumber validItems maxId) e s
                  end
                else
                  let '(r, s1) := readMenuData (h_read e) s in
                  match returned r with
                  | Throw err => (Next err, s1)
                  | Normal (VArr existingData) =>
                      match getMaxId (VArr existingData) with
                      | Throw err => (Next err, s1)
                      | Normal existingMaxId =>
                          match getMaxId (VArr validItems) with
                          | Throw err => (Next err, s1)
                          | Normal importedMaxId =>
                              let finalData :=
                                renumber (existingData ++ validItems)
                                         (Z.max existingMaxId importedMaxId) in
                              let s2 :=
                                mutate_read r
                                  (VArr (firstn (List.length existingData) finalData))
                                  s1 in
                              save_import (List.length validItems) finalData e s2
                          end
                      end
                  | Normal _ => (Next TypeError, s1)
                  end
            end
        | inl _ =>
            (Json 400 (bad_request "Data must be an array of menu items"), s)
        end
  end.

End WithRuntime.


(** ** Facts *)

Section ImportFacts.
Context {codec : Codec}.
Variable parseFloat : option value -> fnum.
Variable string_le_0 : string -> bool.
Variable parse_error_message : string -> string.

(** *** Numeric ids and the counter *)









(** *** What the two loops keep *)











(** *** Counting where it is exact *)








(** *** An id the second loop lets through is new *)





(** *** The highest id bounds every numeric id *)







(** *** The collection after the two loops *)




(** *** Runs without file faults *)








(** *** A merge over a numbered collection *)












(** *** Integer ids *)















End ImportFacts.

(** ** Worked example, over the reference codec *)

(** [s <= 0] on the strings of the examples: a blank string counts as 0. *)
Definition string_le_0_plain (s : string) : bool := (trim s =? "")%string.

Definition any_message (txt : string) : string := "Unexpected token".

(** A soup that asks for the id the stored burger has, a string, and a
    cake without an id. *)
Definition soup : value :=
  VObj [ ("name", VStr " Soup "); ("category", VStr "starters");
         ("price", VNum (mkNumber false 4 Nil)); ("id", VInt 1) ].

Definition cake : value :=
  VObj [ ("name", VStr "Cake"); ("category", VStr "desserts");
         ("price", VNum (mkNumber false 3 (D5 Nil)));
         ("tags", VArr [VStr "sweet"]) ].

Definition platter : value := VObj [ ("data", VArr [soup; VStr "junk"; cake]) ].

Definition stored_burger : value := item_with_id burger VNull 1.

Definition served : reply * state :=
  import_menu parseFloat_plain string_le_0_plain any_message platter (calm 9000)
              Durability.one_stored.












(** The string is dropped.  The first loop gives the cake the id 2; the
    second finds that the soup asks for the id of the burger and gives it
    the id 3. *)
Lemma platter_stored :
  stored (snd served)
  = Some (VArr [ stored_burger;
                 VObj [ ("name", VStr "Soup"); ("category", VStr "starters");
                        ("price", VNum (mkNumber false 4 Nil));
                        ("description", VStr ""); ("id", VInt 3) ];
                 VObj [ ("name", VStr "Cake"); ("category", VStr "desserts");
                        ("price", VNum (mkNumber false 3 (D5 Nil)));
                        ("description", VStr "");
                        ("tags", VArr [VStr "sweet"]); ("id", VInt 2) ] ]).
Proof. vm_compute. reflexivity. Qed.

(** Past the integers that a number holds exactly the counting stops: a
    soup that brings the id 2^53 and a cake without an id, imported in
    replace mode, are both stored with the id 2^53. *)
Definition big_soup : value :=
  VObj [ ("name", VStr "Soup"); ("category", VStr "starters");
         ("price", VNum (mkNumber false 4 Nil));
         ("id", VInt (MAX_SAFE_INTEGER + 1)) ].

Definition big_platter : value :=
  VObj [ ("data", VArr [big_soup; cake]); ("replace", VBool true) ].

Lemma import_repeats_the_id_at_the_brim :
  option_map (fun v => match v with VArr l => map id_of l | _ => [] end)
    (stored (snd (import_menu parseFloat_plain string_le_0_plain any_message
                    big_platter (calm 9000) Durability.one_stored)))
  = Some [MAX_SAFE_INTEGER + 1; MAX_SAFE_INTEGER + 1].
Proof. vm_compute. reflexivity. Qed.

End MenuImport.

(* ===================================================================== *)
(** * The change-detection hash of the public page *)
(* ===================================================================== *)

Module DataHash.
Import JS.

(** [ToInt32]: the integer modulo 2^32, taken between -2^31 and 2^31 - 1. *)
Definition to_int32 (z : Z) : Z := (z + 2 ^ 31) mod 2 ^ 32 - 2 ^ 31.

(** One turn of the loop of [generateDataHash], on the integer [hash] and
    the code unit [char]:
<<
   hash = ((hash << 5) - hash) + char;
   hash = hash & hash; // Convert to 32-bit integer
>>
    The shift and the conjunction take and give 32-bit integers; the
    subtraction and the addition are exact. *)
Definition hash_step (hash char : Z) : Z :=
  let hash1 := to_int32 (Z.shiftl (to_int32 hash) 5) - hash + char in
  to_int32 (Z.land (to_int32 hash1) (to_int32 hash1)).

(** The loop, over the code units [jsonString.charCodeAt(i)] of the text
    [JSON.stringify(data)]. *)
Definition hash_loop (jsonString : list Z) : Z := fold_left hash_step jsonString 0.

(** [generateDataHash], from the text on: [hash.toString()]. *)
Definition generateDataHash (jsonString : list Z) : string :=
  number_to_string (num_of_Z (hash_loop jsonString)).

(** The polynomial in 31 whose coefficients are the code units, the first
    one with the highest power. *)
Definition polynomial (jsonString : list Z) : Z :=
  fold_left (fun acc char => 31 * acc + char) jsonString 0.

(** ** Facts *)

Lemma to_int32_range (z : Z) : - 2 ^ 31 <= to_int32 z < 2 ^ 31.
Proof.
  unfold to_int32. pose proof (Z.mod_pos_bound (z + 2 ^ 31) (2 ^ 32) eq_refl). lia.
Qed.

Lemma to_int32_small (z : Z) : - 2 ^ 31 <= z < 2 ^ 31 -> to_int32 z = z.
Proof. intros H. unfold to_int32. rewrite Z.mod_small; lia. Qed.

Lemma to_int32_mod (z : Z) : to_int32 z mod 2 ^ 32 = z mod 2 ^ 32.
Proof.
  unfold to_int32. rewrite Zminus_mod_idemp_l. f_equal. lia.
Qed.

Lemma to_int32_eqm (a b : Z) :
  a mod 2 ^ 32 = b mod 2 ^ 32 <-> to_int32 a = to_int32 b.
Proof.
  split; intros H.
  - unfold to_int32. rewrite (Zplus_mod a), H, <- Zplus_mod. reflexivity.
  - rewrite <- (to_int32_mod a), <- (to_int32_mod b), H. reflexivity.
Qed.

(** Congruences, for any modulus: the proofs below never look into
    [2 ^ 32]. *)
Lemma mod_linear (M a b c : Z) :
  (a * (b mod M) + c) mod M = (a * b + c) mod M.
Proof.
  rewrite Zplus_mod, Zmult_mod, Zmod_mod, <- Zmult_mod, <- Zplus_mod.
  reflexivity.
Qed.

Lemma mod_shift_sub (M a h c : Z) :
  a mod M = (32 * h) mod M -> (a - h + c) mod M = (31 * h + c) mod M.
Proof.
  intros H. rewrite Zplus_mod, Zminus_mod, H, <- Zminus_mod, <- Zplus_mod.
  f_equal. ring.
Qed.

Lemma to_int32_linear (a b c : Z) :
  to_int32 (a * to_int32 b + c) = to_int32 (a * b + c).
Proof.
  apply to_int32_eqm. rewrite <- (mod_linear (2 ^ 32) a (to_int32 b) c).
  rewrite to_int32_mod. apply mod_linear.
Qed.

Lemma hash_step_mod (hash char : Z) :
  hash_step hash char = to_int32 (31 * hash + char).
Proof.
  unfold hash_step. cbv zeta. rewrite Z.land_diag.
  rewrite to_int32_small by apply to_int32_range.
  apply to_int32_eqm. apply mod_shift_sub.
  rewrite to_int32_mod, Z.shiftl_mul_pow2 by (apply Z.leb_le; reflexivity).
  change (2 ^ 5) with 32.
  rewrite (Z.mul_comm (to_int32 hash) 32).
  rewrite <- (Z.add_0_r (32 * to_int32 hash)), <- (Z.add_0_r (32 * hash)).
  rewrite <- (mod_linear (2 ^ 32) 32 (to_int32 hash) 0), to_int32_mod.
  apply mod_linear.
Qed.

(** Two loops whose turns keep a relation keep it to the end. *)
Lemma fold_left_related (A B C : Type) (f : A -> C -> A) (g : B -> C -> B)
      (R : A -> B -> Prop) :
  (forall a b c, R a b -> R (f a c) (g b c)) ->
  forall l a b, R a b -> R (fold_left f l a) (fold_left g l b).
Proof.
  intros Hstep. induction l as [|c l IH]; intros a b H; [exact H|].
  apply (IH (f a c) (g b c)), Hstep, H.
Qed.

Lemma hash_step_related (hash acc char : Z) :
  hash = to_int32 acc -> hash_step hash char = to_int32 (31 * acc + char).
Proof. intros ->. rewrite hash_step_mod. apply to_int32_linear. Qed.

Lemma hash_loop_from (jsonString : list Z) :
  forall hash acc,
    hash = to_int32 acc ->
    fold_left hash_step jsonString hash
    = to_int32 (fold_left (fun acc char => 31 * acc + char) jsonString acc).
Proof.
  exact (fold_left_related Z Z Z hash_step (fun acc char => 31 * acc + char)
           (fun hash acc => hash = to_int32 acc) hash_step_related jsonString).
Qed.

(** While the code units are below 2^16, no intermediate value of a turn
    leaves the integers that a JavaScript number holds exactly. *)
Lemma hash_step_exact (hash char : Z) :
  - 2 ^ 31 <= hash < 2 ^ 31 -> 0 <= char < 2 ^ 16 ->
  - 2 ^ 53 < to_int32 (Z.shiftl (to_int32 hash) 5) - hash < 2 ^ 53 /\
  - 2 ^ 53 < to_int32 (Z.shiftl (to_int32 hash) 5) - hash + char < 2 ^ 53.
Proof.
  intros Hh Hc. pose proof (to_int32_range (Z.shiftl (to_int32 hash) 5)). lia.
Qed.

Lemma to_string_inj (a b : Z) :
  number_to_string (num_of_Z a) = number_to_string (num_of_Z b) -> a = b.
Proof.
  intros H. pose proof (parseInt_VInt a) as Ha. pose proof (parseInt_VInt b) as Hb.
  unfold parseInt, String_, VInt, ToString in Ha, Hb.
  rewrite H in Ha. rewrite Ha in Hb. injection Hb as ->. reflexivity.
Qed.

(** X24. [generateDataHash] returns the decimal print of the polynomial in
    31 of the code units of the text, reduced modulo 2^32 to a 32-bit
    integer.  So two texts get the same hash exactly when their polynomials
    agree modulo 2^32: a change of the data that keeps the polynomial
    modulo 2^32 is not detected. *)
Theorem generateDataHash_polynomial (jsonString other : list Z) :
  generateDataHash jsonString
  = number_to_string (num_of_Z (to_int32 (polynomial jsonString))) /\
  - 2 ^ 31 <= hash_loop jsonString < 2 ^ 31 /\
  (generateDataHash jsonString = generateDataHash other <->
   polynomial jsonString mod 2 ^ 32 = polynomial other mod 2 ^ 32).
Proof.
  assert (H : forall l, hash_loop l = to_int32 (polynomial l)).
  { intros l. apply (hash_loop_from l 0 0). reflexivity. }
  unfold generateDataHash. rewrite !H. split; [reflexivity|].
  split; [apply to_int32_range|]. split.
  - intros E. apply to_int32_eqm, to_string_inj, E.
  - intros E. apply to_int32_eqm in E. rewrite E. reflexivity.
Qed.

(** ** Worked example *)

(** The code units of [["Aa"]] and of [["BB"]], two collections of one string
    each. *)
Definition text_Aa : list Z := [91; 34; 65; 97; 34; 93].
Definition text_BB : list Z := [91; 34; 66; 66; 34; 93].

(** The public page does not tell them apart. *)
Lemma Aa_BB_collide :
  text_Aa <> text_BB /\ generateDataHash text_Aa = generateDataHash text_BB.
Proof. split; [discriminate | vm_compute; reflexivity]. Qed.

End DataHash.
